(** * llama_cpp_openai: the llama-2-functionary chat handler

    A shallow embedding of [llama_cpp_openai/_llama_2_functionary_chat_handler.py]
    and the properties of its prompt compiler, completion parser and response
    assembly, followed by the chat completions endpoint of
    [llama_cpp_openai/_api_server.py].

    Conventions.
    - A Python [str] is a Rocq [string] holding its UTF-8 encoding; the
      concatenation and equality of the source are those of [string].
    - A Python exception is a value of [exn]; a computation that may raise
      has type [result A], with [inl e] for "raised [e]".
    - TypedDicts of [llama_types] are records; a [NotRequired] key is an
      [option] field, [None] standing for "key absent". Values typed
      [JsonType] (or produced by [json.loads]) are [value]s. *)

From Stdlib Require Import String Ascii List ZArith Lia Bool.
From Stdlib Require Import DecimalString PrimFloat.
From Stdlib Require Import Permutation.
From Stdlib Require DecimalFacts DecimalPos.
Import ListNotations.

Set Warnings "-register-all,-inexact-float".

Local Open Scope list_scope.
Local Open Scope string_scope.

(** ** Python exceptions and results *)

Inductive exn : Type :=
| KeyError (key : string)
| IndexError
| TypeError
| AttributeError
| ValueError (msg : string)
| JSONDecodeError
| AssertionError (msg : string).

(** [json.JSONDecodeError] is declared as a subclass of [ValueError]. *)
Definition is_ValueError (e : exn) : bool :=
  match e with
  | ValueError _ | JSONDecodeError => true
  | _ => false
  end.

Definition result (A : Type) : Type := (exn + A)%type.

Definition ok {A : Type} (a : A) : result A := inr a.
Definition raise {A : Type} (e : exn) : result A := inl e.

Definition rbind {A B : Type} (r : result A) (k : A -> result B) : result B :=
  match r with
  | inl e => inl e
  | inr a => k a
  end.

Declare Scope result_scope.
Delimit Scope result_scope with result.
Notation "x <- r ;; k" := (rbind r (fun x => k))
  (at level 61, r at next level, right associativity) : result_scope.

(** ** Python values handled by the [json] module *)

(** [PyFloat] keeps the literal a float was read from: the shortest
    round-trip rendering that [float.__repr__] computes is outside this
    development, so a float is printed by its literal. No statement below
    depends on the rendering of a float. A [PyDict] lists its items in
    insertion order, as [dict] does. *)
Inductive value : Type :=
| PyNone
| PyBool (b : bool)
| PyInt (n : Z)
| PyFloat (literal : string)
| PyStr (s : string)
| PyList (items : list value)
| PyDict (items : list (string * value)).

(** [d.get(k)] on the items of a dict. *)
Fixpoint dict_get (k : string) (d : list (string * value)) : option value :=
  match d with
  | [] => None
  | (k', v) :: d' => if String.eqb k k' then Some v else dict_get k d'
  end.

(** [d[k] = v]: an existing key keeps its position, a new key goes last. *)
Fixpoint dict_set (k : string) (v : value) (d : list (string * value))
  : list (string * value) :=
  match d with
  | [] => [(k, v)]
  | (k', v') :: d' =>
      if String.eqb k k' then (k, v) :: d' else (k', v') :: dict_set k v d'
  end.

(** [obj[k]] for a string key [k]: only a dict can be subscripted by a
    string; a missing key raises [KeyError], every other receiver raises
    [TypeError]. *)
Definition getitem (obj : value) (k : string) : result value :=
  match obj with
  | PyDict d =>
      match dict_get k d with
      | Some v => ok v
      | None => raise (KeyError k)
      end
  | _ => raise TypeError
  end.

(** [obj.items()]: only a dict has the method. *)
Definition items (obj : value) : result (list (string * value)) :=
  match obj with
  | PyDict d => ok d
  | _ => raise AttributeError
  end.

(** [str(x)] inside an f-string, for an [Optional[str]]. *)
Definition fmt (x : option string) : string :=
  match x with
  | Some s => s
  | None => "None"
  end.

(** ["sep".join(lines)] *)
Fixpoint join (sep : string) (lines : list string) : string :=
  match lines with
  | [] => ""
  | [l] => l
  | l :: ls => l ++ sep ++ join sep ls
  end.

(** The line feed and the double quote of the source's string literals. *)
Definition LF : string := String (ascii_of_nat 10) "".
Definition DQ : string := String (ascii_of_nat 34) "".

(** ** The [json] module: [json.dumps] and [json.loads]

    The encoder follows [json.encoder] with its defaults
    ([ensure_ascii=True], [allow_nan=True]) and the decoder follows
    [json.decoder] and [json.scanner] with [strict=True]. The decoder
    applies the limit of the interpreter on the digits of an integer,
    [sys.get_int_max_str_digits()], at its default of 4300: the conversion
    of a longer integer raises a [ValueError] that is no
    [JSONDecodeError]. The encoder is modelled on the values it prints:
    the [ValueError] of an int beyond that limit and the rendering of a
    float are outside (see [value]). The exhaustion of the interpreter's
    stack is outside as well: the [RecursionError] the decoder raises on
    containers nested deeper than the recursion limit leaves room for
    depends on the frames in use at the call. The statements on what
    [json.loads] raises are worded for any exception, so that they hold
    for that one too. *)

Module json.

Local Open Scope Z_scope.

(** *** Characters and code points *)

Definition byte_of (c : ascii) : Z := Z.of_nat (nat_of_ascii c).
Definition chr (n : Z) : ascii := ascii_of_nat (Z.to_nat n).
Definition str1 (n : Z) : string := String (chr n) "".

Definition is_cont (b : Z) : bool := (128 <=? b) && (b <? 192).

(** A lead byte of a multi-byte UTF-8 sequence: the number of continuation
    bytes after the first one, and the payload bits of the lead. *)
Definition lead (b : Z) : option (nat * Z) :=
  if b <? 192 then None
  else if b <? 224 then Some (0%nat, b - 192)
  else if b <? 240 then Some (1%nat, b - 224)
  else if b <? 248 then Some (2%nat, b - 240)
  else None.

(** The code points of a string read as UTF-8 (surrogates included, as a
    Python string may hold them), one byte at a time: [pending] is the
    number of continuation bytes still expected after the next one and the
    bits gathered so far. A byte that cannot start or continue a sequence
    is passed through as its own code point. *)
Fixpoint code_points_from (pending : option (nat * Z)) (s : string) : list Z :=
  match s with
  | EmptyString => []
  | String c s' =>
      let b := byte_of c in
      let fresh :=
        match lead b with
        | Some p => code_points_from (Some p) s'
        | None => b :: code_points_from None s'
        end in
      match pending with
      | Some (k, acc) =>
          if is_cont b then
            let acc' := acc * 64 + (b - 128) in
            match k with
            | 0%nat => acc' :: code_points_from None s'
            | S k' => code_points_from (Some (k', acc')) s'
            end
          else fresh
      | None => fresh
      end
  end.

Definition code_points (s : string) : list Z := code_points_from None s.

(** The UTF-8 encoding of one code point. *)
Definition utf8 (u : Z) : string :=
  if u <? 128 then str1 u
  else if u <? 2048 then str1 (192 + u / 64) ++ str1 (128 + u mod 64)
  else if u <? 65536 then
    str1 (224 + u / 4096) ++ str1 (128 + (u / 64) mod 64)
      ++ str1 (128 + u mod 64)
  else
    str1 (240 + u / 262144) ++ str1 (128 + (u / 4096) mod 64)
      ++ str1 (128 + (u / 64) mod 64) ++ str1 (128 + u mod 64).

(** *** Encoding *)

Definition hex_digit (d : Z) : string :=
  if d <? 10 then str1 (48 + d) else str1 (87 + d).

(** ['\\u{0:04x}'.format(n)] *)
Definition u_escape (n : Z) : string :=
  str1 92 ++ "u" ++ hex_digit ((n / 4096) mod 16) ++ hex_digit ((n / 256) mod 16)
    ++ hex_digit ((n / 16) mod 16) ++ hex_digit (n mod 16).

(** One code point under [ensure_ascii=True]: the short escapes, printable
    ASCII as it is, everything else as [\uXXXX], by surrogate pair above
    the basic plane. *)
Definition escape (u : Z) : string :=
  if u =? 34 then str1 92 ++ str1 34
  else if u =? 92 then str1 92 ++ str1 92
  else if u =? 10 then str1 92 ++ "n"
  else if u =? 13 then str1 92 ++ "r"
  else if u =? 9 then str1 92 ++ "t"
  else if u =? 12 then str1 92 ++ "f"
  else if u =? 8 then str1 92 ++ "b"
  else if (32 <=? u) && (u <=? 126) then str1 u
  else if u <? 65536 then u_escape u
  else
    let v := u - 65536 in
    u_escape (55296 + (v / 1024) mod 1024) ++ u_escape (56320 + v mod 1024).

(** [encode_basestring_ascii] *)
Definition encode_basestring_ascii (s : string) : string :=
  str1 34 ++ String.concat "" (map escape (code_points s)) ++ str1 34.

(** [int.__repr__] *)
Definition repr_int (n : Z) : string := NilZero.string_of_int (Z.to_int n).

(** [indent * level] spaces after a newline, when an indent is given. *)
Fixpoint spaces (n : nat) : string :=
  match n with
  | O => ""
  | S n' => " " ++ spaces n'
  end.

Definition newline_indent (indent : option nat) (level : nat) : string :=
  match indent with
  | Some w => LF ++ spaces (w * level)
  | None => ""
  end.

(** The item separator is [", "] without an indent and [","] followed by
    the newline and indentation with one. *)
Definition separator (indent : option nat) (level : nat) : string :=
  match indent with
  | Some _ => "," ++ newline_indent indent level
  | None => ", "
  end.

(** [_iterencode], with the current indent level. *)
Fixpoint iterencode (indent : option nat) (level : nat) (o : value) : string :=
  match o with
  | PyNone => "null"
  | PyBool true => "true"
  | PyBool false => "false"
  | PyInt n => repr_int n
  | PyFloat literal => literal
  | PyStr s => encode_basestring_ascii s
  | PyList [] => "[]"
  | PyList lst =>
      "[" ++ newline_indent indent (S level)
        ++ join (separator indent (S level))
             (map (iterencode indent (S level)) lst)
        ++ newline_indent indent level ++ "]"
  | PyDict [] => "{}"
  | PyDict dct =>
      "{" ++ newline_indent indent (S level)
        ++ join (separator indent (S level))
             (map (fun kv => encode_basestring_ascii (fst kv) ++ ": "
                               ++ iterencode indent (S level) (snd kv)) dct)
        ++ newline_indent indent level ++ "}"
  end.

(** [json.dumps(obj, indent=indent)], for a value the encoder prints (see
    the head of the module). *)
Definition dumps (obj : value) (indent : option nat) : string :=
  iterencode indent 0 obj.

(** *** Decoding *)

(** The outcome of scanning a prefix of the input: what was scanned and the
    input after it; [Invalid] for text the decoder rejects with a
    [JSONDecodeError]; [Raised] for an exception raised by a conversion,
    which is no [JSONDecodeError]. [Exhausted] reports that the recursion
    budget ran out; [loads] starts with a budget that is never used up
    (see [json_facts.loads_budget]). *)
Inductive scan (A : Type) : Type :=
| Scanned (a : A) (rest : string)
| Invalid
| Raised (e : exn)
| Exhausted.
Arguments Scanned {A} a rest.
Arguments Invalid {A}.
Arguments Raised {A} e.
Arguments Exhausted {A}.

(** [WHITESPACE]: space, tab, line feed, carriage return. *)
Definition is_ws (b : Z) : bool :=
  (b =? 32) || (b =? 9) || (b =? 10) || (b =? 13).

Fixpoint skip_ws (s : string) : string :=
  match s with
  | String c s' => if is_ws (byte_of c) then skip_ws s' else s
  | EmptyString => s
  end.

Definition is_digit (b : Z) : bool := (48 <=? b) && (b <=? 57).

Definition hex_value (b : Z) : option Z :=
  if is_digit b then Some (b - 48)
  else if (97 <=? b) && (b <=? 102) then Some (b - 87)
  else if (65 <=? b) && (b <=? 70) then Some (b - 55)
  else None.

(** [_decode_uXXXX]: exactly four hexadecimal digits. *)
Definition decode_uXXXX (c1 c2 c3 c4 : ascii) : option Z :=
  match hex_value (byte_of c1), hex_value (byte_of c2),
        hex_value (byte_of c3), hex_value (byte_of c4) with
  | Some h1, Some h2, Some h3, Some h4 =>
      Some (((h1 * 16 + h2) * 16 + h3) * 16 + h4)
  | _, _, _, _ => None
  end.

(** The [BACKSLASH] table of one-character escapes. *)
Definition backslash (b : Z) : option string :=
  if b =? 34 then Some (str1 34)
  else if b =? 92 then Some (str1 92)
  else if b =? 47 then Some "/"
  else if b =? 98 then Some (str1 8)
  else if b =? 102 then Some (str1 12)
  else if b =? 110 then Some (str1 10)
  else if b =? 114 then Some (str1 13)
  else if b =? 116 then Some (str1 9)
  else None.

Definition is_high_surrogate (u : Z) : bool := (55296 <=? u) && (u <=? 56319).
Definition is_low_surrogate (u : Z) : bool := (56320 <=? u) && (u <=? 57343).

Definition emit (chunk : string) (r : option (string * string))
  : option (string * string) :=
  match r with
  | Some (content, rest) => Some (chunk ++ content, rest)
  | None => None
  end.

(** [scanstring(s, end, strict=True)], from just after the opening quote:
    the decoded content and the input after the closing quote. A control
    character, an unknown escape and a missing closing quote are errors. A
    high surrogate escape directly followed by a low surrogate escape is
    one code point. *)
Fixpoint scanstring (s : string) : option (string * string) :=
  match s with
  | EmptyString => None
  | String c s1 =>
      let b := byte_of c in
      if b =? 34 then Some ("", s1)
      else if b <? 32 then None
      else if negb (b =? 92) then emit (String c "") (scanstring s1)
      else
        match s1 with
        | EmptyString => None
        | String e s2 =>
            if negb (byte_of e =? 117) then
              match backslash (byte_of e) with
              | Some chunk => emit chunk (scanstring s2)
              | None => None
              end
            else
              match s2 with
              | String h1 (String h2 (String h3 (String h4 s6))) =>
                  match decode_uXXXX h1 h2 h3 h4 with
                  | None => None
                  | Some uni =>
                      match s6 with
                      | String b1 (String b2 s8) =>
                          if is_high_surrogate uni && (byte_of b1 =? 92)
                             && (byte_of b2 =? 117)
                          then
                            match s8 with
                            | String l1 (String l2 (String l3 (String l4 s12))) =>
                                match decode_uXXXX l1 l2 l3 l4 with
                                | None => None
                                | Some uni2 =>
                                    if is_low_surrogate uni2 then
                                      emit (utf8 (65536 + (uni - 55296) * 1024
                                                  + (uni2 - 56320)))
                                           (scanstring s12)
                                    else emit (utf8 uni) (scanstring s6)
                                end
                            | _ => None
                            end
                          else emit (utf8 uni) (scanstring s6)
                      | _ => emit (utf8 uni) (scanstring s6)
                      end
                  end
              | _ => None
              end
        end
  end.

(** The longest prefix of decimal digits, and what follows it. *)
Fixpoint digits (s : string) : string * string :=
  match s with
  | String c s' =>
      if is_digit (byte_of c)
      then let (d, r) := digits s' in (String c d, r)
      else ("", s)
  | EmptyString => ("", "")
  end.

Definition sign_of (plus : bool) (s : string) : string * string :=
  match s with
  | String c s' =>
      if (byte_of c =? 45) || (plus && (byte_of c =? 43))
      then (String c "", s') else ("", s)
  | EmptyString => ("", s)
  end.

(** The three groups of [NUMBER_RE]: an integer part (an optional minus
    sign, then either a single zero or a non-zero digit and more digits),
    an optional fraction (a dot and at least one digit) and an optional
    exponent (e or E, an optional sign and at least one digit). *)
Definition match_integer (s : string) : option (string * string) :=
  let (sign, s1) := sign_of false s in
  match s1 with
  | String c s2 =>
      if byte_of c =? 48 then Some (sign ++ "0", s2)
      else if is_digit (byte_of c)
      then let (d, r) := digits s2 in Some (sign ++ String c d, r)
      else None
  | EmptyString => None
  end.

Definition match_frac (s : string) : option (string * string) :=
  match s with
  | String c s1 =>
      if byte_of c =? 46 then
        match digits s1 with
        | (EmptyString, _) => None
        | (d, r) => Some (String c d, r)
        end
      else None
  | EmptyString => None
  end.

Definition match_exp (s : string) : option (string * string) :=
  match s with
  | String c s1 =>
      if (byte_of c =? 101) || (byte_of c =? 69) then
        let (sign, s2) := sign_of true s1 in
        match digits s2 with
        | (EmptyString, _) => None
        | (d, r) => Some (String c (sign ++ d), r)
        end
      else None
  | EmptyString => None
  end.

Definition optional (m : string -> option (string * string)) (s : string)
  : string * string :=
  match m s with
  | Some p => p
  | None => ("", s)
  end.

(** The value of a matched integer group. *)
Fixpoint int_of_digits (acc : Z) (s : string) : Z :=
  match s with
  | String c s' => int_of_digits (acc * 10 + (byte_of c - 48)) s'
  | EmptyString => acc
  end.

Definition int_of (integer : string) : Z :=
  match integer with
  | String c s' =>
      if byte_of c =? 45 then - int_of_digits 0 s' else int_of_digits 0 integer
  | EmptyString => 0
  end.

(** [sys.get_int_max_str_digits()], at its default: the most digits the
    interpreter converts between an [int] and its decimal text. *)
Definition int_max_str_digits : nat := 4300.

(** The digits of a matched integer group, without its sign. *)
Definition digits_of (integer : string) : string :=
  match integer with
  | String c s' => if byte_of c =? 45 then s' else integer
  | EmptyString => integer
  end.

(** The [ValueError] of [int] on a text of [n] digits, more than the limit. *)
Definition int_too_long (n : nat) : exn :=
  ValueError ("Exceeds the limit (4300 digits) for integer string conversion: "
                ++ "value has " ++ repr_int (Z.of_nat n)
                ++ " digits; use sys.set_int_max_str_digits() to increase the limit").

(** [int(integer)] on a matched integer group: the sign is not counted
    against the limit. *)
Definition parse_int (integer : string) : result value :=
  let n := String.length (digits_of integer) in
  if (int_max_str_digits <? n)%nat then raise (int_too_long n)
  else ok (PyInt (int_of integer)).

(** [match_number] and the conversion that follows it in [_scan_once]: a
    fraction or an exponent makes a float, otherwise the number is an int,
    and the conversion to an int may raise. *)
Definition match_number (s : string) : option (result value * string) :=
  match match_integer s with
  | None => None
  | Some (integer, r1) =>
      let (frac, r2) := optional match_frac r1 in
      let (exp, r3) := optional match_exp r2 in
      match frac, exp with
      | EmptyString, EmptyString => Some (parse_int integer, r3)
      | _, _ => Some (ok (PyFloat (integer ++ frac ++ exp)), r3)
      end
  end.

(** [s[idx:idx + len(p)] == p], returning what follows the match. *)
Fixpoint strip_prefix (p s : string) : option string :=
  match p with
  | EmptyString => Some s
  | String a p' =>
      match s with
      | String c s' => if Ascii.eqb a c then strip_prefix p' s' else None
      | EmptyString => None
      end
  end.

(** The literals of [_scan_once], in the order the source tries them
    around [match_number]. *)
Definition scan_literal (s : string) : scan value :=
  match strip_prefix "null" s with
  | Some r => Scanned PyNone r
  | None =>
  match strip_prefix "true" s with
  | Some r => Scanned (PyBool true) r
  | None =>
  match strip_prefix "false" s with
  | Some r => Scanned (PyBool false) r
  | None =>
  match match_number s with
  | Some (inr v, r) => Scanned v r
  | Some (inl e, _) => Raised e
  | None =>
  match strip_prefix "NaN" s with
  | Some r => Scanned (PyFloat "NaN") r
  | None =>
  match strip_prefix "Infinity" s with
  | Some r => Scanned (PyFloat "Infinity") r
  | None =>
  match strip_prefix "-Infinity" s with
  | Some r => Scanned (PyFloat "-Infinity") r
  | None => Invalid
  end end end end end end end.

(** [dict(pairs)]: a later pair replaces the value of an equal key. *)
Definition dict (pairs : list (string * value)) : list (string * value) :=
  fold_left (fun d kv => dict_set (fst kv) (snd kv) d) pairs [].

(** [_scan_once], with [JSONArray] and [JSONObject]. [array_items] starts at
    an item; [object_items] starts just after the opening quote of a key. *)
Fixpoint scan_once (fuel : nat) (s : string) : scan value :=
  match fuel with
  | O => Exhausted
  | S fuel' =>
      match s with
      | EmptyString => Invalid
      | String c s1 =>
          let b := byte_of c in
          if b =? 34 then
            match scanstring s1 with
            | Some (str, r) => Scanned (PyStr str) r
            | None => Invalid
            end
          else if b =? 123 then
            match skip_ws s1 with
            | String c1 r1 =>
                if byte_of c1 =? 125 then Scanned (PyDict []) r1
                else if byte_of c1 =? 34 then
                  match object_items fuel' r1 with
                  | Scanned pairs r => Scanned (PyDict (dict pairs)) r
                  | Invalid => Invalid
                  | Raised e => Raised e
                  | Exhausted => Exhausted
                  end
                else Invalid
            | EmptyString => Invalid
            end
          else if b =? 91 then
            match skip_ws s1 with
            | String c1 r1 =>
                if byte_of c1 =? 93 then Scanned (PyList []) r1
                else
                  match array_items fuel' (String c1 r1) with
                  | Scanned values r => Scanned (PyList values) r
                  | Invalid => Invalid
                  | Raised e => Raised e
                  | Exhausted => Exhausted
                  end
            | EmptyString => Invalid
            end
          else scan_literal s
      end
  end

with array_items (fuel : nat) (s : string) : scan (list value) :=
  match fuel with
  | O => Exhausted
  | S fuel' =>
      match scan_once fuel' s with
      | Scanned v r =>
          match skip_ws r with
          | String c r1 =>
              if byte_of c =? 93 then Scanned [v] r1
              else if byte_of c =? 44 then
                match array_items fuel' (skip_ws r1) with
                | Scanned values r2 => Scanned (v :: values) r2
                | Invalid => Invalid
                | Raised e => Raised e
                | Exhausted => Exhausted
                end
              else Invalid
          | EmptyString => Invalid
          end
      | Invalid => Invalid
      | Raised e => Raised e
      | Exhausted => Exhausted
      end
  end

with object_items (fuel : nat) (s : string) : scan (list (string * value)) :=
  match fuel with
  | O => Exhausted
  | S fuel' =>
      match scanstring s with
      | None => Invalid
      | Some (key, r) =>
          match skip_ws r with
          | String c r1 =>
              if negb (byte_of c =? 58) then Invalid
              else
                match scan_once fuel' (skip_ws r1) with
                | Scanned v r2 =>
                    match skip_ws r2 with
                    | String c2 r3 =>
                        if byte_of c2 =? 125 then Scanned [(key, v)] r3
                        else if byte_of c2 =? 44 then
                          match skip_ws r3 with
                          | String c3 r4 =>
                              if byte_of c3 =? 34 then
                                match object_items fuel' r4 with
                                | Scanned pairs r5 =>
                                    Scanned ((key, v) :: pairs) r5
                                | Invalid => Invalid
                                | Raised e => Raised e
                                | Exhausted => Exhausted
                                end
                              else Invalid
                          | EmptyString => Invalid
                          end
                        else Invalid
                    | EmptyString => Invalid
                    end
                | Invalid => Invalid
                | Raised e => Raised e
                | Exhausted => Exhausted
                end
          | EmptyString => Invalid
          end
      end
  end.

(** The recursion budget [loads] gives [scan_once]. *)
Definition budget (s : string) : nat := S (2 * String.length s).

(** [json.loads(s)]: one value between optional whitespace, and nothing
    after it. Text that is not JSON raises [JSONDecodeError]; an integer
    of more digits than the limit raises the [ValueError] of [int] when it
    is scanned, whatever follows it. *)
Definition loads (s : string) : result value :=
  match scan_once (budget s) (skip_ws s) with
  | Scanned obj r =>
      match skip_ws r with
      | EmptyString => ok obj
      | String _ _ => raise JSONDecodeError
      end
  | Invalid => raise JSONDecodeError
  | Raised e => raise e
  | Exhausted => raise JSONDecodeError
  end.

End json.

Local Open Scope string_scope.

(** ** The types of [llama_types] the handler works with *)

Module llama_types.

(** [ChatCompletionRequestAssistantMessageFunctionCall]; [arguments] is the
    JSON text of the arguments. *)
Module FunctionCall.
Record t : Type := { name : string; arguments : string }.
End FunctionCall.

(** [ChatCompletionMessageToolCall] *)
Module ToolCall.
Record t : Type := { id : string; type : string; function : FunctionCall.t }.
End ToolCall.

(** [ChatCompletionRequestMessage]: the union of the role-specific message
    types. [content] is a required key of type [Optional[str]];
    [tool_calls] and [function_call] are [NotRequired]. *)
Module Message.
Record t : Type := {
  role : string;
  content : option string;
  name : option string;
  tool_calls : option (list ToolCall.t);
  function_call : option FunctionCall.t
}.
End Message.

(** [ChatCompletionToolFunction] (and [ChatCompletionFunction]):
    [description] is [NotRequired], [parameters] is a [Dict[str, JsonType]]. *)
Module Function.
Record t : Type := {
  name : string;
  description : option string;
  parameters : list (string * value)
}.
End Function.

(** [ChatCompletionTool] *)
Module Tool.
Record t : Type := { type : string; function : Function.t }.
End Tool.

Module CompletionUsage.
Record t : Type := {
  prompt_tokens : Z;
  completion_tokens : Z;
  total_tokens : Z
}.
End CompletionUsage.

Module CompletionChoice.
Record t : Type := {
  text : string;
  index : Z;
  logprobs : option value;
  finish_reason : option string
}.
End CompletionChoice.

(** [Completion], the result of [Llama.create_completion]. *)
Module Completion.
Record t : Type := {
  id : string;
  object : string;
  created : Z;
  model : string;
  choices : list CompletionChoice.t;
  usage : CompletionUsage.t
}.
End Completion.

(** The function entry of a response message. The handler copies the
    decoded ["function"] value into [name] whatever its type. *)
Module ResponseFunction.
Record t : Type := { name : value; arguments : string }.
End ResponseFunction.

Module ResponseToolCall.
Record t : Type := { id : value; type : string; function : ResponseFunction.t }.
End ResponseToolCall.

(** The message dict of a response choice: the keys ["tool_calls"] and
    ["function_call"] are present or absent together with a tool call. *)
Module ResponseMessage.
Record t : Type := {
  role : string;
  content : option string;
  tool_calls : option (list ResponseToolCall.t);
  function_call : option ResponseFunction.t
}.
End ResponseMessage.

Module ChatCompletionChoice.
Record t : Type := {
  index : Z;
  message : ResponseMessage.t;
  finish_reason : string
}.
End ChatCompletionChoice.

(** [CreateChatCompletionResponse] *)
Module ChatCompletion.
Record t : Type := {
  id : string;
  object : string;
  created : Z;
  model : string;
  choices : list ChatCompletionChoice.t;
  usage : CompletionUsage.t
}.
End ChatCompletion.

End llama_types.
Import llama_types.

(** ** The inference collaborator *)

Module llama.

(** Objects the handler only passes on, known by their identity. *)
Inductive LogitsProcessorList : Type := LogitsProcessors (handle : nat).
Inductive LlamaGrammar : Type := Grammar (handle : nat).

(** The keyword arguments of one [create_completion] call. *)
Module CreateCompletion.
Record t : Type := {
  prompt : string;
  stop : list string;
  stream : bool;
  grammar : option LlamaGrammar;
  max_tokens : option Z;
  temperature : float;
  top_p : float;
  top_k : Z;
  min_p : float;
  typical_p : float;
  presence_penalty : float;
  frequency_penalty : float;
  repeat_penalty : float;
  tfs_z : float;
  mirostat_mode : Z;
  mirostat_tau : float;
  mirostat_eta : float;
  model : option string;
  logits_processor : option LogitsProcessorList
}.
End CreateCompletion.

(** A [Llama] instance as the handler sees it: what [create_completion]
    answers to a call, and the calls it has received so far, oldest first. *)
Record Llama : Type := {
  completion_of : CreateCompletion.t -> result Completion.t;
  calls : list CreateCompletion.t
}.

(** The instance after one more call. *)
Definition called (self : Llama) (kwargs : CreateCompletion.t) : Llama :=
  {| completion_of := completion_of self; calls := (calls self ++ [kwargs])%list |}.

(** [self.create_completion] with its keyword arguments: the call is
    recorded whether it returns or raises. *)
Definition create_completion (self : Llama) (kwargs : CreateCompletion.t)
  : result Completion.t * Llama :=
  (completion_of self kwargs, called self kwargs).

End llama.

(** ** The handler: [llama2_functary_chat_completion_handler] *)

(** The arguments of the handler other than [llama], with the defaults of
    its signature. [functions], [function_call], [tool_choice] and
    [response_format] are carried as JSON-like values. *)
Module Request.
Record t : Type := {
  messages : list Message.t;
  functions : option (list Function.t);
  function_call : option value;
  tools : option (list Tool.t);
  tool_choice : option value;
  temperature : float;
  top_p : float;
  top_k : Z;
  min_p : float;
  typical_p : float;
  stream : bool;
  stop : option (string + list string);
  response_format : option value;
  max_tokens : option Z;
  presence_penalty : float;
  frequency_penalty : float;
  repeat_penalty : float;
  tfs_z : float;
  mirostat_mode : Z;
  mirostat_tau : float;
  mirostat_eta : float;
  model : option string;
  logits_processor : option llama.LogitsProcessorList;
  grammar : option llama.LlamaGrammar
}.

(** A call that passes [messages] and [tools] and leaves every other
    parameter at its default. *)
Definition defaults (messages : list Message.t) (tools : option (list Tool.t)) : t :=
  {| messages := messages; functions := None; function_call := None;
     tools := tools; tool_choice := None;
     temperature := 0.2; top_p := 0.95; top_k := 40; min_p := 0.05;
     typical_p := 1.0; stream := false; stop := Some (inr []);
     response_format := None; max_tokens := None;
     presence_penalty := 0.0; frequency_penalty := 0.0;
     repeat_penalty := 1.1; tfs_z := 1.0; mirostat_mode := 0;
     mirostat_tau := 5.0; mirostat_eta := 0.1; model := None;
     logits_processor := None; grammar := None |}.

(** The same call with another [stop] argument. *)
Definition with_stop (stop : option (string + list string)) (r : t) : t :=
  {| messages := messages r; functions := functions r;
     function_call := function_call r; tools := tools r;
     tool_choice := tool_choice r; temperature := temperature r;
     top_p := top_p r; top_k := top_k r; min_p := min_p r;
     typical_p := typical_p r; stream := stream r; stop := stop;
     response_format := response_format r; max_tokens := max_tokens r;
     presence_penalty := presence_penalty r;
     frequency_penalty := frequency_penalty r;
     repeat_penalty := repeat_penalty r; tfs_z := tfs_z r;
     mirostat_mode := mirostat_mode r; mirostat_tau := mirostat_tau r;
     mirostat_eta := mirostat_eta r; model := model r;
     logits_processor := logits_processor r; grammar := grammar r |}.

(** The same call with another [stream] argument. *)
Definition with_stream (stream : bool) (r : t) : t :=
  {| messages := messages r; functions := functions r;
     function_call := function_call r; tools := tools r;
     tool_choice := tool_choice r; temperature := temperature r;
     top_p := top_p r; top_k := top_k r; min_p := min_p r;
     typical_p := typical_p r; stream := stream; stop := stop r;
     response_format := response_format r; max_tokens := max_tokens r;
     presence_penalty := presence_penalty r;
     frequency_penalty := frequency_penalty r;
     repeat_penalty := repeat_penalty r; tfs_z := tfs_z r;
     mirostat_mode := mirostat_mode r; mirostat_tau := mirostat_tau r;
     mirostat_eta := mirostat_eta r; model := model r;
     logits_processor := logits_processor r; grammar := grammar r |}.
End Request.

Local Open Scope result_scope.

(** A list comprehension whose element expression may raise: the first
    exception ends it. *)
Fixpoint comprehension {A B : Type} (f : A -> result B) (l : list A)
  : result (list B) :=
  match l with
  | [] => ok []
  | a :: l' => b <- f a ;; bs <- comprehension f l' ;; ok (b :: bs)
  end.

(** *** [_format_tools] *)

(** One entry of the inner comprehension:
    [{"name": name, "type": property["type"]}]. *)
Definition trelis_argument (item : string * value) : result value :=
  let (name, property) := item in
  type <- getitem property "type" ;;
  ok (PyDict [("name", PyStr name); ("type", type)]).

(** One entry of [trelis_tools]. The subscripts are evaluated in the order
    of the dict display: name, description, then the properties. *)
Definition trelis_tool (tool : Tool.t) : result value :=
  let function := Tool.function tool in
  let name := Function.name function in
  description <-
    match Function.description function with
    | Some d => ok d
    | None => raise (KeyError "description")
    end ;;
  properties <- getitem (PyDict (Function.parameters function)) "properties" ;;
  properties_items <- items properties ;;
  arguments <- comprehension trelis_argument properties_items ;;
  ok (PyDict [("function", PyStr name);
              ("description", PyStr description);
              ("arguments", PyList arguments)]).

Definition _format_tools (messages : list Message.t)
    (functions : option (list Function.t)) (tools : option (list Tool.t))
  : result string :=
  match tools with
  | None => ok ""
  | Some [] => ok ""
  | Some tools =>
      trelis_tools <- comprehension trelis_tool tools ;;
      ok ("<FUNCTIONS>" ++ json.dumps (PyList trelis_tools) (Some 4%nat)
            ++ "</FUNCTIONS>" ++ LF ++ LF)
  end.

(** *** [_format_messages] *)

(** The three keys of the accumulator [state]. *)
Inductive slot : Type := user | system | assistant.

(** The accumulator: at most one pending text per slot. *)
Record state : Type := {
  st_user : option string;
  st_system : option string;
  st_assistant : option string
}.

(** The value [_reset_state] assigns. *)
Definition _reset_state : state :=
  {| st_user := None; st_system := None; st_assistant := None |}.

Definition state_get (st : state) (role : slot) : option string :=
  match role with
  | user => st_user st
  | system => st_system st
  | assistant => st_assistant st
  end.

(** [state[role] = text] *)
Definition state_set (st : state) (role : slot) (text : option string) : state :=
  match role with
  | user =>
      {| st_user := text; st_system := st_system st; st_assistant := st_assistant st |}
  | system =>
      {| st_user := st_user st; st_system := text; st_assistant := st_assistant st |}
  | assistant =>
      {| st_user := st_user st; st_system := st_system st; st_assistant := text |}
  end.

Definition is_None {A : Type} (x : option A) : bool :=
  match x with
  | None => true
  | Some _ => false
  end.

(** [all([v is None for v in state.values()])] *)
Definition all_None (st : state) : bool :=
  is_None (st_user st) && is_None (st_system st) && is_None (st_assistant st).

(** The block one flush renders from the accumulator. *)
Definition render (st : state) : string :=
  let system :=
    match st_system st with
    | Some s => "<<SYS>>" ++ LF ++ s ++ LF ++ "<</SYS>>" ++ LF ++ LF
    | None => ""
    end in
  let prompt :=
    match st_user st with
    | Some u => "[INST] " ++ system ++ u ++ " [/INST]"
    | None => ""
    end in
  match st_assistant st with
  | Some a => "<s>" ++ prompt ++ " " ++ a ++ "</s>"
  | None => prompt
  end.

(** [_push_state(role)], on the enclosing [lines] and [state]: nothing
    happens when the slot named by [role] is free or when every slot is
    free; otherwise one block is appended and the accumulator is reset. *)
Definition _push_state (role : option slot) (acc : list string * state)
  : list string * state :=
  let (lines, st) := acc in
  if match role with
     | Some r => is_None (state_get st r)
     | None => false
     end
  then acc
  else if all_None st then acc
  else ((lines ++ [render st])%list, _reset_state).

(** [_format_function_call] *)
Definition _format_function_call (function_call : FunctionCall.t) : result string :=
  arguments <- json.loads (FunctionCall.arguments function_call) ;;
  ok (json.dumps (PyDict [("function", PyStr (FunctionCall.name function_call));
                          ("arguments", arguments)]) None).

(** [lst[0]] *)
Definition first {A : Type} (lst : list A) : result A :=
  match lst with
  | x :: _ => ok x
  | [] => raise IndexError
  end.

(** The wrapper around the content of a function-role message. *)
Definition function_response (content : option string) : string :=
  "Here is the response to that function call:" ++ LF ++ LF
    ++ DQ ++ fmt content ++ DQ.

(** [_format_message_content]: the two assistant cases test the presence
    of a key, [tool_calls] before [function_call]. *)
Definition _format_message_content (message : Message.t) : result (option string) :=
  let is_assistant := String.eqb (Message.role message) "assistant" in
  match (if is_assistant then Message.tool_calls message else None) with
  | Some tool_calls =>
      tool_call <- first tool_calls ;;
      text <- _format_function_call (ToolCall.function tool_call) ;;
      ok (Some text)
  | None =>
      match (if is_assistant then Message.function_call message else None) with
      | Some function_call =>
          text <- _format_function_call function_call ;;
          ok (Some text)
      | None =>
          if String.eqb (Message.role message) "function"
          then ok (Some (function_response (Message.content message)))
          else ok (Message.content message)
      end
  end.

(** The slot a role writes to; [None] for an unknown role. *)
Definition slot_of_role (role : string) : option slot :=
  if String.eqb role "user" || String.eqb role "function" then Some user
  else if String.eqb role "system" then Some system
  else if String.eqb role "assistant" then Some assistant
  else None.

(** One turn of the [while True] loop: flush if the target slot is taken,
    then store the formatted content in it. *)
Definition turn (message : Message.t) (acc : list string * state)
  : result (list string * state) :=
  match slot_of_role (Message.role message) with
  | Some r =>
      let (lines, st) := _push_state (Some r) acc in
      text <- _format_message_content message ;;
      ok (lines, state_set st r text)
  | None => raise (ValueError ("Unknown role: " ++ Message.role message))
  end.

(** The loop over [iter(messages)], until [StopIteration]. *)
Fixpoint turns (messages : list Message.t) (acc : list string * state)
  : result (list string * state) :=
  match messages with
  | [] => ok acc
  | message :: rest => acc' <- turn message acc ;; turns rest acc'
  end.

Definition _format_messages (messages : list Message.t) : result string :=
  acc <- turns messages ([], _reset_state) ;;
  let (lines, _) := _push_state None acc in
  ok (join LF lines).

(** *** The body of the handler *)

(** Line 141: the tool header, then the compiled turns. *)
Definition compile (r : Request.t) : result string :=
  header <- _format_tools (Request.messages r) (Request.functions r) (Request.tools r) ;;
  body <- _format_messages (Request.messages r) ;;
  ok (header ++ body).

(** The keyword arguments the handler passes to [create_completion]. *)
Definition completion_kwargs (prompt : string) (r : Request.t)
  : llama.CreateCompletion.t :=
  {| llama.CreateCompletion.prompt := prompt;
     llama.CreateCompletion.stop := ["user:"; "</s>"];
     llama.CreateCompletion.stream := false;
     llama.CreateCompletion.grammar := Request.grammar r;
     llama.CreateCompletion.max_tokens := Request.max_tokens r;
     llama.CreateCompletion.temperature := Request.temperature r;
     llama.CreateCompletion.top_p := Request.top_p r;
     llama.CreateCompletion.top_k := Request.top_k r;
     llama.CreateCompletion.min_p := Request.min_p r;
     llama.CreateCompletion.typical_p := Request.typical_p r;
     llama.CreateCompletion.presence_penalty := Request.presence_penalty r;
     llama.CreateCompletion.frequency_penalty := Request.frequency_penalty r;
     llama.CreateCompletion.repeat_penalty := Request.repeat_penalty r;
     llama.CreateCompletion.tfs_z := Request.tfs_z r;
     llama.CreateCompletion.mirostat_mode := Request.mirostat_mode r;
     llama.CreateCompletion.mirostat_tau := Request.mirostat_tau r;
     llama.CreateCompletion.mirostat_eta := Request.mirostat_eta r;
     llama.CreateCompletion.model := Request.model r;
     llama.CreateCompletion.logits_processor := Request.logits_processor r |}.

(** [try: body except json.JSONDecodeError: handler] *)
Definition except_JSONDecodeError {A : Type} (body handler : result A) : result A :=
  match body with
  | inl JSONDecodeError => handler
  | _ => body
  end.

(** [_parse_tool_calls]: [None] for text that is not JSON. The subscripts
    of the decoded value are inside the [try], whose handler names
    [JSONDecodeError] only. *)
Definition _parse_tool_calls (completion : Completion.t)
  : result (option (list ResponseToolCall.t)) :=
  choice <- first (Completion.choices completion) ;;
  let content := CompletionChoice.text choice in
  except_JSONDecodeError
    (function_call <- json.loads content ;;
     id <- getitem function_call "function" ;;
     name <- getitem function_call "function" ;;
     arguments <- getitem function_call "arguments" ;;
     ok (Some [ {| ResponseToolCall.id := id;
                   ResponseToolCall.type := "function";
                   ResponseToolCall.function :=
                     {| ResponseFunction.name := name;
                        ResponseFunction.arguments :=
                          json.dumps arguments (Some 2%nat) |} |} ]))
    (ok None).

(** Lines 181 to 191: the assistant message of the response. *)
Definition assistant_message (completion : Completion.t) : result ResponseMessage.t :=
  tool_calls <- _parse_tool_calls completion ;;
  match tool_calls with
  | Some tool_calls =>
      tool_call <- first tool_calls ;;
      ok {| ResponseMessage.role := "assistant";
            ResponseMessage.content := None;
            ResponseMessage.tool_calls := Some tool_calls;
            ResponseMessage.function_call :=
              Some (ResponseToolCall.function tool_call) |}
  | None =>
      choice <- first (Completion.choices completion) ;;
      ok {| ResponseMessage.role := "assistant";
            ResponseMessage.content := Some (CompletionChoice.text choice);
            ResponseMessage.tool_calls := None;
            ResponseMessage.function_call := None |}
  end.

(** Lines 193 to 204: the response envelope. *)
Definition response (completion : Completion.t) : result ChatCompletion.t :=
  message <- assistant_message completion ;;
  ok {| ChatCompletion.id := "chat" ++ Completion.id completion;
        ChatCompletion.object := "chat.completion";
        ChatCompletion.created := Completion.created completion;
        ChatCompletion.model := Completion.model completion;
        ChatCompletion.choices :=
          [ {| ChatCompletionChoice.index := 0;
               ChatCompletionChoice.message := message;
               ChatCompletionChoice.finish_reason := "stop" |} ];
        ChatCompletion.usage := Completion.usage completion |}.

(** The handler: the result or the exception, and the collaborator with
    the calls it has received. The prompt is compiled first, then
    [stream] is asserted to be false, then the collaborator is called. *)
Definition llama2_functary_chat_completion_handler
    (llm : llama.Llama) (r : Request.t) : result ChatCompletion.t * llama.Llama :=
  match compile r with
  | inl e => (inl e, llm)
  | inr prompt =>
      if Request.stream r
      then (raise (AssertionError "streaming is not supported yet"), llm)
      else
        let (completion, llm') :=
          llama.create_completion llm (completion_kwargs prompt r) in
        match completion with
        | inl e => (inl e, llm')
        | inr completion => (response completion, llm')
        end
  end.

(** * The API server: [llama_cpp_openai/_api_server.py] *)

Module api_server.

(** ** The request models

    Each [BaseModel] subclass is a record with the fields in the order of
    the class body; a field typed [Optional[...] = None] is an [option]. *)

(** [model_dump(exclude_none=True)] lists the fields of a model in their
    declaration order and leaves out, at every depth, a field whose value
    is [None]; a nested model is dumped to a dict, a [List] to a list, a
    [Dict] to a dict. [field] is the contribution of one optional field. *)
Definition field (name : string) (v : option value) : list (string * value) :=
  match v with
  | Some v => [(name, v)]
  | None => []
  end.

Module ChatCompletionsRequestToolFunctionParametersProperty.
Record t : Type := { title : string; type : string }.

Definition model_dump (self : t) : value :=
  PyDict [("title", PyStr (title self)); ("type", PyStr (type self))].
End ChatCompletionsRequestToolFunctionParametersProperty.

Module ChatCompletionsRequestToolFunctionParameters.
Record t : Type := {
  type : string;
  title : string;
  required : list string;
  properties : list (string * ChatCompletionsRequestToolFunctionParametersProperty.t)
}.

Definition model_dump (self : t) : value :=
  PyDict [("type", PyStr (type self));
          ("title", PyStr (title self));
          ("required", PyList (map PyStr (required self)));
          ("properties",
           PyDict (map (fun item =>
                          (fst item,
                           ChatCompletionsRequestToolFunctionParametersProperty.model_dump
                             (snd item)))
                       (properties self)))].
End ChatCompletionsRequestToolFunctionParameters.

Module ChatCompletionsRequestToolFunction.
Record t : Type := {
  name : string;
  description : option string;
  parameters : ChatCompletionsRequestToolFunctionParameters.t
}.

Definition model_dump (self : t) : value :=
  PyDict ([("name", PyStr (name self))]
            ++ field "description" (option_map PyStr (description self))
            ++ [("parameters",
                 ChatCompletionsRequestToolFunctionParameters.model_dump
                   (parameters self))])%list.
End ChatCompletionsRequestToolFunction.

Module ChatCompletionsRequestTool.
Record t : Type := {
  type : string;
  function : ChatCompletionsRequestToolFunction.t
}.

Definition model_dump (self : t) : value :=
  PyDict [("type", PyStr (type self));
          ("function", ChatCompletionsRequestToolFunction.model_dump (function self))].
End ChatCompletionsRequestTool.

Module ChatCompletionsRequestMessageFunctionCall.
Record t : Type := { name : string; arguments : string }.

Definition model_dump (self : t) : value :=
  PyDict [("name", PyStr (name self)); ("arguments", PyStr (arguments self))].
End ChatCompletionsRequestMessageFunctionCall.

Module ChatCompletionsRequestMessage.
Record t : Type := {
  content : option string;
  role : string;
  name : option string;
  function_call : option ChatCompletionsRequestMessageFunctionCall.t
}.

Definition model_dump (self : t) : value :=
  PyDict (field "content" (option_map PyStr (content self))
            ++ [("role", PyStr (role self))]
            ++ field "name" (option_map PyStr (name self))
            ++ field "function_call"
                 (option_map ChatCompletionsRequestMessageFunctionCall.model_dump
                    (function_call self)))%list.
End ChatCompletionsRequestMessage.

Module ChatCompletionsRequest.
Record t : Type := {
  messages : list ChatCompletionsRequestMessage.t;
  model : string;
  tools : option (list ChatCompletionsRequestTool.t)
}.

Definition model_dump (self : t) : value :=
  PyDict ([("messages",
            PyList (map ChatCompletionsRequestMessage.model_dump (messages self)));
           ("model", PyStr (model self))]
            ++ field "tools"
                 (option_map
                    (fun tools => PyList (map ChatCompletionsRequestTool.model_dump tools))
                    (tools self)))%list.
End ChatCompletionsRequest.

(** ** The [Llama] instance as the endpoint sees it *)

(** The keyword arguments of one [create_chat_completion] call. *)
Module CreateChatCompletion.
Record t : Type := { messages : value; tools : value }.
End CreateChatCompletion.

(** What [create_chat_completion] answers to a call, and the calls it has
    received so far, oldest first. *)
Record Llama : Type := {
  chat_completion_of : CreateChatCompletion.t -> result value;
  chat_calls : list CreateChatCompletion.t
}.

(** [self.create_chat_completion] with its keyword arguments: the call is
    recorded whether it returns or raises. *)
Definition create_chat_completion (self : Llama) (kwargs : CreateChatCompletion.t)
  : result value * Llama :=
  (chat_completion_of self kwargs,
   {| chat_completion_of := chat_completion_of self;
      chat_calls := (chat_calls self ++ [kwargs])%list |}).

(** ** [completions_endpoint] *)

Local Open Scope result_scope.

(** [k in obj] for a string [k]: a key of a dict, an element of a list, a
    substring of a str; the other receivers are not iterable. *)
Definition contains (k : string) (obj : value) : result bool :=
  match obj with
  | PyDict d => ok (negb (is_None (dict_get k d)))
  | PyList l =>
      ok (existsb (fun x => match x with
                            | PyStr s => String.eqb s k
                            | _ => false
                            end) l)
  | PyStr s => ok (negb (is_None (String.index 0 k s)))
  | _ => raise TypeError
  end.

(** [obj[k] = v] for a string [k]: only a dict takes a string key. *)
Definition setitem (obj : value) (k : string) (v : value) : result value :=
  match obj with
  | PyDict d => ok (PyDict (dict_set k v d))
  | _ => raise TypeError
  end.

(** The elements a [for] loop over [obj] visits: the elements of a list,
    the keys of a dict, the characters of a str. *)
Definition iter (obj : value) : result (list value) :=
  match obj with
  | PyList l => ok l
  | PyDict d => ok (map (fun item => PyStr (fst item)) d)
  | PyStr s => ok (map (fun u => PyStr (json.utf8 u)) (json.code_points s))
  | _ => raise TypeError
  end.

(** The body of the loop, on one [message]:
    [if not "content" in message: message["content"] = None]. *)
Definition restore_content (message : value) : result value :=
  present <- contains "content" message ;;
  if present then ok message else setitem message "content" PyNone.

(** The loop over [messages]. The assignment updates the visited object in
    place, so the elements of a list are the updated ones afterwards; keys
    and characters are strings, which the body cannot update. *)
Definition restore_contents (messages : value) : result value :=
  visited <- iter messages ;;
  restored <- comprehension restore_content visited ;;
  ok (match messages with
      | PyList _ => PyList restored
      | _ => messages
      end).

(** [request["tools"] if "tools" in request else None] *)
Definition tools_argument (request : value) : result value :=
  present <- contains "tools" request ;;
  if present then getitem request "tools" else ok PyNone.

(** The endpoint: the answer of [create_chat_completion] or the exception,
    and the collaborator with the calls it has received. *)
Definition completions_endpoint (llm : Llama) (request : ChatCompletionsRequest.t)
  : result value * Llama :=
  let request := ChatCompletionsRequest.model_dump request in
  match (messages <- getitem request "messages" ;; restore_contents messages) with
  | inl e => (inl e, llm)
  | inr messages =>
      match tools_argument request with
      | inl e => (inl e, llm)
      | inr tools =>
          create_chat_completion llm
            {| CreateChatCompletion.messages := messages;
               CreateChatCompletion.tools := tools |}
      end
  end.

End api_server.

(** * Definitions used by the statements *)

Definition recognised_roles : list string :=
  ["system"; "user"; "assistant"; "function"].

Definition has_role (role : string) (m : Message.t) : bool :=
  String.eqb (Message.role m) role.

Definition count_role (role : string) (messages : list Message.t) : nat :=
  length (filter (has_role role) messages).

(** The block of a system, user and assistant slot flushed together. *)
Definition full_block (s u a : string) : string :=
  "<s>[INST] <<SYS>>" ++ LF ++ s ++ LF ++ "<</SYS>>" ++ LF ++ LF
    ++ u ++ " [/INST] " ++ a ++ "</s>".

(** The block of a lone user slot. *)
Definition user_block (u : string) : string := "[INST] " ++ u ++ " [/INST]".

(** A message with a role and a text content and no other key. *)
Definition plain (role content : string) : Message.t :=
  {| Message.role := role; Message.content := Some content;
     Message.name := None; Message.tool_calls := None;
     Message.function_call := None |}.

(** The [ToolDeclaration] of the specification's data model: a name, a
    description, the declared properties with the type of each, in
    declaration order, and the names of the required ones. *)
Module ToolDeclaration.
Record t : Type := {
  name : string;
  description : string;
  properties : list (string * string);
  required : list string
}.
End ToolDeclaration.

(** The tool dict a declaration arrives as:
    [{"type": "function", "function": {"name", "description",
      "parameters": {"type": "object", "properties", "required"}}}]. *)
Definition tool_of (d : ToolDeclaration.t) : Tool.t :=
  {| Tool.type := "function";
     Tool.function :=
       {| Function.name := ToolDeclaration.name d;
          Function.description := Some (ToolDeclaration.description d);
          Function.parameters :=
            [("type", PyStr "object");
             ("properties",
              PyDict (map (fun p => (fst p, PyDict [("type", PyStr (snd p))]))
                          (ToolDeclaration.properties d)));
             ("required", PyList (map PyStr (ToolDeclaration.required d)))] |} |}.

(** The projection of a tool the specification words:
    [{function: name, description, arguments: [{name, type}]}], one
    argument per property in declaration order. *)
Definition spec_projection (d : ToolDeclaration.t) : value :=
  PyDict [("function", PyStr (ToolDeclaration.name d));
          ("description", PyStr (ToolDeclaration.description d));
          ("arguments",
           PyList (map (fun p => PyDict [("name", PyStr (fst p));
                                         ("type", PyStr (snd p))])
                       (ToolDeclaration.properties d)))].

Definition weather : ToolDeclaration.t :=
  {| ToolDeclaration.name := "weather";
     ToolDeclaration.description := "Get the weather";
     ToolDeclaration.properties := [("location", "string")];
     ToolDeclaration.required := ["location"] |}.

(** [s] between double quotes. *)
Definition q (s : string) : string := DQ ++ s ++ DQ.

(** A tool dict that carries the declaration [d]: its name, its
    description and, under the [properties] of its parameters, the declared
    properties in their order, each a dict whose [type] is the declared
    one. The dicts may hold any other key, such as the [title] keys and the
    [required] list of a schema: the names that [d] requires are not
    looked at. *)
Definition declares (tool : Tool.t) (d : ToolDeclaration.t) : Prop :=
  Function.name (Tool.function tool) = ToolDeclaration.name d
  /\ Function.description (Tool.function tool)
     = Some (ToolDeclaration.description d)
  /\ exists properties,
       dict_get "properties" (Function.parameters (Tool.function tool))
       = Some (PyDict properties)
       /\ Forall2 (fun item p =>
                     fst item = fst p
                     /\ exists keys, snd item = PyDict keys
                                     /\ dict_get "type" keys = Some (PyStr (snd p)))
            properties (ToolDeclaration.properties d).

(** The header the specification words, line by line: the array of the
    tools between the two delimiters, one object per tool with its
    [function], [description] and [arguments], one object per argument
    with its [name] and [type], four more spaces at every level, and two
    newlines at the end. A string is written as its JSON literal. *)
Definition spec_argument (p : string * string) : string :=
  "            {" ++ LF
    ++ "                " ++ q "name" ++ ": "
    ++ json.encode_basestring_ascii (fst p) ++ "," ++ LF
    ++ "                " ++ q "type" ++ ": "
    ++ json.encode_basestring_ascii (snd p) ++ LF
    ++ "            }".

Definition spec_arguments (properties : list (string * string)) : string :=
  match properties with
  | [] => "[]"
  | _ => "[" ++ LF ++ join ("," ++ LF) (map spec_argument properties) ++ LF
           ++ "        ]"
  end.

Definition spec_tool (d : ToolDeclaration.t) : string :=
  "    {" ++ LF
    ++ "        " ++ q "function" ++ ": "
    ++ json.encode_basestring_ascii (ToolDeclaration.name d) ++ "," ++ LF
    ++ "        " ++ q "description" ++ ": "
    ++ json.encode_basestring_ascii (ToolDeclaration.description d) ++ "," ++ LF
    ++ "        " ++ q "arguments" ++ ": "
    ++ spec_arguments (ToolDeclaration.properties d) ++ LF
    ++ "    }".

Definition spec_header (tools : list ToolDeclaration.t) : string :=
  "<FUNCTIONS>[" ++ LF ++ join ("," ++ LF) (map spec_tool tools) ++ LF
    ++ "]</FUNCTIONS>" ++ LF ++ LF.

(** Text of printable ASCII characters other than the double quote and the
    backslash: its JSON literal is the text between double quotes. *)
Fixpoint printable (s : string) : bool :=
  match s with
  | EmptyString => true
  | String c s' =>
      ((32 <=? json.byte_of c) && (json.byte_of c <=? 126)
       && negb (json.byte_of c =? 34) && negb (json.byte_of c =? 92))%Z
      && printable s'
  end.

(** The weather tool as a client sends it, with the titles and the required
    names of its schema. *)
Definition weather_tool : Tool.t :=
  {| Tool.type := "function";
     Tool.function :=
       {| Function.name := "weather";
          Function.description := Some "Get the weather";
          Function.parameters :=
            [("type", PyStr "object");
             ("title", PyStr "weather");
             ("required", PyList [PyStr "location"]);
             ("properties",
              PyDict [("location", PyDict [("title", PyStr "Location");
                                           ("type", PyStr "string")])])] |} |}.

(** The completion the collaborator returns for a generated [text]. *)
Definition completion_with (text : string) : Completion.t :=
  {| Completion.id := "cmpl-1";
     Completion.object := "text_completion";
     Completion.created := 1700000000;
     Completion.model := "functionary";
     Completion.choices :=
       [ {| CompletionChoice.text := text; CompletionChoice.index := 0;
            CompletionChoice.logprobs := None;
            CompletionChoice.finish_reason := Some "stop" |} ];
     Completion.usage :=
       {| CompletionUsage.prompt_tokens := 10;
          CompletionUsage.completion_tokens := 5;
          CompletionUsage.total_tokens := 15 |} |}.

(** A collaborator that has received no call yet and answers every call
    with the same generated [text]. *)
Definition stub (text : string) : llama.Llama :=
  {| llama.completion_of := fun _ => ok (completion_with text);
     llama.calls := [] |}.

Definition weather_call : string :=
  "{" ++ q "function" ++ ":" ++ q "weather" ++ ","
      ++ q "arguments" ++ ":{" ++ q "location" ++ ":" ++ q "Tokyo" ++ "}}".

(** ** Definitions used by the further properties *)

(** The block of a user and an assistant slot flushed together. *)
Definition exchange_block (u a : string) : string :=
  "<s>[INST] " ++ u ++ " [/INST] " ++ a ++ "</s>".

(** The turns of a history of exchanges: a user turn and the assistant
    turn that answers it, one pair after the other. *)
Definition exchanges (pairs : list (string * string)) : list Message.t :=
  flat_map (fun p => [plain "user" (fst p); plain "assistant" (snd p)]) pairs.

(** The request with the arguments [functions], [function_call],
    [tool_choice] and [response_format] overwritten. *)
Definition with_legacy (functions : option (list Function.t))
    (function_call tool_choice response_format : option value) (r : Request.t)
  : Request.t :=
  {| Request.messages := Request.messages r; Request.functions := functions;
     Request.function_call := function_call; Request.tools := Request.tools r;
     Request.tool_choice := tool_choice;
     Request.temperature := Request.temperature r;
     Request.top_p := Request.top_p r; Request.top_k := Request.top_k r;
     Request.min_p := Request.min_p r; Request.typical_p := Request.typical_p r;
     Request.stream := Request.stream r; Request.stop := Request.stop r;
     Request.response_format := response_format;
     Request.max_tokens := Request.max_tokens r;
     Request.presence_penalty := Request.presence_penalty r;
     Request.frequency_penalty := Request.frequency_penalty r;
     Request.repeat_penalty := Request.repeat_penalty r;
     Request.tfs_z := Request.tfs_z r;
     Request.mirostat_mode := Request.mirostat_mode r;
     Request.mirostat_tau := Request.mirostat_tau r;
     Request.mirostat_eta := Request.mirostat_eta r;
     Request.model := Request.model r;
     Request.logits_processor := Request.logits_processor r;
     Request.grammar := Request.grammar r |}.

(** A collaborator that has received no call yet and raises [e] on every
    call. *)
Definition failing (e : exn) : llama.Llama :=
  {| llama.completion_of := fun _ => raise e; llama.calls := [] |}.

(** A message with a role and no content. *)
Definition bare (role : string) : Message.t :=
  {| Message.role := role; Message.content := None;
     Message.name := None; Message.tool_calls := None;
     Message.function_call := None |}.

(** An assistant message that carries a legacy function call. *)
Definition calling (name arguments : string) : Message.t :=
  {| Message.role := "assistant"; Message.content := None;
     Message.name := None; Message.tool_calls := None;
     Message.function_call :=
       Some {| FunctionCall.name := name; FunctionCall.arguments := arguments |} |}.

(** The function call a turn prints: that of the first tool call, or else
    the legacy one, for an assistant turn. *)
Definition printed_call (m : Message.t) : option FunctionCall.t :=
  if String.eqb (Message.role m) "assistant" then
    match Message.tool_calls m with
    | Some (tool_call :: _) => Some (ToolCall.function tool_call)
    | Some [] => None
    | None => Message.function_call m
    end
  else None.

(** The text of [n] digits. *)
Fixpoint ones (n : nat) : string :=
  match n with
  | O => ""
  | S n' => String "1" (ones n')
  end.

(** ** Definitions used by the round trips *)

(** A Unicode scalar value: a code point that is not a surrogate. *)
Definition scalar (u : Z) : bool :=
  ((0 <=? u) && (u <? 1114112) && negb ((55296 <=? u) && (u <=? 57343)))%Z.

(** A string that is the UTF-8 encoding of scalar values: decoding it and
    encoding the code points again gives the string back. *)
Definition text_ok (s : string) : bool :=
  String.eqb (String.concat "" (map json.utf8 (json.code_points s))) s
  && forallb scalar (json.code_points s).

(** Keys that are pairwise different. *)
Fixpoint distinct (keys : list string) : bool :=
  match keys with
  | [] => true
  | k :: ks => negb (existsb (String.eqb k) ks) && distinct ks
  end.

(** A value that [json.dumps] prints and [json.loads] reads back as it is:
    no float, every string and every key of scalar values, and no key
    twice in a dict. *)
Fixpoint json_safe (v : value) : bool :=
  match v with
  | PyNone => true
  | PyBool _ => true
  | PyInt _ => true
  | PyFloat _ => false
  | PyStr s => text_ok s
  | PyList l => forallb json_safe l
  | PyDict d =>
      distinct (map fst d)
      && forallb (fun kv => text_ok (fst kv) && json_safe (snd kv)) d
  end.

(** An int whose decimal text the interpreter converts: at most
    [json.int_max_str_digits] digits, the sign not counted. *)
Definition int_within_limit (n : Z) : bool :=
  (String.length (json.repr_int (Z.abs n)) <=? json.int_max_str_digits)%nat.

(** A value whose ints are all within the limit. *)
Fixpoint ints_within_limit (v : value) : bool :=
  match v with
  | PyInt n => int_within_limit n
  | PyList l => forallb ints_within_limit l
  | PyDict d => forallb (fun kv => ints_within_limit (snd kv)) d
  | _ => true
  end.

(** A recursion budget that scanning the printed value does not use up. *)
Fixpoint fuel_of (v : value) : nat :=
  match v with
  | PyList l => S (length l + list_sum (map fuel_of l))
  | PyDict d => S (length d + list_sum (map (fun kv => fuel_of (snd kv)) d))
  | _ => 1
  end.

(** The input after a number does not continue it. *)
Definition ends_number (rest : string) : Prop :=
  match rest with
  | EmptyString => True
  | String c _ =>
      json.is_digit (json.byte_of c) = false /\ json.byte_of c <> 46%Z
      /\ json.byte_of c <> 101%Z /\ json.byte_of c <> 69%Z
  end.

(** The value of a digit string read from the left. *)
Fixpoint uint_value (d : Decimal.uint) (acc : Z) : Z :=
  match d with
  | Decimal.Nil => acc
  | Decimal.D0 d => uint_value d (acc * 10 + 0)
  | Decimal.D1 d => uint_value d (acc * 10 + 1)
  | Decimal.D2 d => uint_value d (acc * 10 + 2)
  | Decimal.D3 d => uint_value d (acc * 10 + 3)
  | Decimal.D4 d => uint_value d (acc * 10 + 4)
  | Decimal.D5 d => uint_value d (acc * 10 + 5)
  | Decimal.D6 d => uint_value d (acc * 10 + 6)
  | Decimal.D7 d => uint_value d (acc * 10 + 7)
  | Decimal.D8 d => uint_value d (acc * 10 + 8)
  | Decimal.D9 d => uint_value d (acc * 10 + 9)
  end%Z.

(** A string of whitespace. *)
Fixpoint blank (w : string) : bool :=
  match w with
  | EmptyString => true
  | String c w' => json.is_ws (json.byte_of c) && blank w'
  end.

(** The first character of [s] is not whitespace and its byte
    satisfies [P]. *)
Definition starts (s : string) (P : Z -> Prop) : Prop :=
  exists c t, s = String c t /\ json.is_ws (json.byte_of c) = false
              /\ P (json.byte_of c).

(** Scanning the printed value with enough budget gives the value and
    leaves what follows it. *)
Definition scans_back (v : value) : Prop :=
  forall indent level rest n,
    ends_number rest -> (fuel_of v <= n)%nat ->
    json.scan_once n (json.iterencode indent level v ++ rest)
    = json.Scanned v rest.

(** The dict of a function call: [{"function": name, "arguments": args}]. *)
Definition call_dict (name : string) (args : value) : value :=
  PyDict [("function", PyStr name); ("arguments", args)].

(** The tool call the parser returns for a function call. *)
Definition tool_call_of (name : string) (args : value) : ResponseToolCall.t :=
  {| ResponseToolCall.id := PyStr name;
     ResponseToolCall.type := "function";
     ResponseToolCall.function :=
       {| ResponseFunction.name := PyStr name;
          ResponseFunction.arguments := json.dumps args (Some 2%nat) |} |}.

(** ** Definitions used by the properties of the API server *)

(** What the endpoint hands over for a request message: a dict [d] in
    which [role] and [content] can be read, [content] being [None] when
    the request gave none, and which holds [name] and [function_call] when
    the request gave them and no other key. *)
Definition handed_over (m : api_server.ChatCompletionsRequestMessage.t)
    (d : value) : Prop :=
  exists items,
    d = PyDict items
    /\ getitem d "role" = ok (PyStr (api_server.ChatCompletionsRequestMessage.role m))
    /\ getitem d "content"
       = ok match api_server.ChatCompletionsRequestMessage.content m with
            | Some text => PyStr text
            | None => PyNone
            end
    /\ dict_get "name" items
       = option_map PyStr (api_server.ChatCompletionsRequestMessage.name m)
    /\ dict_get "function_call" items
       = option_map api_server.ChatCompletionsRequestMessageFunctionCall.model_dump
           (api_server.ChatCompletionsRequestMessage.function_call m)
    /\ forall k, dict_get k items <> None ->
                 In k ["content"; "role"; "name"; "function_call"].

(** The [tools] argument of the call for the tools of a request. *)
Definition tools_handed_over
    (tools : option (list api_server.ChatCompletionsRequestTool.t)) : value :=
  match tools with
  | Some tools => PyList (map api_server.ChatCompletionsRequestTool.model_dump tools)
  | None => PyNone
  end.

(** The [ChatCompletionTool] the handler receives for a request tool: the
    record of the dict the endpoint hands over, without a description
    when the request gave none. *)
Definition received_tool (tool : api_server.ChatCompletionsRequestTool.t) : Tool.t :=
  let function := api_server.ChatCompletionsRequestTool.function tool in
  let parameters := api_server.ChatCompletionsRequestToolFunction.parameters function in
  {| Tool.type := api_server.ChatCompletionsRequestTool.type tool;
     Tool.function :=
       {| Function.name := api_server.ChatCompletionsRequestToolFunction.name function;
          Function.description :=
            api_server.ChatCompletionsRequestToolFunction.description function;
          Function.parameters :=
            [("type",
              PyStr (api_server.ChatCompletionsRequestToolFunctionParameters.type
                       parameters));
             ("title",
              PyStr (api_server.ChatCompletionsRequestToolFunctionParameters.title
                       parameters));
             ("required",
              PyList (map PyStr
                        (api_server.ChatCompletionsRequestToolFunctionParameters.required
                           parameters)));
             ("properties",
              PyDict
                (map (fun item =>
                        (fst item,
                         api_server.ChatCompletionsRequestToolFunctionParametersProperty.model_dump
                           (snd item)))
                     (api_server.ChatCompletionsRequestToolFunctionParameters.properties
                        parameters)))] |} |}.

(** The dict a [ChatCompletionTool] record stands for. *)
Definition tool_dict (tool : Tool.t) : value :=
  PyDict [("type", PyStr (Tool.type tool));
          ("function",
           PyDict ([("name", PyStr (Function.name (Tool.function tool)))]
                     ++ api_server.field "description"
                          (option_map PyStr (Function.description (Tool.function tool)))
                     ++ [("parameters",
                          PyDict (Function.parameters (Tool.function tool)))])%list)].

(** Whether a request tool carries a description. *)
Definition described (tool : api_server.ChatCompletionsRequestTool.t) : bool :=
  negb (is_None (api_server.ChatCompletionsRequestToolFunction.description
                   (api_server.ChatCompletionsRequestTool.function tool))).

(** The entry of the header for a request tool that carries a
    description: its name, its description and the name and type of each
    declared property, in declaration order. *)
Definition request_projection (tool : api_server.ChatCompletionsRequestTool.t)
  : value :=
  let function := api_server.ChatCompletionsRequestTool.function tool in
  PyDict [("function",
           PyStr (api_server.ChatCompletionsRequestToolFunction.name function));
          ("description",
           PyStr match api_server.ChatCompletionsRequestToolFunction.description
                         function with
                 | Some description => description
                 | None => ""
                 end);
          ("arguments",
           PyList
             (map (fun item =>
                     PyDict [("name", PyStr (fst item));
                             ("type",
                              PyStr (api_server.ChatCompletionsRequestToolFunctionParametersProperty.type
                                       (snd item)))])
                  (api_server.ChatCompletionsRequestToolFunctionParameters.properties
                     (api_server.ChatCompletionsRequestToolFunction.parameters
                        function))))].

(** A request tool for the function [name] with one string property. *)
Definition request_tool (name : string) (description : option string)
  : api_server.ChatCompletionsRequestTool.t :=
  {| api_server.ChatCompletionsRequestTool.type := "function";
     api_server.ChatCompletionsRequestTool.function :=
       {| api_server.ChatCompletionsRequestToolFunction.name := name;
          api_server.ChatCompletionsRequestToolFunction.description := description;
          api_server.ChatCompletionsRequestToolFunction.parameters :=
            {| api_server.ChatCompletionsRequestToolFunctionParameters.type := "object";
               api_server.ChatCompletionsRequestToolFunctionParameters.title := name;
               api_server.ChatCompletionsRequestToolFunctionParameters.required :=
                 ["location"];
               api_server.ChatCompletionsRequestToolFunctionParameters.properties :=
                 [("location",
                   {| api_server.ChatCompletionsRequestToolFunctionParametersProperty.title :=
                        "Location";
                      api_server.ChatCompletionsRequestToolFunctionParametersProperty.type :=
                        "string" |})] |} |} |}.

(** The header for the tools of a request. *)
Definition request_header (tools : list api_server.ChatCompletionsRequestTool.t)
  : string :=
  "<FUNCTIONS>" ++ json.dumps (PyList (map request_projection tools)) (Some 4%nat)
    ++ "</FUNCTIONS>" ++ LF ++ LF.

(** A turn that stores no text: it has no content, its role is [user],
    [system] or [assistant], and an assistant turn carries no function
    call to print. *)
Definition contentless (m : Message.t) : bool :=
  is_None (Message.content m)
  && (String.eqb (Message.role m) "user"
      || String.eqb (Message.role m) "system"
      || (String.eqb (Message.role m) "assistant"
          && is_None (Message.tool_calls m)
          && is_None (Message.function_call m))).

(** * Properties *)

(** ** Strings and results *)

Lemma append_assoc (a b c : string) : (a ++ b) ++ c = a ++ (b ++ c).
Proof.
  induction a as [|x a IH]; simpl.
  - reflexivity.
  - now rewrite IH.
Qed.

Lemma append_nil_r (a : string) : a ++ "" = a.
Proof.
  induction a as [|x a IH]; simpl; [reflexivity | now rewrite IH].
Qed.

Lemma rbind_ok {A B : Type} (a : A) (k : A -> result B) : rbind (ok a) k = k a.
Proof. reflexivity. Qed.

Lemma rbind_raise {A B : Type} (e : exn) (k : A -> result B) :
  rbind (raise e) k = raise e.
Proof. reflexivity. Qed.

(** ** The decoder never runs out of budget *)

Module json_facts.
Import json.

Lemma skip_ws_length (s : string) : String.length (skip_ws s) <= String.length s.
Proof.
  induction s as [| c s IH]; simpl; [lia |].
  destruct (is_ws (byte_of c)); simpl; lia.
Qed.

Lemma skip_ws_cons (s : string) (c : ascii) (r : string) :
  skip_ws s = String c r -> String.length r < String.length s.
Proof.
  intros H. pose proof (skip_ws_length s) as L. rewrite H in L. simpl in L. lia.
Qed.

Lemma emit_length (chunk : string) (o : option (string * string))
    (content rest : string) (n : nat) :
  emit chunk o = Some (content, rest) ->
  (forall c r, o = Some (c, r) -> String.length r < n) ->
  String.length rest < n.
Proof.
  destruct o as [[c r] |]; simpl; [| discriminate].
  intros [= _ <-] H. now apply (H c).
Qed.

(** A scanned string consumes at least its closing quote. *)
Lemma scanstring_length (s content rest : string) :
  scanstring s = Some (content, rest) -> String.length rest < String.length s.
Proof.
  remember (String.length s) as n eqn:Hn.
  assert (Hle : String.length s <= n) by lia. clear Hn.
  revert s content rest Hle.
  induction n as [| n IH]; intros s content rest Hle.
  - destruct s; simpl in *; [discriminate | lia].
  - destruct s as [| c s1]; [discriminate |].
    simpl in Hle. simpl scanstring.
    destruct (byte_of c =? 34)%Z; [intros [= _ <-]; simpl; lia |].
    destruct (byte_of c <? 32)%Z; [discriminate |].
    assert (Step : forall t chunk,
               String.length t <= n ->
               emit chunk (scanstring t) = Some (content, rest) ->
               String.length rest < S n).
    { intros t chunk Ht He.
      apply (emit_length _ _ _ _ _ He). intros c' r' Hs.
      apply IH in Hs; lia. }
    destruct (negb (byte_of c =? 92)%Z); [apply Step; lia |].
    destruct s1 as [| e s2]; [discriminate |].
    simpl in Hle.
    destruct (negb (byte_of e =? 117)%Z).
    { destruct (backslash (byte_of e)); [apply Step; lia | discriminate]. }
    destruct s2 as [| h1 [| h2 [| h3 [| h4 s6]]]]; try discriminate.
    simpl in Hle.
    destruct (decode_uXXXX h1 h2 h3 h4) as [uni |]; [| discriminate].
    destruct s6 as [| b1 [| b2 s8]]; try (apply Step; simpl; lia).
    simpl in Hle.
    destruct (is_high_surrogate uni && (byte_of b1 =? 92)%Z
              && (byte_of b2 =? 117)%Z); [| apply Step; simpl; lia].
    destruct s8 as [| l1 [| l2 [| l3 [| l4 s12]]]]; try discriminate.
    simpl in Hle.
    destruct (decode_uXXXX l1 l2 l3 l4) as [uni2 |]; [| discriminate].
    destruct (is_low_surrogate uni2); apply Step; simpl; lia.
Qed.

Lemma digits_length (s d r : string) :
  digits s = (d, r) -> String.length r <= String.length s.
Proof.
  revert d r; induction s as [| c s IH]; intros d r; simpl.
  - intros [= _ <-]; simpl; lia.
  - destruct (is_digit (byte_of c)).
    + destruct (digits s) as [d' r'] eqn:E. intros [= _ <-].
      specialize (IH d' r' eq_refl). lia.
    + intros [= _ <-]; simpl; lia.
Qed.

Lemma sign_of_length (plus : bool) (s sign r : string) :
  sign_of plus s = (sign, r) -> String.length r <= String.length s.
Proof.
  unfold sign_of. destruct s as [| c s]; [intros [= _ <-]; lia |].
  destruct (_ || _); intros [= _ <-]; simpl; lia.
Qed.

Lemma match_integer_length (s i r : string) :
  match_integer s = Some (i, r) -> String.length r < String.length s.
Proof.
  unfold match_integer. destruct (sign_of false s) as [sign s1] eqn:Es.
  apply sign_of_length in Es.
  destruct s1 as [| c s2]; [discriminate |]. simpl in Es.
  destruct (byte_of c =? 48)%Z; [intros [= _ <-]; lia |].
  destruct (is_digit (byte_of c)); [| discriminate].
  destruct (digits s2) as [d r'] eqn:Ed. apply digits_length in Ed.
  intros [= _ <-]; lia.
Qed.

Lemma match_frac_length (s f r : string) :
  match_frac s = Some (f, r) -> String.length r <= String.length s.
Proof.
  unfold match_frac. destruct s as [| c s1]; [discriminate |].
  destruct (byte_of c =? 46)%Z; [| discriminate].
  destruct (digits s1) as [d r'] eqn:Ed. apply digits_length in Ed.
  destruct d; [discriminate | intros [= _ <-]; simpl; lia].
Qed.

Lemma match_exp_length (s e r : string) :
  match_exp s = Some (e, r) -> String.length r <= String.length s.
Proof.
  unfold match_exp. destruct s as [| c s1]; [discriminate |].
  destruct (_ || _); [| discriminate].
  destruct (sign_of true s1) as [sign s2] eqn:Es. apply sign_of_length in Es.
  destruct (digits s2) as [d r'] eqn:Ed. apply digits_length in Ed.
  destruct d; [discriminate | intros [= _ <-]; simpl; lia].
Qed.

Lemma optional_length (m : string -> option (string * string)) (s g r : string) :
  (forall g' r', m s = Some (g', r') -> String.length r' <= String.length s) ->
  optional m s = (g, r) -> String.length r <= String.length s.
Proof.
  intros H. unfold optional. destruct (m s) as [[g' r'] |] eqn:E.
  - intros [= _ <-]. now apply (H g').
  - intros [= _ <-]. lia.
Qed.

Lemma match_number_length (s : string) (v : result value) (r : string) :
  match_number s = Some (v, r) -> String.length r < String.length s.
Proof.
  unfold match_number.
  destruct (match_integer s) as [[i r1] |] eqn:Ei; [| discriminate].
  apply match_integer_length in Ei.
  destruct (optional match_frac r1) as [frac r2] eqn:Ef.
  apply optional_length in Ef; [| intros ? ?; apply match_frac_length].
  destruct (optional match_exp r2) as [exp r3] eqn:Ee.
  apply optional_length in Ee; [| intros ? ?; apply match_exp_length].
  destruct frac, exp; intros [= _ <-]; lia.
Qed.

Lemma strip_prefix_length (p s r : string) :
  strip_prefix p s = Some r ->
  (String.length r + String.length p = String.length s)%nat.
Proof.
  revert s; induction p as [| a p IH]; intros s; simpl.
  - intros [= <-]; lia.
  - destruct s as [| c s]; [discriminate |].
    destruct (Ascii.eqb a c); [| discriminate].
    intros H; apply IH in H; simpl; lia.
Qed.

Lemma scan_literal_length (s : string) (v : value) (r : string) :
  scan_literal s = Scanned v r -> String.length r < String.length s.
Proof.
  unfold scan_literal.
  repeat match goal with
         | |- context [strip_prefix ?p s] =>
             let E := fresh "E" in
             destruct (strip_prefix p s) eqn:E;
             [apply strip_prefix_length in E; simpl in E; intros [= _ <-]; lia |]
         | |- context [match_number s] =>
             let E := fresh "E" in
             destruct (match_number s) as [[[? | ?] ?] |] eqn:E;
             [discriminate
             | apply match_number_length in E; intros [= _ <-]; lia |]
         end.
  discriminate.
Qed.

Lemma scan_literal_budget (s : string) : scan_literal s <> Exhausted.
Proof.
  unfold scan_literal.
  repeat match goal with
         | |- context [strip_prefix ?p s] => destruct (strip_prefix p s); [discriminate |]
         | |- context [match_number s] =>
             destruct (match_number s) as [[[? | ?] ?] |];
             [discriminate | discriminate |]
         end.
  discriminate.
Qed.

(** Whatever is scanned consumes at least one character. *)
Lemma scan_consumes (n : nat) :
  (forall s v r, scan_once n s = Scanned v r -> String.length r < String.length s)
  /\ (forall s vs r, array_items n s = Scanned vs r ->
                     String.length r < String.length s)
  /\ (forall s ps r, object_items n s = Scanned ps r ->
                     String.length r < String.length s).
Proof.
  induction n as [| n (IHv & IHa & IHo)].
  { repeat split; intros; discriminate. }
  split; [| split].
  - intros s v r. destruct s as [| c s1]; [discriminate |]. simpl.
    destruct (byte_of c =? 34)%Z.
    { destruct (scanstring s1) as [[str r'] |] eqn:E; [| discriminate].
      apply scanstring_length in E. intros [= _ <-]. lia. }
    destruct (byte_of c =? 123)%Z.
    { destruct (skip_ws s1) as [| c1 r1] eqn:E; [discriminate |].
      apply skip_ws_cons in E.
      destruct (byte_of c1 =? 125)%Z; [intros [= _ <-]; lia |].
      destruct (byte_of c1 =? 34)%Z; [| discriminate].
      destruct (object_items n r1) as [ps r' | | |] eqn:Eo; try discriminate.
      apply IHo in Eo. intros [= _ <-]. lia. }
    destruct (byte_of c =? 91)%Z.
    { destruct (skip_ws s1) as [| c1 r1] eqn:E; [discriminate |].
      pose proof (skip_ws_length s1) as L. rewrite E in L.
      destruct (byte_of c1 =? 93)%Z; [intros [= _ <-]; simpl in L; lia |].
      destruct (array_items n (String c1 r1)) as [vs r' | | |] eqn:Ea;
        try discriminate.
      apply IHa in Ea. intros [= _ <-]. lia. }
    intros H. apply scan_literal_length in H. exact H.
  - intros s vs r. simpl.
    destruct (scan_once n s) as [v r0 | | |] eqn:Ev; try discriminate.
    apply IHv in Ev.
    destruct (skip_ws r0) as [| c r1] eqn:E; [discriminate |].
    apply skip_ws_cons in E.
    destruct (byte_of c =? 93)%Z; [intros [= _ <-]; lia |].
    destruct (byte_of c =? 44)%Z; [| discriminate].
    destruct (array_items n (skip_ws r1)) as [vs' r2 | | |] eqn:Ea;
      try discriminate.
    apply IHa in Ea. pose proof (skip_ws_length r1). intros [= _ <-]. lia.
  - intros s ps r. simpl.
    destruct (scanstring s) as [[key r0] |] eqn:Ek; [| discriminate].
    apply scanstring_length in Ek.
    destruct (skip_ws r0) as [| c r1] eqn:E; [discriminate |].
    apply skip_ws_cons in E.
    destruct (negb (byte_of c =? 58)%Z); [discriminate |].
    destruct (scan_once n (skip_ws r1)) as [v r2 | | |] eqn:Ev; try discriminate.
    apply IHv in Ev. pose proof (skip_ws_length r1).
    destruct (skip_ws r2) as [| c2 r3] eqn:E2; [discriminate |].
    apply skip_ws_cons in E2.
    destruct (byte_of c2 =? 125)%Z; [intros [= _ <-]; lia |].
    destruct (byte_of c2 =? 44)%Z; [| discriminate].
    destruct (skip_ws r3) as [| c3 r4] eqn:E3; [discriminate |].
    apply skip_ws_cons in E3.
    destruct (byte_of c3 =? 34)%Z; [| discriminate].
    destruct (object_items n r4) as [ps' r5 | | |] eqn:Eo; try discriminate.
    apply IHo in Eo. intros [= _ <-]. lia.
Qed.

(** The only exception a conversion raises is the [ValueError] of [int] on
    more digits than the limit. *)
Lemma match_number_raised (s : string) (e : exn) (r : string) :
  match_number s = Some (inl e, r) ->
  exists k, (int_max_str_digits < k)%nat /\ e = int_too_long k.
Proof.
  unfold match_number.
  destruct (match_integer s) as [[i r1] |]; [| discriminate].
  destruct (optional match_frac r1) as [frac r2].
  destruct (optional match_exp r2) as [exp r3].
  destruct frac, exp; try discriminate.
  unfold parse_int.
  destruct (Nat.ltb_spec int_max_str_digits (String.length (digits_of i)))
    as [L | L]; [| discriminate].
  intros [= <- _]. eexists. split; [exact L | reflexivity].
Qed.

Lemma scan_literal_raised (s : string) (e : exn) :
  scan_literal s = Raised e ->
  exists k, (int_max_str_digits < k)%nat /\ e = int_too_long k.
Proof.
  unfold scan_literal.
  repeat match goal with
         | |- context [strip_prefix ?p s] => destruct (strip_prefix p s); [discriminate |]
         | |- context [match_number s] =>
             let E := fresh "E" in
             destruct (match_number s) as [[[? | ?] ?] |] eqn:E;
             [intros [= <-]; now apply match_number_raised in E
             | discriminate |]
         end.
  discriminate.
Qed.

Lemma scan_raised (n : nat) :
  (forall s e, scan_once n s = Raised e ->
               exists k, (int_max_str_digits < k)%nat /\ e = int_too_long k)
  /\ (forall s e, array_items n s = Raised e ->
                  exists k, (int_max_str_digits < k)%nat /\ e = int_too_long k)
  /\ (forall s e, object_items n s = Raised e ->
                  exists k, (int_max_str_digits < k)%nat /\ e = int_too_long k).
Proof.
  induction n as [| n (IHv & IHa & IHo)].
  { repeat split; intros; discriminate. }
  split; [| split].
  - intros s e. destruct s as [| c s1]; [discriminate |]. simpl.
    destruct (byte_of c =? 34)%Z.
    { destruct (scanstring s1) as [[str r'] |]; discriminate. }
    destruct (byte_of c =? 123)%Z.
    { destruct (skip_ws s1) as [| c1 r1]; [discriminate |].
      destruct (byte_of c1 =? 125)%Z; [discriminate |].
      destruct (byte_of c1 =? 34)%Z; [| discriminate].
      destruct (object_items n r1) as [ps r' | | e' |] eqn:Eo; try discriminate.
      intros [= <-]. now apply IHo in Eo. }
    destruct (byte_of c =? 91)%Z.
    { destruct (skip_ws s1) as [| c1 r1]; [discriminate |].
      destruct (byte_of c1 =? 93)%Z; [discriminate |].
      destruct (array_items n (String c1 r1)) as [vs r' | | e' |] eqn:Ea;
        try discriminate.
      intros [= <-]. now apply IHa in Ea. }
    apply scan_literal_raised.
  - intros s e. simpl.
    destruct (scan_once n s) as [v r0 | | e' |] eqn:Ev; try discriminate.
    + destruct (skip_ws r0) as [| c r1]; [discriminate |].
      destruct (byte_of c =? 93)%Z; [discriminate |].
      destruct (byte_of c =? 44)%Z; [| discriminate].
      destruct (array_items n (skip_ws r1)) as [vs' r2 | | e' |] eqn:Ea;
        try discriminate.
      intros [= <-]. now apply IHa in Ea.
    + intros [= <-]. now apply IHv in Ev.
  - intros s e. simpl.
    destruct (scanstring s) as [[key r0] |]; [| discriminate].
    destruct (skip_ws r0) as [| c r1]; [discriminate |].
    destruct (negb (byte_of c =? 58)%Z); [discriminate |].
    destruct (scan_once n (skip_ws r1)) as [v r2 | | e' |] eqn:Ev;
      try discriminate.
    + destruct (skip_ws r2) as [| c2 r3]; [discriminate |].
      destruct (byte_of c2 =? 125)%Z; [discriminate |].
      destruct (byte_of c2 =? 44)%Z; [| discriminate].
      destruct (skip_ws r3) as [| c3 r4]; [discriminate |].
      destruct (byte_of c3 =? 34)%Z; [| discriminate].
      destruct (object_items n r4) as [ps' r5 | | e' |] eqn:Eo; try discriminate.
      intros [= <-]. now apply IHo in Eo.
    + intros [= <-]. now apply IHv in Ev.
Qed.

(** A budget above twice the length of the input is never used up. *)
Lemma scan_budget (n : nat) :
  (forall s, 2 * String.length s + 1 <= n -> scan_once n s <> Exhausted)
  /\ (forall s, 2 * String.length s + 2 <= n -> array_items n s <> Exhausted)
  /\ (forall s, 2 * String.length s + 2 <= n -> object_items n s <> Exhausted).
Proof.
  induction n as [| n (IHv & IHa & IHo)].
  { repeat split; intros; lia. }
  destruct (scan_consumes n) as (Cv & Ca & Co).
  split; [| split].
  - intros s Hn. destruct s as [| c s1]; [discriminate |]. simpl in Hn |- *.
    destruct (byte_of c =? 34)%Z.
    { destruct (scanstring s1) as [[str r'] |]; discriminate. }
    destruct (byte_of c =? 123)%Z.
    { destruct (skip_ws s1) as [| c1 r1] eqn:E; [discriminate |].
      apply skip_ws_cons in E.
      destruct (byte_of c1 =? 125)%Z; [discriminate |].
      destruct (byte_of c1 =? 34)%Z; [| discriminate].
      destruct (object_items n r1) as [ps r' | | |] eqn:Eo; try discriminate.
      exfalso. revert Eo. apply IHo. lia. }
    destruct (byte_of c =? 91)%Z.
    { destruct (skip_ws s1) as [| c1 r1] eqn:E; [discriminate |].
      pose proof (skip_ws_length s1) as L. rewrite E in L.
      destruct (byte_of c1 =? 93)%Z; [discriminate |].
      destruct (array_items n (String c1 r1)) as [vs r' | | |] eqn:Ea;
        try discriminate.
      exfalso. revert Ea. apply IHa. lia. }
    apply scan_literal_budget.
  - intros s Hn. simpl.
    destruct (scan_once n s) as [v r0 | | |] eqn:Ev; try discriminate.
    + apply Cv in Ev.
      destruct (skip_ws r0) as [| c r1] eqn:E; [discriminate |].
      apply skip_ws_cons in E.
      destruct (byte_of c =? 93)%Z; [discriminate |].
      destruct (byte_of c =? 44)%Z; [| discriminate].
      destruct (array_items n (skip_ws r1)) as [vs' r2 | | |] eqn:Ea;
        try discriminate.
      exfalso. revert Ea. apply IHa. pose proof (skip_ws_length r1). lia.
    + exfalso. revert Ev. apply IHv. lia.
  - intros s Hn. simpl.
    destruct (scanstring s) as [[key r0] |] eqn:Ek; [| discriminate].
    apply scanstring_length in Ek.
    destruct (skip_ws r0) as [| c r1] eqn:E; [discriminate |].
    apply skip_ws_cons in E.
    destruct (negb (byte_of c =? 58)%Z); [discriminate |].
    pose proof (skip_ws_length r1).
    destruct (scan_once n (skip_ws r1)) as [v r2 | | |] eqn:Ev; try discriminate.
    + apply Cv in Ev.
      destruct (skip_ws r2) as [| c2 r3] eqn:E2; [discriminate |].
      apply skip_ws_cons in E2.
      destruct (byte_of c2 =? 125)%Z; [discriminate |].
      destruct (byte_of c2 =? 44)%Z; [| discriminate].
      destruct (skip_ws r3) as [| c3 r4] eqn:E3; [discriminate |].
      apply skip_ws_cons in E3.
      destruct (byte_of c3 =? 34)%Z; [| discriminate].
      destruct (object_items n r4) as [ps' r5 | | |] eqn:Eo; try discriminate.
      exfalso. revert Eo. apply IHo. lia.
    + exfalso. revert Ev. apply IHv. lia.
Qed.

(** [loads] never meets [Exhausted]: each [JSONDecodeError] it raises
    reports text that is not one JSON value. *)
Lemma loads_budget (s : string) :
  scan_once (budget s) (skip_ws s) <> Exhausted.
Proof.
  apply (proj1 (scan_budget (budget s))).
  unfold budget. pose proof (skip_ws_length s). lia.
Qed.

(** [loads] raises a [JSONDecodeError] or the [ValueError] of [int]. *)
Lemma loads_exception (s : string) (e : exn) :
  loads s = raise e ->
  e = JSONDecodeError
  \/ exists k, (int_max_str_digits < k)%nat /\ e = int_too_long k.
Proof.
  unfold loads.
  destruct (scan_once (budget s) (skip_ws s)) as [obj rest | | e' |] eqn:E.
  - destruct (skip_ws rest); [discriminate | intros [= <-]; now left].
  - intros [= <-]; now left.
  - intros [= <-]. right. now apply (proj1 (scan_raised _)) in E.
  - intros [= <-]; now left.
Qed.

End json_facts.

(** ** The encoder and the decoder on sample texts *)

Example dumps_compact :
  json.dumps (PyDict [("function", PyStr "weather");
                      ("arguments", PyDict [("location", PyStr "Tokyo");
                                            ("days", PyList [PyInt 1; PyInt (-2)])])])
             None
  = "{" ++ q "function" ++ ": " ++ q "weather" ++ ", " ++ q "arguments" ++ ": {"
      ++ q "location" ++ ": " ++ q "Tokyo" ++ ", " ++ q "days" ++ ": [1, -2]}}".
Proof. vm_compute. reflexivity. Qed.

Example dumps_indent :
  json.dumps (PyDict [("location", PyStr "Tokyo"); ("n", PyList [])]) (Some 2%nat)
  = "{" ++ LF ++ "  " ++ q "location" ++ ": " ++ q "Tokyo" ++ "," ++ LF
      ++ "  " ++ q "n" ++ ": []" ++ LF ++ "}".
Proof. vm_compute. reflexivity. Qed.

(** A character outside ASCII is escaped, by a surrogate pair above the
    basic plane; a line feed by its short escape. *)
Example dumps_escapes :
  json.dumps (PyStr (json.utf8 233 ++ json.utf8 128512 ++ LF)) None
  = q (json.str1 92 ++ "u00e9" ++ json.str1 92 ++ "ud83d" ++ json.str1 92
         ++ "ude00" ++ json.str1 92 ++ "n").
Proof. vm_compute. reflexivity. Qed.

Example loads_function_call :
  json.loads weather_call
  = ok (PyDict [("function", PyStr "weather");
                ("arguments", PyDict [("location", PyStr "Tokyo")])]).
Proof. vm_compute. reflexivity. Qed.

Example loads_plain_text : json.loads "The weather is nice." = raise JSONDecodeError.
Proof. vm_compute. reflexivity. Qed.

Example loads_number : json.loads " -42 " = ok (PyInt (-42)).
Proof. vm_compute. reflexivity. Qed.

(** A repeated key keeps its first position and its last value. *)
Example loads_nested :
  json.loads ("[1, [true, null], {" ++ q "a" ++ ": 1.5e3, " ++ q "b" ++ ": 0, "
              ++ q "a" ++ ": [] }, " ++ q "x" ++ "]")
  = ok (PyList [PyInt 1; PyList [PyBool true; PyNone];
                PyDict [("a", PyList []); ("b", PyInt 0)]; PyStr "x"]).
Proof. vm_compute. reflexivity. Qed.

Example loads_escapes :
  json.loads (q (json.str1 92 ++ "u00e9" ++ json.str1 92 ++ "ud83d"
                   ++ json.str1 92 ++ "ude00" ++ json.str1 92 ++ "/"))
  = ok (PyStr (json.utf8 233 ++ json.utf8 128512 ++ "/")).
Proof. vm_compute. reflexivity. Qed.

Example loads_trailing_comma : json.loads "[1,]" = raise JSONDecodeError.
Proof. vm_compute. reflexivity. Qed.

Example loads_extra_data : json.loads "01" = raise JSONDecodeError.
Proof. vm_compute. reflexivity. Qed.

Example loads_control_character :
  json.loads (q ("a" ++ LF ++ "b")) = raise JSONDecodeError.
Proof. vm_compute. reflexivity. Qed.

(** ** The recognised roles *)

Lemma slot_of_role_recognised (role : string) :
  In role recognised_roles <-> slot_of_role role <> None.
Proof.
  unfold slot_of_role, recognised_roles; simpl.
  destruct (String.eqb_spec role "user") as [-> | Hu]; simpl.
  { split; [discriminate | auto]. }
  destruct (String.eqb_spec role "function") as [-> | Hf]; simpl.
  { split; [discriminate | auto 6]. }
  destruct (String.eqb_spec role "system") as [-> | Hs].
  { split; [discriminate | auto]. }
  destruct (String.eqb_spec role "assistant") as [-> | Ha].
  { split; [discriminate | auto 6]. }
  split.
  - intros [H | [H | [H | [H | []]]]]; congruence.
  - intros H; now elim H.
Qed.

Lemma slot_of_role_unknown (role : string) :
  ~ In role recognised_roles <-> slot_of_role role = None.
Proof.
  rewrite slot_of_role_recognised.
  destruct (slot_of_role role); split; intros H; try congruence.
  elim H; discriminate.
Qed.

(** ** Flushing *)

Lemma push_free (r : slot) (lines : list string) (st : state) :
  state_get st r = None -> _push_state (Some r) (lines, st) = (lines, st).
Proof. intros H; unfold _push_state; now rewrite H. Qed.

Lemma push_taken (r : slot) (lines : list string) (st : state) (text : string) :
  state_get st r = Some text ->
  _push_state (Some r) (lines, st) = ((lines ++ [render st])%list, _reset_state).
Proof.
  intros H; unfold _push_state; rewrite H; simpl.
  assert (all_None st = false) as ->; [|reflexivity].
  unfold all_None; destruct r; simpl in H; rewrite H; simpl;
    try reflexivity; now rewrite ?andb_false_r.
Qed.

Lemma push_final (lines : list string) (st : state) :
  _push_state None (lines, st)
  = if all_None st then (lines, st)
    else ((lines ++ [render st])%list, _reset_state).
Proof. reflexivity. Qed.

(** A turn of a recognised role whose content formats to [text]. *)
Lemma turn_ok (m : Message.t) (r : slot) (text : option string)
    (acc : list string * state) :
  slot_of_role (Message.role m) = Some r ->
  _format_message_content m = ok text ->
  turn m acc = ok (fst (_push_state (Some r) acc),
                   state_set (snd (_push_state (Some r) acc)) r text).
Proof.
  intros Hr Hc; unfold turn; rewrite Hr.
  destruct (_push_state (Some r) acc) as [lines st]; now rewrite Hc.
Qed.

(** ** Compiling turns *)

Lemma render_full (s u a : string) :
  render {| st_user := Some u; st_system := Some s; st_assistant := Some a |}
  = full_block s u a.
Proof.
  unfold render, full_block; simpl.
  repeat (rewrite ?append_assoc; simpl). reflexivity.
Qed.

Lemma render_user (u : string) :
  render {| st_user := Some u; st_system := None; st_assistant := None |}
  = user_block u.
Proof. reflexivity. Qed.

(** C2. For a system, a user, an assistant and a second user turn whose
    contents format to [s], [u], [a] and [u2]: the first three turns fill the
    three slots without a flush; the push of the second user turn flushes
    them as one block and resets all three slots; the final push flushes the
    lone user slot; the result is the two blocks joined by one newline,
    whatever the request, when there is no tool header. *)
Theorem C2_two_blocks (m1 m2 m3 m4 : Message.t) (s u a u2 : string) :
  Message.role m1 = "system" -> Message.role m2 = "user" ->
  Message.role m3 = "assistant" -> Message.role m4 = "user" ->
  _format_message_content m1 = ok (Some s) ->
  _format_message_content m2 = ok (Some u) ->
  _format_message_content m3 = ok (Some a) ->
  _format_message_content m4 = ok (Some u2) ->
  let filled := {| st_user := Some u; st_system := Some s; st_assistant := Some a |} in
  let last := {| st_user := Some u2; st_system := None; st_assistant := None |} in
  turns [m1; m2; m3] ([], _reset_state) = ok ([], filled)
  /\ _push_state (Some user) ([], filled) = ([full_block s u a], _reset_state)
  /\ turns [m1; m2; m3; m4] ([], _reset_state) = ok ([full_block s u a], last)
  /\ _push_state None ([full_block s u a], last)
     = ([full_block s u a; user_block u2], _reset_state)
  /\ _format_messages [m1; m2; m3; m4]
     = ok (full_block s u a ++ LF ++ user_block u2)
  /\ (forall r : Request.t,
        Request.messages r = [m1; m2; m3; m4] ->
        Request.tools r = None \/ Request.tools r = Some [] ->
        compile r = ok (full_block s u a ++ LF ++ user_block u2)).
Proof.
  intros R1 R2 R3 R4 C1 C2 C3 C4 filled last.
  assert (T3 : turns [m1; m2; m3] ([], _reset_state) = ok ([], filled)).
  { simpl.
    rewrite (turn_ok m1 system (Some s)); [| now rewrite R1 | exact C1].
    simpl.
    rewrite (turn_ok m2 user (Some u)); [| now rewrite R2 | exact C2].
    simpl.
    rewrite (turn_ok m3 assistant (Some a)); [| now rewrite R3 | exact C3].
    reflexivity. }
  assert (P4 : _push_state (Some user) ([], filled)
               = ([full_block s u a], _reset_state)).
  { rewrite (push_taken user [] filled u) by reflexivity.
    unfold filled; now rewrite render_full. }
  assert (T4 : turns [m1; m2; m3; m4] ([], _reset_state)
               = ok ([full_block s u a], last)).
  { simpl in T3 |- *.
    destruct (turn m1 ([], _reset_state)) as [e | acc1]; [discriminate |].
    simpl in T3 |- *.
    destruct (turn m2 acc1) as [e | acc2]; [discriminate |].
    simpl in T3 |- *.
    destruct (turn m3 acc2) as [e | acc3]; [discriminate |].
    simpl in T3 |- *. injection T3 as ->.
    rewrite (turn_ok m4 user (Some u2)); [| now rewrite R4 | exact C4].
    rewrite P4. reflexivity. }
  assert (PF : _push_state None ([full_block s u a], last)
               = ([full_block s u a; user_block u2], _reset_state)).
  { rewrite push_final. reflexivity. }
  assert (FM : _format_messages [m1; m2; m3; m4]
               = ok (full_block s u a ++ LF ++ user_block u2)).
  { unfold _format_messages. rewrite T4, rbind_ok, PF. reflexivity. }
  repeat split; try assumption.
  intros r Hm Ht. unfold compile. rewrite Hm, FM.
  destruct Ht as [-> | ->]; reflexivity.
Qed.

Lemma C2_two_blocks_witness :
  _format_messages [plain "system" "Be brief."; plain "user" "Hi";
                    plain "assistant" "Hello"; plain "user" "Bye"]
  = ok (full_block "Be brief." "Hi" "Hello" ++ LF ++ user_block "Bye").
Proof.
  apply (C2_two_blocks (plain "system" "Be brief.") (plain "user" "Hi")
           (plain "assistant" "Hello") (plain "user" "Bye"));
    reflexivity.
Defined.

(** A user turn stores its content as it is. *)
Lemma format_user_content (m : Message.t) :
  Message.role m = "user" -> _format_message_content m = ok (Message.content m).
Proof.
  intros H; unfold _format_message_content; rewrite H; reflexivity.
Qed.

Lemma count_role_cons (role : string) (m : Message.t) (ms : list Message.t) :
  count_role role (m :: ms)
  = ((if has_role role m then 1 else 0) + count_role role ms)%nat.
Proof.
  unfold count_role; simpl; destruct (has_role role m); reflexivity.
Qed.

(** A sequence of recognised roles with one user turn and no system,
    assistant or function turn is that user turn alone. *)
Lemma only_user_turn (messages : list Message.t) :
  Forall (fun m => In (Message.role m) recognised_roles) messages ->
  count_role "user" messages = 1%nat ->
  count_role "system" messages = 0%nat ->
  count_role "assistant" messages = 0%nat ->
  count_role "function" messages = 0%nat ->
  exists m, messages = [m] /\ Message.role m = "user".
Proof.
  intros Hrec Hu Hs Ha Hf.
  assert (Hall : Forall (fun m => Message.role m = "user") messages).
  { clear Hu. induction Hrec as [| m ms Hm _ IH]; constructor.
    - rewrite count_role_cons in Hs, Ha, Hf. unfold has_role in *.
      destruct Hm as [H | [H | [H | [H | []]]]]; try (now symmetry);
        rewrite <- H in *; rewrite String.eqb_refl in *; discriminate.
    - rewrite count_role_cons in Hs, Ha, Hf. apply IH; lia. }
  destruct Hall as [| m ms Hm Hms]; [discriminate |].
  exists m. split; [| exact Hm].
  rewrite count_role_cons in Hu. unfold has_role in Hu at 1.
  rewrite Hm in Hu; simpl in Hu.
  destruct Hms as [| m' ms' Hm' _]; [reflexivity |].
  rewrite count_role_cons in Hu. unfold has_role in Hu at 1.
  rewrite Hm' in Hu; simpl in Hu. lia.
Qed.

(** C3, as amended. For every sequence of turns of recognised roles that
    has exactly one user turn and no system, assistant or function turn,
    the user turn carrying the text [u]: compiling with an empty or absent
    tools list gives exactly the block of that user turn, with no header. *)
Theorem C3_single_user_turn (r : Request.t) (u : string) :
  Forall (fun m => In (Message.role m) recognised_roles) (Request.messages r) ->
  count_role "user" (Request.messages r) = 1%nat ->
  count_role "system" (Request.messages r) = 0%nat ->
  count_role "assistant" (Request.messages r) = 0%nat ->
  count_role "function" (Request.messages r) = 0%nat ->
  (forall m, In m (Request.messages r) -> Message.role m = "user" ->
             Message.content m = Some u) ->
  Request.tools r = None \/ Request.tools r = Some [] ->
  compile r = ok ("[INST] " ++ u ++ " [/INST]").
Proof.
  intros Hrec Hu Hs Ha Hf Hc Ht.
  destruct (only_user_turn _ Hrec Hu Hs Ha Hf) as (m & Hm & Hrole).
  assert (Hcontent : Message.content m = Some u).
  { apply Hc; [rewrite Hm; now left | exact Hrole]. }
  unfold compile. rewrite Hm.
  assert (_format_messages [m] = ok ("[INST] " ++ u ++ " [/INST]")) as ->.
  { unfold _format_messages; simpl.
    rewrite (turn_ok m user (Some u));
      [| now rewrite Hrole | now rewrite format_user_content, Hcontent].
    reflexivity. }
  destruct Ht as [-> | ->]; reflexivity.
Qed.

Lemma C3_single_user_turn_witness :
  compile (Request.defaults [plain "user" "how's the weather?"] (Some []))
  = ok "[INST] how's the weather? [/INST]".
Proof.
  apply (C3_single_user_turn
           (Request.defaults [plain "user" "how's the weather?"] (Some []))
           "how's the weather?"); simpl.
  - constructor; [simpl; auto | constructor].
  - reflexivity.
  - reflexivity.
  - reflexivity.
  - reflexivity.
  - intros m [<- | []] _; reflexivity.
  - now right.
Defined.

(** C3, as stated, fails: a function turn is neither a user, a system nor
    an assistant turn, yet it writes the user slot, so a user turn followed
    by a function turn compiles to two blocks. *)
Lemma C3_counterexample :
  let messages := [plain "user" "hi"; plain "function" "42"] in
  count_role "user" messages = 1%nat
  /\ count_role "system" messages = 0%nat
  /\ count_role "assistant" messages = 0%nat
  /\ compile (Request.defaults messages (Some []))
     = ok ("[INST] hi [/INST]" ++ LF
           ++ "[INST] Here is the response to that function call:" ++ LF ++ LF
           ++ DQ ++ "42" ++ DQ ++ " [/INST]")
  /\ compile (Request.defaults messages (Some [])) <> ok "[INST] hi [/INST]".
Proof.
  simpl. repeat split; try reflexivity.
  vm_compute. discriminate.
Qed.

(** ** Unknown roles *)

(** Every exception of [json.loads] is a [ValueError]. *)
Lemma loads_raises (s : string) (e : exn) :
  json.loads s = raise e -> is_ValueError e = true.
Proof.
  intros H. apply json_facts.loads_exception in H.
  destruct H as [-> | (k & _ & ->)]; reflexivity.
Qed.

(** A function call fails to format with the exception [json.loads]
    raises on its arguments. *)
Lemma format_function_call_raises (fc : FunctionCall.t) (e : exn) :
  _format_function_call fc = raise e ->
  json.loads (FunctionCall.arguments fc) = raise e.
Proof.
  unfold _format_function_call.
  destruct (json.loads _) as [e' | v] eqn:E; simpl; [| discriminate].
  now intros [= <-].
Qed.

(** The content of a turn fails to format only with the exception
    [json.loads] raises on the arguments of its function call, or on an
    empty [tool_calls] list. *)
Lemma format_message_content_raises (m : Message.t) (e : exn) :
  _format_message_content m = raise e ->
  (exists fc, printed_call m = Some fc
              /\ json.loads (FunctionCall.arguments fc) = raise e)
  \/ (e = IndexError /\ Message.tool_calls m = Some []).
Proof.
  unfold _format_message_content, printed_call.
  destruct (String.eqb (Message.role m) "assistant").
  - destruct (Message.tool_calls m) as [[| tc tcs] |].
    + intros [= <-]; right; split; reflexivity.
    + simpl. destruct (_format_function_call _) as [e' | t] eqn:E; simpl;
        [| discriminate].
      intros [= <-]; left. exists (ToolCall.function tc).
      split; [reflexivity | now apply format_function_call_raises in E].
    + destruct (Message.function_call m) as [fc |].
      * destruct (_format_function_call _) as [e' | t] eqn:E; simpl;
          [| discriminate].
        intros [= <-]; left. exists fc.
        split; [reflexivity | now apply format_function_call_raises in E].
      * destruct (String.eqb _ _); discriminate.
  - destruct (String.eqb _ _); discriminate.
Qed.

Lemma turn_raises (m : Message.t) (acc : list string * state) (e : exn) :
  turn m acc = raise e ->
  is_ValueError e = true \/ (e = IndexError /\ Message.tool_calls m = Some []).
Proof.
  unfold turn. destruct (slot_of_role _) as [r |].
  - destruct (_push_state _ _) as [lines st].
    destruct (_format_message_content m) as [e' | t] eqn:E; simpl;
      [| discriminate].
    intros [= <-]. apply format_message_content_raises in E.
    destruct E as [(fc & _ & E) | E]; [left; now apply loads_raises in E | now right].
  - intros [= <-]; now left.
Qed.

(** Once a turn of an unknown role is in the sequence the loop cannot
    finish. *)
Lemma turns_unknown_role (messages : list Message.t) :
  Exists (fun m => ~ In (Message.role m) recognised_roles) messages ->
  forall acc, exists e,
    turns messages acc = raise e
    /\ (is_ValueError e = true
        \/ (e = IndexError
            /\ Exists (fun m => Message.tool_calls m = Some []) messages)).
Proof.
  induction 1 as [m ms Hm | m ms _ IH]; intros acc; simpl.
  - destruct (turn m acc) as [e | acc'] eqn:E.
    + exists e; split; [reflexivity |].
      apply turn_raises in E. destruct E as [E | [E1 E2]]; [now left |].
      right; split; [exact E1 | now constructor].
    + exfalso. unfold turn in E.
      apply slot_of_role_unknown in Hm. rewrite Hm in E. discriminate.
  - destruct (turn m acc) as [e | acc'] eqn:E.
    + exists e; split; [reflexivity |].
      apply turn_raises in E. destruct E as [E | [E1 E2]]; [now left |].
      right; split; [exact E1 | now constructor].
    + destruct (IH acc') as (e & He & Hk). exists e; split; [exact He |].
      destruct Hk as [Hk | [Hk1 Hk2]]; [now left |].
      right; split; [exact Hk1 | now apply Exists_cons_tl].
Qed.

(** Turns that all format are consumed by the loop. *)
Lemma turns_app (before after : list Message.t) (acc : list string * state) :
  turns (before ++ after)%list acc
  = (acc' <- turns before acc ;; turns after acc').
Proof.
  revert acc; induction before as [| m ms IH]; intros acc; simpl.
  - reflexivity.
  - destruct (turn m acc) as [e | acc']; simpl; [reflexivity | apply IH].
Qed.

Lemma turns_recognised (messages : list Message.t) :
  Forall (fun m => In (Message.role m) recognised_roles
                   /\ exists t, _format_message_content m = ok t) messages ->
  forall acc, exists acc', turns messages acc = ok acc'.
Proof.
  induction 1 as [| m ms [Hr [t Ht]] _ IH]; intros acc; simpl.
  - now exists acc.
  - apply slot_of_role_recognised in Hr.
    destruct (slot_of_role (Message.role m)) as [r |] eqn:Er; [| congruence].
    rewrite (turn_ok m r t acc Er Ht). apply IH.
Qed.

(** C8. For every sequence of turns with a turn whose role is outside the
    four recognised values, no turn carrying an empty [tool_calls] list:
    compiling the turns raises an exception that is a [ValueError], and so
    does compiling the prompt once the tool header is built, so that no
    prompt string is returned. When every turn before the first turn of an
    unknown role formats, the exception is the [ValueError] naming that
    role. *)
Theorem C8_unknown_role_aborts (messages : list Message.t) :
  Exists (fun m => ~ In (Message.role m) recognised_roles) messages ->
  Forall (fun m => Message.tool_calls m <> Some []) messages ->
  (exists e, _format_messages messages = raise e /\ is_ValueError e = true)
  /\ (forall r header,
        Request.messages r = messages ->
        _format_tools (Request.messages r) (Request.functions r) (Request.tools r)
        = ok header ->
        exists e, compile r = raise e /\ is_ValueError e = true)
  /\ (forall before m after,
        messages = (before ++ m :: after)%list ->
        Forall (fun m => In (Message.role m) recognised_roles
                         /\ exists t, _format_message_content m = ok t) before ->
        ~ In (Message.role m) recognised_roles ->
        _format_messages messages
        = raise (ValueError ("Unknown role: " ++ Message.role m))).
Proof.
  intros Hex Hall.
  assert (H1 : exists e, _format_messages messages = raise e
                         /\ is_ValueError e = true).
  { destruct (turns_unknown_role messages Hex ([], _reset_state))
      as (e & He & Hk).
    exists e. unfold _format_messages. rewrite He. split; [reflexivity |].
    destruct Hk as [Hk | [_ Hk]]; [exact Hk | exfalso].
    apply Exists_exists in Hk. destruct Hk as (m & Hin & Hm).
    rewrite Forall_forall in Hall. now apply (Hall m Hin). }
  split; [exact H1 | split].
  - intros r header Hm Hh. destruct H1 as (e & He & Hv).
    exists e. unfold compile. rewrite Hh, Hm, He. split; [reflexivity | exact Hv].
  - intros before m after -> Hb Hm.
    unfold _format_messages. rewrite turns_app.
    destruct (turns_recognised before Hb ([], _reset_state)) as [acc' ->].
    rewrite rbind_ok. simpl. unfold turn.
    apply slot_of_role_unknown in Hm. rewrite Hm. reflexivity.
Qed.

Lemma C8_unknown_role_aborts_witness :
  _format_messages [plain "user" "hi"; plain "tool" "42"; plain "user" "bye"]
  = raise (ValueError "Unknown role: tool").
Proof.
  apply (proj2 (proj2 (C8_unknown_role_aborts
                         [plain "user" "hi"; plain "tool" "42"; plain "user" "bye"]
                         ltac:(apply Exists_cons_tl, Exists_cons_hd; simpl;
                               intros [H | [H | [H | [H | []]]]]; discriminate)
                         ltac:(repeat constructor; discriminate)))
           [plain "user" "hi"] (plain "tool" "42") [plain "user" "bye"]).
  - reflexivity.
  - constructor; [| constructor].
    split; [simpl; auto | now exists (Some "hi")].
  - simpl; intros [H | [H | [H | [H | []]]]]; discriminate.
Defined.

(** ** The tool header *)

Lemma comprehension_map {A B C : Type} (f : B -> result C) (h : A -> B)
    (g : A -> C) (l : list A) :
  (forall a, f (h a) = ok (g a)) -> comprehension f (map h l) = ok (map g l).
Proof.
  intros H. induction l as [| a l IH]; simpl.
  - reflexivity.
  - now rewrite H, rbind_ok, IH.
Qed.

Lemma trelis_tool_declared (tool : Tool.t) (d : ToolDeclaration.t) :
  declares tool d -> trelis_tool tool = ok (spec_projection d).
Proof.
  intros (Hn & Hd & props & Hp & Hall).
  unfold trelis_tool, spec_projection. rewrite Hn, Hd, rbind_ok.
  unfold getitem at 1. rewrite Hp, rbind_ok. cbn [items]. rewrite rbind_ok.
  assert (E : comprehension trelis_argument props
              = ok (map (fun p => PyDict [("name", PyStr (fst p));
                                          ("type", PyStr (snd p))])
                        (ToolDeclaration.properties d))).
  { clear Hp. induction Hall as [| [k v] [n ty] props ps (Hk & keys & Hv & Ht) _ IH].
    - reflexivity.
    - cbn [comprehension map fst snd] in *. subst k v.
      unfold trelis_argument at 1, getitem. rewrite Ht, !rbind_ok, IH.
      reflexivity. }
  now rewrite E.
Qed.

Lemma comprehension_declared (tools : list Tool.t) (ds : list ToolDeclaration.t) :
  Forall2 declares tools ds ->
  comprehension trelis_tool tools = ok (map spec_projection ds).
Proof.
  induction 1 as [| tool d tools ds Hd _ IH].
  - reflexivity.
  - cbn [comprehension map]. now rewrite (trelis_tool_declared tool d Hd), rbind_ok, IH.
Qed.

(** A prefix of every item moves into the separator. *)
Lemma join_prefix {A : Type} (sep pre : string) (f : A -> string) (l : list A) :
  l <> [] ->
  pre ++ join (sep ++ pre) (map f l) = join sep (map (fun x => pre ++ f x) l).
Proof.
  induction l as [| x l IH]; [congruence |]. intros _.
  destruct l as [| y l]; [reflexivity |].
  change (join (sep ++ pre) (map f (x :: y :: l)))
    with (f x ++ (sep ++ pre) ++ join (sep ++ pre) (map f (y :: l))).
  change (join sep (map (fun x => pre ++ f x) (x :: y :: l)))
    with ((pre ++ f x) ++ sep ++ join sep (map (fun x => pre ++ f x) (y :: l))).
  rewrite <- IH by discriminate. now rewrite !append_assoc.
Qed.

Lemma iterencode_argument (p : string * string) :
  "            "
    ++ json.iterencode (Some 4%nat) 3
         (PyDict [("name", PyStr (fst p)); ("type", PyStr (snd p))])
  = spec_argument p.
Proof.
  unfold spec_argument. cbn [json.iterencode map join fst snd].
  change (json.encode_basestring_ascii "name") with (q "name").
  change (json.encode_basestring_ascii "type") with (q "type").
  change (json.newline_indent (Some 4%nat) 4) with (LF ++ "                ").
  change (json.newline_indent (Some 4%nat) 3) with (LF ++ "            ").
  change (json.separator (Some 4%nat) 4) with ("," ++ LF ++ "                ").
  repeat (rewrite ?append_assoc; cbn [append]). reflexivity.
Qed.

Lemma iterencode_arguments (properties : list (string * string)) :
  json.iterencode (Some 4%nat) 2
    (PyList (map (fun p => PyDict [("name", PyStr (fst p));
                                   ("type", PyStr (snd p))]) properties))
  = spec_arguments properties.
Proof.
  destruct properties as [| p ps]; [reflexivity |].
  unfold spec_arguments.
  change (json.iterencode (Some 4%nat) 2
            (PyList (map (fun p => PyDict [("name", PyStr (fst p));
                                           ("type", PyStr (snd p))]) (p :: ps))))
    with ("[" ++ LF
            ++ ("            "
                  ++ join (("," ++ LF) ++ "            ")
                       (map (json.iterencode (Some 4%nat) 3)
                          (map (fun p => PyDict [("name", PyStr (fst p));
                                                 ("type", PyStr (snd p))])
                             (p :: ps))))
            ++ (LF ++ "        ") ++ "]").
  rewrite map_map.
  rewrite (join_prefix ("," ++ LF) "            ") by discriminate.
  rewrite (map_ext _ spec_argument) by (intros a; apply iterencode_argument).
  repeat (rewrite ?append_assoc; cbn [append]). reflexivity.
Qed.

Lemma iterencode_tool (d : ToolDeclaration.t) :
  "    " ++ json.iterencode (Some 4%nat) 1 (spec_projection d) = spec_tool d.
Proof.
  unfold spec_tool, spec_projection.
  rewrite <- iterencode_arguments.
  set (arguments := PyList _).
  cbn [json.iterencode map join fst snd].
  change (json.encode_basestring_ascii "function") with (q "function").
  change (json.encode_basestring_ascii "description") with (q "description").
  change (json.encode_basestring_ascii "arguments") with (q "arguments").
  change (json.newline_indent (Some 4%nat) 2) with (LF ++ "        ").
  change (json.newline_indent (Some 4%nat) 1) with (LF ++ "    ").
  change (json.separator (Some 4%nat) 2) with ("," ++ LF ++ "        ").
  repeat (rewrite ?append_assoc; cbn [append]). reflexivity.
Qed.

(** The array of the projections, printed with an indent of four. *)
Lemma dumps_projections (d : ToolDeclaration.t) (ds : list ToolDeclaration.t) :
  json.dumps (PyList (map spec_projection (d :: ds))) (Some 4%nat)
  = "[" ++ LF ++ join ("," ++ LF) (map spec_tool (d :: ds)) ++ LF ++ "]".
Proof.
  unfold json.dumps.
  change (json.iterencode (Some 4%nat) 0
            (PyList (map spec_projection (d :: ds))))
    with ("[" ++ LF
            ++ ("    "
                  ++ join (("," ++ LF) ++ "    ")
                       (map (json.iterencode (Some 4%nat) 1)
                          (map spec_projection (d :: ds))))
            ++ LF ++ "]").
  rewrite map_map.
  rewrite (join_prefix ("," ++ LF) "    ") by discriminate.
  rewrite (map_ext _ spec_tool) by (intros a; apply iterencode_tool).
  repeat (rewrite ?append_assoc; cbn [append]). reflexivity.
Qed.

Lemma code_points_printable (s : string) :
  printable s = true ->
  String.concat "" (map json.escape (json.code_points s)) = s.
Proof.
  unfold json.code_points.
  induction s as [| c s IH]; [reflexivity |].
  cbn [printable]. intros H. apply andb_prop in H. destruct H as [Hc Hs].
  cbn [json.code_points_from].
  assert (Hl : json.lead (json.byte_of c) = None).
  { unfold json.lead. replace (json.byte_of c <? 192)%Z with true by lia.
    reflexivity. }
  rewrite Hl. cbn [map].
  assert (He : json.escape (json.byte_of c) = String c "").
  { unfold json.escape.
    replace (json.byte_of c =? 34)%Z with false by lia.
    replace (json.byte_of c =? 92)%Z with false by lia.
    replace (json.byte_of c =? 10)%Z with false by lia.
    replace (json.byte_of c =? 13)%Z with false by lia.
    replace (json.byte_of c =? 9)%Z with false by lia.
    replace (json.byte_of c =? 12)%Z with false by lia.
    replace (json.byte_of c =? 8)%Z with false by lia.
    replace ((32 <=? json.byte_of c)%Z && (json.byte_of c <=? 126)%Z) with true
      by lia.
    unfold json.str1, json.chr, json.byte_of.
    now rewrite Nat2Z.id, ascii_nat_embedding. }
  rewrite He. specialize (IH Hs).
  destruct (map json.escape (json.code_points_from None s)) as [| x xs] eqn:E.
  - cbn [String.concat] in *. now rewrite <- IH.
  - change (String.concat "" (String c "" :: x :: xs))
      with (String c "" ++ "" ++ String.concat "" (x :: xs)).
    now rewrite IH.
Qed.

Lemma encode_printable (s : string) :
  printable s = true -> json.encode_basestring_ascii s = q s.
Proof.
  intros H. unfold json.encode_basestring_ascii, q.
  now rewrite (code_points_printable s H).
Qed.

(** C4. For every non-empty list of tools that carry a declaration with
    their name, their description and the type of each property, whatever
    other keys they hold, the header is the text the specification words:
    ["<FUNCTIONS>"], the array of the tools printed with four more spaces
    at every level, each tool as its [function], [description] and
    [arguments] and each argument as its [name] and [type] in declaration
    order, then ["</FUNCTIONS>"] and two newlines; names and types of
    printable ASCII characters are written between double quotes as they
    are. A tool is projected to these three keys, so that the header is the
    same whatever the required names are; the compiled prompt is the header
    followed by the compiled turns; for an empty or absent tools list the
    header is the empty string. *)
Theorem C4_tool_header (messages : list Message.t)
    (functions : option (list Function.t)) :
  (forall tools ds,
      tools <> [] ->
      Forall2 declares tools ds ->
      _format_tools messages functions (Some tools) = ok (spec_header ds))
  /\ (forall s, printable s = true -> json.encode_basestring_ascii s = q s)
  /\ (forall tool d,
        declares tool d ->
        trelis_tool tool = ok (spec_projection d)
        /\ forall required,
             declares tool
               {| ToolDeclaration.name := ToolDeclaration.name d;
                  ToolDeclaration.description := ToolDeclaration.description d;
                  ToolDeclaration.properties := ToolDeclaration.properties d;
                  ToolDeclaration.required := required |})
  /\ (forall d, declares (tool_of d) d)
  /\ (forall (r : Request.t) tools ds body,
        Request.tools r = Some tools ->
        tools <> [] ->
        Forall2 declares tools ds ->
        _format_messages (Request.messages r) = ok body ->
        compile r = ok (spec_header ds ++ body))
  /\ _format_tools messages functions (Some []) = ok ""
  /\ _format_tools messages functions None = ok "".
Proof.
  assert (H : forall ms fs tools ds,
             tools <> [] ->
             Forall2 declares tools ds ->
             _format_tools ms fs (Some tools) = ok (spec_header ds)).
  { intros ms fs tools ds Hne Hall.
    pose proof (comprehension_declared tools ds Hall) as Hc.
    destruct Hall as [| tool d tools ds Hd Hall]; [congruence |].
    unfold _format_tools. rewrite Hc, rbind_ok, dumps_projections.
    unfold spec_header.
    repeat (rewrite ?append_assoc; cbn [append]). reflexivity. }
  split; [| split; [| split; [| split; [| split; [| split]]]]].
  - intros tools ds. apply H.
  - exact encode_printable.
  - intros tool d Hd. split; [now apply trelis_tool_declared |].
    intros required. exact Hd.
  - intros d. unfold declares, tool_of.
    cbn [Tool.function Function.name Function.description Function.parameters].
    split; [reflexivity | split; [reflexivity |]].
    eexists. split; [reflexivity |].
    induction (ToolDeclaration.properties d) as [| p ps IH]; constructor.
    + split; [reflexivity |]. eexists. split; reflexivity.
    + exact IH.
  - intros r tools ds body Ht Hne Hall Hb. unfold compile.
    rewrite Ht, (H _ _ tools ds Hne Hall), Hb. reflexivity.
  - reflexivity.
  - reflexivity.
Qed.

Lemma C4_tool_header_witness :
  compile (Request.defaults [plain "user" "hi"] (Some [weather_tool]))
  = ok ("<FUNCTIONS>[" ++ LF
        ++ "    {" ++ LF
        ++ "        " ++ q "function" ++ ": " ++ q "weather" ++ "," ++ LF
        ++ "        " ++ q "description" ++ ": " ++ q "Get the weather" ++ "," ++ LF
        ++ "        " ++ q "arguments" ++ ": [" ++ LF
        ++ "            {" ++ LF
        ++ "                " ++ q "name" ++ ": " ++ q "location" ++ "," ++ LF
        ++ "                " ++ q "type" ++ ": " ++ q "string" ++ LF
        ++ "            }" ++ LF
        ++ "        ]" ++ LF
        ++ "    }" ++ LF
        ++ "]</FUNCTIONS>" ++ LF ++ LF
        ++ "[INST] hi [/INST]").
Proof.
  refine (proj1 (proj2 (proj2 (proj2 (proj2 (C4_tool_header [] None)))))
            (Request.defaults [plain "user" "hi"] (Some [weather_tool]))
            [weather_tool] [weather] "[INST] hi [/INST]" eq_refl _ _ eq_refl).
  - discriminate.
  - constructor; [| constructor].
    split; [reflexivity | split; [reflexivity |]].
    eexists. split; [reflexivity |].
    constructor; [| constructor].
    split; [reflexivity |]. eexists. split; reflexivity.
Defined.

(** The header of the weather tool, character by character. *)
Example weather_header :
  _format_tools [] None (Some [tool_of weather])
  = ok ("<FUNCTIONS>[" ++ LF
        ++ "    {" ++ LF
        ++ "        " ++ DQ ++ "function" ++ DQ ++ ": " ++ DQ ++ "weather" ++ DQ ++ "," ++ LF
        ++ "        " ++ DQ ++ "description" ++ DQ ++ ": " ++ DQ ++ "Get the weather" ++ DQ ++ "," ++ LF
        ++ "        " ++ DQ ++ "arguments" ++ DQ ++ ": [" ++ LF
        ++ "            {" ++ LF
        ++ "                " ++ DQ ++ "name" ++ DQ ++ ": " ++ DQ ++ "location" ++ DQ ++ "," ++ LF
        ++ "                " ++ DQ ++ "type" ++ DQ ++ ": " ++ DQ ++ "string" ++ DQ ++ LF
        ++ "            }" ++ LF
        ++ "        ]" ++ LF
        ++ "    }" ++ LF
        ++ "]</FUNCTIONS>" ++ LF ++ LF).
Proof. vm_compute. reflexivity. Qed.

(** ** The handler *)

(** A request that compiles and does not stream reaches the collaborator
    once, and the handler returns what the response assembly returns. *)
Lemma handler_calls_once (llm : llama.Llama) (r : Request.t) (prompt : string) :
  compile r = ok prompt ->
  Request.stream r = false ->
  llama2_functary_chat_completion_handler llm r
  = (match llama.completion_of llm (completion_kwargs prompt r) with
     | inl e => inl e
     | inr completion => response completion
     end,
     llama.called llm (completion_kwargs prompt r)).
Proof.
  intros Hc Hs. unfold llama2_functary_chat_completion_handler.
  rewrite Hc. unfold ok. cbv beta iota. rewrite Hs.
  unfold llama.create_completion.
  destruct (llama.completion_of llm _); reflexivity.
Qed.

(** Text that [json.loads] rejects with a [JSONDecodeError] is the content
    of the message, unchanged; any other exception of [json.loads] is
    raised by the assembly. *)
Lemma plain_text_message (completion : Completion.t) (choice : CompletionChoice.t)
    (rest : list CompletionChoice.t) (e : exn) :
  Completion.choices completion = choice :: rest ->
  json.loads (CompletionChoice.text choice) = raise e ->
  assistant_message completion
  = match e with
    | JSONDecodeError =>
        ok {| ResponseMessage.role := "assistant";
              ResponseMessage.content := Some (CompletionChoice.text choice);
              ResponseMessage.tool_calls := None;
              ResponseMessage.function_call := None |}
    | _ => raise e
    end.
Proof.
  intros Hc Hl. unfold assistant_message, _parse_tool_calls.
  rewrite Hc; simpl. rewrite Hl. destruct e; reflexivity.
Qed.

(** X2. Text that decodes is never plain text: the parser returns a tool call
    when the decoded value is a dict with both keys, and raises otherwise,
    [TypeError] for a value that is not a dict and [KeyError] for a dict
    that lacks a key. *)
Lemma parse_tool_calls_decoded (completion : Completion.t)
    (choice : CompletionChoice.t) (rest : list CompletionChoice.t) (v : value) :
  Completion.choices completion = choice :: rest ->
  json.loads (CompletionChoice.text choice) = ok v ->
  match v with
  | PyDict d =>
      match dict_get "function" d, dict_get "arguments" d with
      | Some f, Some a =>
          _parse_tool_calls completion
          = ok (Some [ {| ResponseToolCall.id := f;
                          ResponseToolCall.type := "function";
                          ResponseToolCall.function :=
                            {| ResponseFunction.name := f;
                               ResponseFunction.arguments :=
                                 json.dumps a (Some 2%nat) |} |} ])
      | Some _, None =>
          _parse_tool_calls completion = raise (KeyError "arguments")
      | None, _ => _parse_tool_calls completion = raise (KeyError "function")
      end
  | _ => _parse_tool_calls completion = raise TypeError
  end.
Proof.
  intros Hc Hl. unfold _parse_tool_calls. rewrite Hc; simpl. rewrite Hl; simpl.
  destruct v as [| b | n | l | t | l | d]; try reflexivity.
  unfold getitem.
  destruct (dict_get "function" d) as [f |]; [| reflexivity].
  destruct (dict_get "arguments" d) as [a |]; reflexivity.
Qed.

(** The envelope around an assembled message. *)
Lemma response_envelope (completion : Completion.t) (message : ResponseMessage.t) :
  assistant_message completion = ok message ->
  response completion
  = ok {| ChatCompletion.id := "chat" ++ Completion.id completion;
          ChatCompletion.object := "chat.completion";
          ChatCompletion.created := Completion.created completion;
          ChatCompletion.model := Completion.model completion;
          ChatCompletion.choices :=
            [ {| ChatCompletionChoice.index := 0;
                 ChatCompletionChoice.message := message;
                 ChatCompletionChoice.finish_reason := "stop" |} ];
          ChatCompletion.usage := Completion.usage completion |}.
Proof. intros H. unfold response. now rewrite H. Qed.

(** C5. Whenever the text of the completion decodes to a dict whose
    ["function"] is the string [name] and whose ["arguments"] is a dict:
    the assembled message has the role assistant, no content, a tool-call
    list of exactly one entry with the id [name], the type ["function"] and
    the function entry made of [name] and the arguments printed with an
    indent of two; the legacy [function_call] field holds the same function
    entry; and it is the message of the only choice of the response. *)
Theorem C5_function_call_message (completion : Completion.t)
    (choice : CompletionChoice.t) (rest : list CompletionChoice.t)
    (decoded args : list (string * value)) (name : string) :
  Completion.choices completion = choice :: rest ->
  json.loads (CompletionChoice.text choice) = ok (PyDict decoded) ->
  dict_get "function" decoded = Some (PyStr name) ->
  dict_get "arguments" decoded = Some (PyDict args) ->
  let function :=
    {| ResponseFunction.name := PyStr name;
       ResponseFunction.arguments := json.dumps (PyDict args) (Some 2%nat) |} in
  let message :=
    {| ResponseMessage.role := "assistant";
       ResponseMessage.content := None;
       ResponseMessage.tool_calls :=
         Some [ {| ResponseToolCall.id := PyStr name;
                   ResponseToolCall.type := "function";
                   ResponseToolCall.function := function |} ];
       ResponseMessage.function_call := Some function |} in
  assistant_message completion = ok message
  /\ exists envelope,
       response completion = ok envelope
       /\ map ChatCompletionChoice.message (ChatCompletion.choices envelope)
          = [message].
Proof.
  intros Hc Hl Hf Ha function message.
  assert (Hm : assistant_message completion = ok message).
  { unfold assistant_message, _parse_tool_calls.
    rewrite Hc; simpl. rewrite Hl; simpl. rewrite Hf; simpl. rewrite Ha; simpl.
    reflexivity. }
  split; [exact Hm |].
  eexists. split; [apply (response_envelope _ _ Hm) | reflexivity].
Qed.

Lemma C5_function_call_message_witness :
  assistant_message (completion_with weather_call)
  = ok {| ResponseMessage.role := "assistant";
          ResponseMessage.content := None;
          ResponseMessage.tool_calls :=
            Some [ {| ResponseToolCall.id := PyStr "weather";
                      ResponseToolCall.type := "function";
                      ResponseToolCall.function :=
                        {| ResponseFunction.name := PyStr "weather";
                           ResponseFunction.arguments :=
                             "{" ++ LF ++ "  " ++ q "location" ++ ": "
                               ++ q "Tokyo" ++ LF ++ "}" |} |} ];
          ResponseMessage.function_call :=
            Some {| ResponseFunction.name := PyStr "weather";
                    ResponseFunction.arguments :=
                      "{" ++ LF ++ "  " ++ q "location" ++ ": "
                        ++ q "Tokyo" ++ LF ++ "}" |} |}.
Proof.
  apply (proj1 (C5_function_call_message (completion_with weather_call)
                  _ [] [("function", PyStr "weather");
                        ("arguments", PyDict [("location", PyStr "Tokyo")])]
                  [("location", PyStr "Tokyo")] "weather"
                  eq_refl eq_refl eq_refl eq_refl)).
Defined.

(** C1. The decoded value is subscripted inside a [try] that handles
    [JSONDecodeError] only. For text that is JSON of another shape the
    subscript raises and the exception leaves the parser and the handler:
    [KeyError] for the object [{"foo":"bar"}], [TypeError] for an array and
    for a bare number. A dict that has both keys is taken for a function
    call whatever the types of their values. *)
Theorem C1_wrong_shape_raises :
  json.loads ("{" ++ q "foo" ++ ":" ++ q "bar" ++ "}")
  = ok (PyDict [("foo", PyStr "bar")])
  /\ _parse_tool_calls (completion_with ("{" ++ q "foo" ++ ":" ++ q "bar" ++ "}"))
     = raise (KeyError "function")
  /\ fst (llama2_functary_chat_completion_handler
            (stub ("{" ++ q "foo" ++ ":" ++ q "bar" ++ "}"))
            (Request.defaults [plain "user" "hi"] None))
     = raise (KeyError "function")
  /\ json.loads "[1, 2]" = ok (PyList [PyInt 1; PyInt 2])
  /\ _parse_tool_calls (completion_with "[1, 2]") = raise TypeError
  /\ json.loads "42" = ok (PyInt 42)
  /\ _parse_tool_calls (completion_with "42") = raise TypeError
  /\ _parse_tool_calls
       (completion_with ("{" ++ q "function" ++ ":1," ++ q "arguments" ++ ":2}"))
     = ok (Some [ {| ResponseToolCall.id := PyInt 1;
                     ResponseToolCall.type := "function";
                     ResponseToolCall.function :=
                       {| ResponseFunction.name := PyInt 1;
                          ResponseFunction.arguments := "2" |} |} ]).
Proof. vm_compute. repeat split. Qed.

(** C6. The envelope is built after the completion is parsed, so an
    inference result whose text is JSON of another shape gets no envelope:
    the handler raises after the collaborator has been called. *)
Theorem C6_no_envelope_for_bare_number :
  llama2_functary_chat_completion_handler
    (stub "42") (Request.defaults [plain "user" "what is six times seven?"] None)
  = (raise TypeError,
     llama.called (stub "42")
       (completion_kwargs "[INST] what is six times seven? [/INST]"
          (Request.defaults [plain "user" "what is six times seven?"] None))).
Proof. vm_compute. reflexivity. Qed.

(** X1. Every inference result that the parser accepts is wrapped in the
    envelope: the id prefixed with ["chat"], the object tag, the timestamp,
    model and usage of the inference result, and one choice that stops. *)
Lemma handler_envelope (llm : llama.Llama) (r : Request.t) (prompt : string)
    (completion : Completion.t) (message : ResponseMessage.t) :
  compile r = ok prompt ->
  Request.stream r = false ->
  llama.completion_of llm (completion_kwargs prompt r) = ok completion ->
  assistant_message completion = ok message ->
  llama2_functary_chat_completion_handler llm r
  = (ok {| ChatCompletion.id := "chat" ++ Completion.id completion;
           ChatCompletion.object := "chat.completion";
           ChatCompletion.created := Completion.created completion;
           ChatCompletion.model := Completion.model completion;
           ChatCompletion.choices :=
             [ {| ChatCompletionChoice.index := 0;
                  ChatCompletionChoice.message := message;
                  ChatCompletionChoice.finish_reason := "stop" |} ];
           ChatCompletion.usage := Completion.usage completion |},
     llama.called llm (completion_kwargs prompt r)).
Proof.
  intros Hc Hs Hl Hm.
  rewrite (handler_calls_once llm r prompt Hc Hs), Hl.
  unfold ok at 1. cbv beta iota.
  now rewrite (response_envelope completion message Hm).
Qed.

(** C7. For every request with [stream] set, the handler raises and hands
    the collaborator back as it received it, with no call added; a
    collaborator that had received no call has received none. The
    exception is the failed assertion whenever the prompt compiles. *)
Theorem C7_stream_rejected (llm : llama.Llama) (r : Request.t) :
  Request.stream r = true ->
  (exists e, llama2_functary_chat_completion_handler llm r = (raise e, llm))
  /\ llama.calls (snd (llama2_functary_chat_completion_handler llm r))
     = llama.calls llm
  /\ (llama.calls llm = [] ->
      llama.calls (snd (llama2_functary_chat_completion_handler llm r)) = [])
  /\ (forall prompt, compile r = ok prompt ->
      llama2_functary_chat_completion_handler llm r
      = (raise (AssertionError "streaming is not supported yet"), llm)).
Proof.
  intros Hs.
  assert (H : exists e, llama2_functary_chat_completion_handler llm r
                        = (raise e, llm)).
  { unfold llama2_functary_chat_completion_handler.
    destruct (compile r) as [e | prompt].
    - now exists e.
    - rewrite Hs. now eexists. }
  split; [exact H | split; [| split]].
  - destruct H as [e ->]. reflexivity.
  - destruct H as [e ->]. intros Hn. exact Hn.
  - intros prompt Hc. unfold llama2_functary_chat_completion_handler.
    rewrite Hc. unfold ok. cbv beta iota. now rewrite Hs.
Qed.

Lemma C7_stream_rejected_witness :
  llama2_functary_chat_completion_handler (stub "hello")
    (Request.with_stream true (Request.defaults [plain "user" "hi"] None))
  = (raise (AssertionError "streaming is not supported yet"), stub "hello").
Proof.
  apply (proj2 (proj2 (proj2
           (C7_stream_rejected (stub "hello")
              (Request.with_stream true (Request.defaults [plain "user" "hi"] None))
              eq_refl)))
           "[INST] hi [/INST]").
  reflexivity.
Defined.

(** ** The [stop] argument *)

Lemma handler_with_stop (llm : llama.Llama) (r : Request.t)
    (stop : option (string + list string)) :
  llama2_functary_chat_completion_handler llm (Request.with_stop stop r)
  = llama2_functary_chat_completion_handler llm r.
Proof. reflexivity. Qed.

(** The handler adds at most one call, made with the compiled prompt. *)
Lemma handler_calls (llm : llama.Llama) (r : Request.t) :
  snd (llama2_functary_chat_completion_handler llm r) = llm
  \/ exists prompt,
       compile r = ok prompt
       /\ snd (llama2_functary_chat_completion_handler llm r)
          = llama.called llm (completion_kwargs prompt r).
Proof.
  unfold llama2_functary_chat_completion_handler.
  destruct (compile r) as [e | prompt]; [now left |].
  destruct (Request.stream r); [now left |].
  right. exists prompt. split; [reflexivity |].
  unfold llama.create_completion.
  destruct (llama.completion_of llm _); reflexivity.
Qed.

(** C10. Two invocations that differ in the [stop] argument only (they
    are the same call once [stop] is overwritten) give the same result and
    leave the collaborator with the same calls, each made with the same
    arguments; and every call the handler adds carries the stop sequences
    ["user:"] and ["</s>"], whatever [stop] the caller gave. *)
Theorem C10_stop_argument_ignored (llm : llama.Llama) (r1 r2 : Request.t) :
  Request.with_stop None r1 = Request.with_stop None r2 ->
  llama2_functary_chat_completion_handler llm r1
  = llama2_functary_chat_completion_handler llm r2
  /\ (forall kwargs,
        In kwargs (llama.calls (snd (llama2_functary_chat_completion_handler llm r1))) ->
        In kwargs (llama.calls llm)
        \/ llama.CreateCompletion.stop kwargs = ["user:"; "</s>"]).
Proof.
  intros H. split.
  - rewrite <- (handler_with_stop llm r1 None), H. apply handler_with_stop.
  - intros kwargs Hin.
    destruct (handler_calls llm r1) as [-> | (prompt & _ & ->)] in Hin.
    + now left.
    + simpl in Hin. apply in_app_or in Hin.
      destruct Hin as [Hin | [<- | []]]; [now left | now right].
Qed.

Lemma C10_stop_argument_ignored_witness :
  llama2_functary_chat_completion_handler (stub "hello")
    (Request.with_stop (Some (inl "###")) (Request.defaults [plain "user" "hi"] None))
  = llama2_functary_chat_completion_handler (stub "hello")
      (Request.with_stop (Some (inr ["a"; "b"])) (Request.defaults [plain "user" "hi"] None)).
Proof.
  apply (proj1 (C10_stop_argument_ignored (stub "hello")
                  (Request.with_stop (Some (inl "###"))
                     (Request.defaults [plain "user" "hi"] None))
                  (Request.with_stop (Some (inr ["a"; "b"]))
                     (Request.defaults [plain "user" "hi"] None))
                  eq_refl)).
Defined.

(** * Further properties of the handler *)

(** ** The response *)

Lemma handler_envelope_witness :
  llama2_functary_chat_completion_handler (stub "hello")
    (Request.defaults [plain "user" "hi"] None)
  = (ok {| ChatCompletion.id := "chatcmpl-1";
           ChatCompletion.object := "chat.completion";
           ChatCompletion.created := 1700000000;
           ChatCompletion.model := "functionary";
           ChatCompletion.choices :=
             [ {| ChatCompletionChoice.index := 0;
                  ChatCompletionChoice.message :=
                    {| ResponseMessage.role := "assistant";
                       ResponseMessage.content := Some "hello";
                       ResponseMessage.tool_calls := None;
                       ResponseMessage.function_call := None |};
                  ChatCompletionChoice.finish_reason := "stop" |} ];
           ChatCompletion.usage := Completion.usage (completion_with "hello") |},
     llama.called (stub "hello")
       (completion_kwargs "[INST] hi [/INST]"
          (Request.defaults [plain "user" "hi"] None))).
Proof.
  apply (handler_envelope (stub "hello")
           (Request.defaults [plain "user" "hi"] None)
           "[INST] hi [/INST]" (completion_with "hello"));
    reflexivity.
Defined.

Lemma parse_tool_calls_decoded_witness :
  _parse_tool_calls (completion_with ("{" ++ q "function" ++ ": 1}"))
  = raise (KeyError "arguments").
Proof.
  apply (parse_tool_calls_decoded
           (completion_with ("{" ++ q "function" ++ ": 1}")) _ []
           (PyDict [("function", PyInt 1)]) eq_refl eq_refl).
Defined.

(** X3. For every request that compiles and does not stream, when
    [json.loads] raises on the text of the first choice of the completion,
    the collaborator has received exactly one more call and the outcome
    depends on the exception. For a [JSONDecodeError], text that is not
    JSON, the handler returns the envelope whose only message has the role
    assistant, that text unchanged as content and neither a tool-call list
    nor a function call. Any other exception is not caught, and the
    handler raises it: so it is for the [ValueError] of text that starts
    with an integer of more digits than the limit. *)
Theorem plain_text_response (llm : llama.Llama) (r : Request.t) (prompt : string)
    (completion : Completion.t) (choice : CompletionChoice.t)
    (rest : list CompletionChoice.t) (e : exn) :
  compile r = ok prompt ->
  Request.stream r = false ->
  llama.completion_of llm (completion_kwargs prompt r) = ok completion ->
  Completion.choices completion = choice :: rest ->
  json.loads (CompletionChoice.text choice) = raise e ->
  llama2_functary_chat_completion_handler llm r
  = (match e with
     | JSONDecodeError =>
         ok {| ChatCompletion.id := "chat" ++ Completion.id completion;
               ChatCompletion.object := "chat.completion";
               ChatCompletion.created := Completion.created completion;
               ChatCompletion.model := Completion.model completion;
               ChatCompletion.choices :=
                 [ {| ChatCompletionChoice.index := 0;
                      ChatCompletionChoice.message :=
                        {| ResponseMessage.role := "assistant";
                           ResponseMessage.content :=
                             Some (CompletionChoice.text choice);
                           ResponseMessage.tool_calls := None;
                           ResponseMessage.function_call := None |};
                      ChatCompletionChoice.finish_reason := "stop" |} ];
               ChatCompletion.usage := Completion.usage completion |}
     | _ => raise e
     end,
     llama.called llm (completion_kwargs prompt r)).
Proof.
  intros Hc Hs Hl Hch He.
  rewrite (handler_calls_once llm r prompt Hc Hs), Hl.
  unfold ok at 1. cbv beta iota. unfold response.
  rewrite (plain_text_message completion choice rest e Hch He).
  destruct e; reflexivity.
Qed.

Lemma plain_text_response_witness :
  fst (llama2_functary_chat_completion_handler (stub "The weather is nice.")
         (Request.defaults [plain "user" "hi"] None))
  = ok {| ChatCompletion.id := "chatcmpl-1";
          ChatCompletion.object := "chat.completion";
          ChatCompletion.created := 1700000000;
          ChatCompletion.model := "functionary";
          ChatCompletion.choices :=
            [ {| ChatCompletionChoice.index := 0;
                 ChatCompletionChoice.message :=
                   {| ResponseMessage.role := "assistant";
                      ResponseMessage.content := Some "The weather is nice.";
                      ResponseMessage.tool_calls := None;
                      ResponseMessage.function_call := None |};
                 ChatCompletionChoice.finish_reason := "stop" |} ];
          ChatCompletion.usage :=
            Completion.usage (completion_with "The weather is nice.") |}
  /\ fst (llama2_functary_chat_completion_handler (stub (ones 4301 ++ " is big"))
            (Request.defaults [plain "user" "hi"] None))
     = raise (json.int_too_long 4301).
Proof.
  split.
  - rewrite (plain_text_response (stub "The weather is nice.")
               (Request.defaults [plain "user" "hi"] None)
               "[INST] hi [/INST]" (completion_with "The weather is nice.")
               _ [] JSONDecodeError eq_refl eq_refl eq_refl eq_refl eq_refl).
    reflexivity.
  - rewrite (plain_text_response (stub (ones 4301 ++ " is big"))
               (Request.defaults [plain "user" "hi"] None)
               "[INST] hi [/INST]" (completion_with (ones 4301 ++ " is big"))
               _ [] (json.int_too_long 4301) eq_refl eq_refl eq_refl eq_refl
               ltac:(vm_compute; reflexivity)).
    reflexivity.
Defined.

(** ** The call to the collaborator *)

(** X4. For every request that compiles and does not stream, the handler
    adds exactly one call to those the collaborator has received: its
    prompt is the compiled prompt, its [stream] is false, and the grammar,
    the token limit, the model, the logits processors and every sampling
    parameter are those of the request. When the collaborator raises, the
    handler raises the same exception and the call is still recorded. *)
Theorem collaborator_called_once (llm : llama.Llama) (r : Request.t)
    (prompt : string) :
  compile r = ok prompt ->
  Request.stream r = false ->
  exists kwargs,
    llama.calls (snd (llama2_functary_chat_completion_handler llm r))
    = (llama.calls llm ++ [kwargs])%list
    /\ llama.CreateCompletion.prompt kwargs = prompt
    /\ llama.CreateCompletion.stream kwargs = false
    /\ llama.CreateCompletion.grammar kwargs = Request.grammar r
    /\ llama.CreateCompletion.max_tokens kwargs = Request.max_tokens r
    /\ llama.CreateCompletion.model kwargs = Request.model r
    /\ llama.CreateCompletion.logits_processor kwargs = Request.logits_processor r
    /\ (llama.CreateCompletion.temperature kwargs,
        llama.CreateCompletion.top_p kwargs,
        llama.CreateCompletion.top_k kwargs,
        llama.CreateCompletion.min_p kwargs,
        llama.CreateCompletion.typical_p kwargs)
       = (Request.temperature r, Request.top_p r, Request.top_k r,
          Request.min_p r, Request.typical_p r)
    /\ (llama.CreateCompletion.presence_penalty kwargs,
        llama.CreateCompletion.frequency_penalty kwargs,
        llama.CreateCompletion.repeat_penalty kwargs,
        llama.CreateCompletion.tfs_z kwargs)
       = (Request.presence_penalty r, Request.frequency_penalty r,
          Request.repeat_penalty r, Request.tfs_z r)
    /\ (llama.CreateCompletion.mirostat_mode kwargs,
        llama.CreateCompletion.mirostat_tau kwargs,
        llama.CreateCompletion.mirostat_eta kwargs)
       = (Request.mirostat_mode r, Request.mirostat_tau r, Request.mirostat_eta r)
    /\ (forall e, llama.completion_of llm kwargs = raise e ->
                  fst (llama2_functary_chat_completion_handler llm r) = raise e).
Proof.
  intros Hc Hs. exists (completion_kwargs prompt r).
  rewrite (handler_calls_once llm r prompt Hc Hs). simpl.
  repeat (split; [reflexivity |]).
  intros e ->. reflexivity.
Qed.

Lemma collaborator_called_once_witness :
  exists kwargs,
    llama.calls (snd (llama2_functary_chat_completion_handler (failing TypeError)
                        (Request.defaults [plain "user" "hi"] None)))
    = [kwargs]
    /\ llama.CreateCompletion.prompt kwargs = "[INST] hi [/INST]"
    /\ fst (llama2_functary_chat_completion_handler (failing TypeError)
              (Request.defaults [plain "user" "hi"] None))
       = raise TypeError.
Proof.
  destruct (collaborator_called_once (failing TypeError)
              (Request.defaults [plain "user" "hi"] None)
              "[INST] hi [/INST]" eq_refl eq_refl)
    as (kwargs & Hcalls & Hprompt & _ & _ & _ & _ & _ & _ & _ & _ & Hraise).
  exists kwargs. split; [exact Hcalls | split; [exact Hprompt |]].
  apply Hraise. reflexivity.
Defined.

(** ** Malformed tools *)

Lemma comprehension_app_raise {A B : Type} (f : A -> result B)
    (before : list A) (a : A) (after : list A) (bs : list B) (e : exn) :
  comprehension f before = ok bs ->
  f a = raise e ->
  comprehension f (before ++ a :: after)%list = raise e.
Proof.
  revert bs; induction before as [| b before IH]; intros bs Hb Ha; simpl.
  - now rewrite Ha.
  - simpl in Hb. destruct (f b) as [e' | v]; [discriminate |]. simpl in *.
    destruct (comprehension f before) as [e' | vs]; [discriminate |].
    now rewrite (IH vs eq_refl Ha).
Qed.

Lemma comprehension_raises {A B : Type} (f : A -> result B) (l : list A)
    (e : exn) :
  comprehension f l = raise e -> exists a, In a l /\ f a = raise e.
Proof.
  induction l as [| a l IH]; simpl; [discriminate |].
  destruct (f a) as [e' | b] eqn:E; simpl.
  - intros [= <-]. exists a. split; [now left | exact E].
  - destruct (comprehension f l) as [e' | bs]; simpl; [| discriminate].
    intros [= <-]. destruct (IH eq_refl) as (a' & Hin & Ha').
    exists a'. split; [now right | exact Ha'].
Qed.

(** X5. A tool fails to project for one of these reasons only, tried in
    this order: it has no description ([KeyError] on ["description"]); its
    parameters have no ["properties"] ([KeyError]); the properties are not
    a dict ([AttributeError]); one of the properties is a dict without
    ["type"] ([KeyError]) or is not a dict ([TypeError]). A tool without a
    description fails whatever its parameters are. *)
Theorem tool_projection_errors (tool : Tool.t) :
  (Function.description (Tool.function tool) = None ->
   trelis_tool tool = raise (KeyError "description"))
  /\ (forall e, trelis_tool tool = raise e ->
        (e = KeyError "description"
         /\ Function.description (Tool.function tool) = None)
        \/ (e = KeyError "properties"
            /\ dict_get "properties" (Function.parameters (Tool.function tool))
               = None)
        \/ (e = AttributeError
            /\ exists v,
                 dict_get "properties" (Function.parameters (Tool.function tool))
                 = Some v
                 /\ forall d, v <> PyDict d)
        \/ (exists props name property,
              dict_get "properties" (Function.parameters (Tool.function tool))
              = Some (PyDict props)
              /\ In (name, property) props
              /\ ((e = KeyError "type"
                   /\ exists d, property = PyDict d /\ dict_get "type" d = None)
                  \/ (e = TypeError /\ forall d, property <> PyDict d)))).
Proof.
  unfold trelis_tool. split.
  - intros ->. reflexivity.
  - intros e.
    destruct (Function.description (Tool.function tool)) as [descr |];
      [| intros [= <-]; left; split; reflexivity].
    rewrite rbind_ok. unfold getitem.
    destruct (dict_get "properties" _) as [v |] eqn:Ep;
      [| intros [= <-]; right; left; split; reflexivity].
    rewrite rbind_ok.
    destruct v as [| b | n | l | t | l | props];
      try (intros [= <-]; right; right; left; split; [reflexivity |];
           eexists; split; [reflexivity | discriminate]).
    simpl items. rewrite rbind_ok.
    destruct (comprehension trelis_argument props) as [e' | args] eqn:Ec;
      [| discriminate].
    intros [= <-]. right; right; right.
    apply comprehension_raises in Ec. destruct Ec as ([name property] & Hin & Ha).
    exists props, name, property. split; [reflexivity | split; [exact Hin |]].
    unfold trelis_argument, getitem in Ha.
    destruct property as [| b | n | l | t | l | d];
      try (injection Ha as <-; right; split; [reflexivity | discriminate]).
    destruct (dict_get "type" d) eqn:Et; [discriminate |].
    injection Ha as <-. left. split; [reflexivity |].
    exists d. split; [reflexivity | exact Et].
Qed.

Lemma tool_projection_errors_witness :
  trelis_tool {| Tool.type := "function";
                 Tool.function :=
                   {| Function.name := "weather";
                      Function.description := None;
                      Function.parameters := [("properties", PyDict [])] |} |}
  = raise (KeyError "description").
Proof.
  apply (proj1 (tool_projection_errors _)). reflexivity.
Defined.

(** X6. The first tool that fails to project decides the outcome: when
    the tools before it project, the header, the compiled prompt and the
    handler raise the exception of that tool, whatever the turns are, and
    the collaborator is handed back as it was received, with no call. *)
Theorem bad_tool_aborts (llm : llama.Llama) (r : Request.t)
    (before : list Tool.t) (tool : Tool.t) (after : list Tool.t)
    (projected : list value) (e : exn) :
  Request.tools r = Some (before ++ tool :: after)%list ->
  comprehension trelis_tool before = ok projected ->
  trelis_tool tool = raise e ->
  _format_tools (Request.messages r) (Request.functions r) (Request.tools r)
  = raise e
  /\ compile r = raise e
  /\ llama2_functary_chat_completion_handler llm r = (raise e, llm).
Proof.
  intros Ht Hb He.
  assert (H : _format_tools (Request.messages r) (Request.functions r)
                (Request.tools r) = raise e).
  { rewrite Ht. unfold _format_tools.
    rewrite (comprehension_app_raise trelis_tool before tool after projected e Hb He).
    destruct (before ++ tool :: after)%list eqn:E; [| reflexivity].
    now destruct before. }
  assert (Hc : compile r = raise e).
  { unfold compile. now rewrite H. }
  repeat split; try assumption.
  unfold llama2_functary_chat_completion_handler. now rewrite Hc.
Qed.

Lemma bad_tool_aborts_witness :
  llama2_functary_chat_completion_handler (stub "hello")
    (Request.defaults [plain "user" "hi"]
       (Some [tool_of weather;
              {| Tool.type := "function";
                 Tool.function :=
                   {| Function.name := "time";
                      Function.description := None;
                      Function.parameters := [("properties", PyDict [])] |} |}]))
  = (raise (KeyError "description"), stub "hello").
Proof.
  apply (proj2 (proj2 (bad_tool_aborts (stub "hello")
                         (Request.defaults [plain "user" "hi"]
                            (Some [tool_of weather;
                                   {| Tool.type := "function";
                                      Tool.function :=
                                        {| Function.name := "time";
                                           Function.description := None;
                                           Function.parameters :=
                                             [("properties", PyDict [])] |} |}]))
                         [tool_of weather] _ [] _ (KeyError "description")
                         eq_refl eq_refl eq_refl))).
Defined.

(** ** Turns and blocks *)

Lemma render_exchange (u a : string) :
  render {| st_user := Some u; st_system := None; st_assistant := Some a |}
  = exchange_block u a.
Proof.
  unfold render, exchange_block; simpl.
  repeat (rewrite ?append_assoc; simpl). reflexivity.
Qed.

(** A push for a slot that is taken is the final push. *)
Lemma push_taken_final (r : slot) (acc : list string * state) (text : string) :
  state_get (snd acc) r = Some text ->
  _push_state (Some r) acc = _push_state None acc.
Proof.
  destruct acc as [lines st]. simpl. intros H.
  unfold _push_state. now rewrite H.
Qed.

Lemma format_plain (role content : string) :
  _format_message_content (plain role content)
  = ok (Some (if String.eqb role "function"
              then function_response (Some content) else content)).
Proof.
  unfold _format_message_content, plain; simpl.
  destruct (String.eqb role "assistant"); simpl;
    destruct (String.eqb role "function"); reflexivity.
Qed.

(** A pending block with a user text, followed by a history of exchanges:
    every exchange flushes the block before it, and the last one is left
    pending. *)
Lemma turns_exchanges (pairs : list (string * string)) :
  forall (lines : list string) (st : state) (u0 : string),
    st_user st = Some u0 ->
    exists lines' st' u',
      turns (exchanges pairs) (lines, st) = ok (lines', st')
      /\ st_user st' = Some u'
      /\ (lines' ++ [render st'])%list
         = (lines ++ render st
              :: map (fun p => exchange_block (fst p) (snd p)) pairs)%list.
Proof.
  induction pairs as [| [u a] pairs IH]; intros lines st u0 Hu.
  - exists lines, st, u0. split; [reflexivity | split; [exact Hu | reflexivity]].
  - change (exchanges ((u, a) :: pairs))
      with (plain "user" u :: plain "assistant" a :: exchanges pairs).
    cbn [turns].
    rewrite (turn_ok (plain "user" u) user (Some u)) by reflexivity.
    rewrite (push_taken user lines st u0 Hu). rewrite rbind_ok.
    rewrite (turn_ok (plain "assistant" a) assistant (Some a)) by reflexivity.
    rewrite rbind_ok. cbn [fst snd _push_state state_get state_set _reset_state
                             st_user st_system st_assistant is_None].
    destruct (IH (lines ++ [render st])%list
                {| st_user := Some u; st_system := None; st_assistant := Some a |}
                u eq_refl) as (lines' & st' & u' & Ht & Hu' & Hl).
    exists lines', st', u'. split; [exact Ht | split; [exact Hu' |]].
    rewrite Hl, render_exchange, <- app_assoc. reflexivity.
Qed.

(** The final push of a pending block with a user text. *)
Lemma push_final_user (lines : list string) (st : state) (u : string) :
  st_user st = Some u ->
  _push_state None (lines, st) = ((lines ++ [render st])%list, _reset_state).
Proof.
  intros H. rewrite push_final. unfold all_None. now rewrite H.
Qed.

(** A new user turn after a pending block with a user text. *)
Lemma turns_then_user (lines : list string) (st : state) (u0 u : string) :
  st_user st = Some u0 ->
  (acc <- turns [plain "user" u] (lines, st) ;;
   ok (fst (_push_state None acc)))
  = ok ((lines ++ [render st]) ++ [user_block u])%list.
Proof.
  intros H. cbn [turns].
  rewrite (turn_ok (plain "user" u) user (Some u)) by reflexivity.
  rewrite (push_taken user lines st u0 H). reflexivity.
Qed.

Lemma format_messages_lines (messages : list Message.t) (lines : list string) :
  (acc <- turns messages ([], _reset_state) ;; ok (fst (_push_state None acc)))
  = ok lines ->
  _format_messages messages = ok (join LF lines).
Proof.
  unfold _format_messages.
  destruct (turns messages ([], _reset_state)) as [e | acc]; [discriminate |].
  rewrite !rbind_ok. destruct (_push_state None acc) as [lines' st'].
  simpl. now intros [= ->].
Qed.

(** The first exchange, after an optional system text. *)
Lemma turns_first_exchange (sys : option string) (u a : string)
    (pairs : list (string * string)) (final : list Message.t) :
  turns (exchanges ((u, a) :: pairs) ++ final)%list
    ([], {| st_user := None; st_system := sys; st_assistant := None |})
  = turns (exchanges pairs ++ final)%list
      ([], {| st_user := Some u; st_system := sys; st_assistant := Some a |}).
Proof.
  change (exchanges ((u, a) :: pairs) ++ final)%list
    with (plain "user" u :: plain "assistant" a :: (exchanges pairs ++ final))%list.
  cbn [turns].
  rewrite (turn_ok (plain "user" u) user (Some u)) by reflexivity.
  rewrite rbind_ok.
  rewrite (turn_ok (plain "assistant" a) assistant (Some a)) by reflexivity.
  reflexivity.
Qed.

(** X7. A chat history compiles to one block per exchange. A history of
    user and assistant turns in pairs gives the block of each pair, joined
    by newlines; a new user turn after the history adds its own block at the
    end; a system turn in front of the history goes into the block of the
    first exchange only. *)
Theorem history_blocks (pairs : list (string * string)) (u : string) :
  let blocks := map (fun p => exchange_block (fst p) (snd p)) pairs in
  _format_messages (exchanges pairs) = ok (join LF blocks)
  /\ _format_messages (exchanges pairs ++ [plain "user" u])%list
     = ok (join LF (blocks ++ [user_block u])%list)
  /\ (forall s u1 a1,
        _format_messages
          (plain "system" s :: exchanges ((u1, a1) :: pairs) ++ [plain "user" u])%list
        = ok (join LF (full_block s u1 a1 :: blocks ++ [user_block u])%list)).
Proof.
  intros blocks.
  assert (Main : forall sys u1 a1 ps final,
             exists lines' st' u',
               turns (exchanges ((u1, a1) :: ps) ++ final)%list
                 ([], {| st_user := None; st_system := sys; st_assistant := None |})
               = turns final (lines', st')
               /\ st_user st' = Some u'
               /\ (lines' ++ [render st'])%list
                  = (render {| st_user := Some u1; st_system := sys;
                               st_assistant := Some a1 |}
                       :: map (fun p => exchange_block (fst p) (snd p)) ps)%list).
  { intros sys u1 a1 ps final. rewrite turns_first_exchange, turns_app.
    destruct (turns_exchanges ps []
                {| st_user := Some u1; st_system := sys; st_assistant := Some a1 |}
                u1 eq_refl) as (lines' & st' & u' & Ht & Hu' & Hl).
    exists lines', st', u'. rewrite Ht, rbind_ok.
    split; [reflexivity | split; [exact Hu' | exact Hl]]. }
  split; [| split].
  - apply format_messages_lines.
    destruct pairs as [| [u1 a1] ps]; [reflexivity |].
    destruct (Main None u1 a1 ps []) as (lines' & st' & u' & Ht & Hu' & Hl).
    rewrite app_nil_r in Ht. unfold _reset_state at 1. rewrite Ht.
    cbn [turns]. rewrite rbind_ok.
    rewrite (push_final_user lines' st' u' Hu'). cbn [fst].
    rewrite Hl, render_exchange. reflexivity.
  - apply format_messages_lines.
    destruct pairs as [| [u1 a1] ps]; [reflexivity |].
    destruct (Main None u1 a1 ps [plain "user" u])
      as (lines' & st' & u' & Ht & Hu' & Hl).
    unfold _reset_state at 1. rewrite Ht.
    rewrite (turns_then_user lines' st' u' u Hu').
    rewrite Hl, render_exchange. reflexivity.
  - intros s u1 a1. apply format_messages_lines.
    change (plain "system" s :: exchanges ((u1, a1) :: pairs) ++ [plain "user" u])%list
      with (plain "system" s
              :: (exchanges ((u1, a1) :: pairs) ++ [plain "user" u]))%list.
    cbn [turns].
    rewrite (turn_ok (plain "system" s) system (Some s)) by reflexivity.
    rewrite rbind_ok.
    cbn [fst snd _push_state state_get state_set _reset_state
           st_user st_system st_assistant is_None].
    destruct (Main (Some s) u1 a1 pairs [plain "user" u])
      as (lines' & st' & u' & Ht & Hu' & Hl).
    rewrite Ht. rewrite (turns_then_user lines' st' u' u Hu').
    rewrite Hl, render_full. reflexivity.
Qed.

(** System turns only: each one flushes the one before it as an empty
    block. *)
Lemma turns_system_only (ss : list string) :
  forall (lines : list string) (s : string),
    (acc <- turns (map (plain "system") ss)
              (lines, {| st_user := None; st_system := Some s;
                         st_assistant := None |}) ;;
     ok (fst (_push_state None acc)))
    = ok (lines ++ map (fun _ => "") (s :: ss))%list.
Proof.
  induction ss as [| s' ss IH]; intros lines s.
  - reflexivity.
  - cbn [map turns].
    rewrite (turn_ok (plain "system" s') system (Some s')) by reflexivity.
    rewrite rbind_ok.
    rewrite (push_taken system lines _ s) by reflexivity.
    cbn [fst snd state_set _reset_state st_user st_system st_assistant].
    rewrite IH. cbn [map]. now rewrite <- app_assoc.
Qed.

(** X8. A flush with no user text leaves the system text out: the block
    is empty, or holds the assistant text alone. So a conversation of
    system turns only compiles to empty blocks, with no character of any
    system text, and a system turn followed by an assistant turn compiles
    to the assistant text alone. *)
Theorem system_text_needs_user_turn :
  (forall st, st_user st = None ->
              render st = match st_assistant st with
                          | Some a => "<s> " ++ a ++ "</s>"
                          | None => ""
                          end)
  /\ (forall ss, _format_messages (map (plain "system") ss)
                 = ok (join LF (map (fun _ => "") ss)))
  /\ (forall s a, _format_messages [plain "system" s; plain "assistant" a]
                  = ok ("<s> " ++ a ++ "</s>")).
Proof.
  split; [| split].
  - intros st H. unfold render. rewrite H. reflexivity.
  - intros [| s ss]; [reflexivity |]. apply format_messages_lines.
    cbn [map turns].
    rewrite (turn_ok (plain "system" s) system (Some s)) by reflexivity.
    rewrite rbind_ok.
    cbn [fst snd _push_state state_get state_set _reset_state
           st_user st_system st_assistant is_None].
    now rewrite turns_system_only.
  - intros s a. reflexivity.
Qed.

Lemma system_text_needs_user_turn_witness :
  render {| st_user := None; st_system := Some "Be brief."; st_assistant := None |}
  = "".
Proof.
  apply (proj1 system_text_needs_user_turn
           {| st_user := None; st_system := Some "Be brief.";
              st_assistant := None |} eq_refl).
Defined.

(** The three turns of one exchange, in an order. *)
Lemma one_block (m1 m2 m3 : Message.t) (r1 r2 r3 : slot) (t1 t2 t3 : string) :
  slot_of_role (Message.role m1) = Some r1 ->
  slot_of_role (Message.role m2) = Some r2 ->
  slot_of_role (Message.role m3) = Some r3 ->
  _format_message_content m1 = ok (Some t1) ->
  _format_message_content m2 = ok (Some t2) ->
  _format_message_content m3 = ok (Some t3) ->
  r1 <> r2 -> r1 <> r3 -> r2 <> r3 ->
  _format_messages [m1; m2; m3]
  = ok (render (state_set (state_set (state_set _reset_state r1 (Some t1))
                             r2 (Some t2)) r3 (Some t3))).
Proof.
  intros S1 S2 S3 C1 C2 C3 N12 N13 N23.
  unfold _format_messages. cbn [turns].
  rewrite (turn_ok m1 r1 (Some t1) _ S1 C1), rbind_ok.
  rewrite (turn_ok m2 r2 (Some t2) _ S2 C2), rbind_ok.
  rewrite (turn_ok m3 r3 (Some t3) _ S3 C3), rbind_ok.
  destruct r1, r2, r3; try congruence; reflexivity.
Qed.

(** X9. The order of the system, user and assistant turn of one exchange
    does not matter: every arrangement of the three turns compiles to the
    same single block. A function turn counts as the user turn. *)
Theorem exchange_order_irrelevant (ms mu ma : Message.t) (s u a : string)
    (messages : list Message.t) :
  slot_of_role (Message.role ms) = Some system ->
  slot_of_role (Message.role mu) = Some user ->
  slot_of_role (Message.role ma) = Some assistant ->
  _format_message_content ms = ok (Some s) ->
  _format_message_content mu = ok (Some u) ->
  _format_message_content ma = ok (Some a) ->
  Permutation [ms; mu; ma] messages ->
  _format_messages messages = ok (full_block s u a).
Proof.
  intros Ss Su Sa Cs Cu Ca P.
  pose proof (Permutation_length P) as L.
  destruct messages as [| x [| y [| z [| w rest]]]]; try discriminate L.
  assert (Hx : In x [ms; mu; ma])
    by (apply (Permutation_in x (Permutation_sym P)); now left).
  assert (Hy : In y [ms; mu; ma])
    by (apply (Permutation_in y (Permutation_sym P)); right; now left).
  assert (Hz : In z [ms; mu; ma])
    by (apply (Permutation_in z (Permutation_sym P)); right; right; now left).
  assert (Hs : In ms [x; y; z]) by (apply (Permutation_in ms P); now left).
  assert (Hu : In mu [x; y; z]) by (apply (Permutation_in mu P); right; now left).
  assert (Ha : In ma [x; y; z])
    by (apply (Permutation_in ma P); right; right; now left).
  rewrite <- render_full.
  destruct Hx as [<- | [<- | [<- | []]]];
    destruct Hy as [<- | [<- | [<- | []]]];
    destruct Hz as [<- | [<- | [<- | []]]];
    try (exfalso;
         repeat match goal with
                | H : In _ _ |- _ =>
                    destruct H as [H | [H | [H | []]]]; try subst
                end; congruence);
    match goal with
    | |- _format_messages [?m1; ?m2; ?m3] = _ =>
        erewrite (one_block m1 m2 m3) by (eassumption || discriminate)
    end; reflexivity.
Qed.

Lemma exchange_order_irrelevant_witness :
  _format_messages [plain "assistant" "Hello"; plain "function" "42";
                    plain "system" "Be brief."]
  = ok (full_block "Be brief." (function_response (Some "42")) "Hello").
Proof.
  apply (exchange_order_irrelevant (plain "system" "Be brief.")
           (plain "function" "42") (plain "assistant" "Hello")
           "Be brief." (function_response (Some "42")) "Hello");
    try reflexivity.
  exact (perm_trans (perm_swap _ _ _)
           (perm_trans (perm_skip _ (perm_swap _ _ _)) (perm_swap _ _ _))).
Defined.

(** ** Turns that fail to format *)

(** X10. The first turn whose content fails to format decides the
    outcome: when the turns before it are of recognised roles and format,
    compiling the turns raises the exception of that turn, and so do the
    prompt, once the tool header is built, and the handler, which hands the
    collaborator back with no call. The exception is the one [json.loads]
    raises on the arguments of the function call the turn prints
    ([JSONDecodeError] for arguments that are not JSON, and any other
    exception of [json.loads] all the same), or [IndexError], for an empty
    [tool_calls] list. *)
Theorem bad_turn_aborts (llm : llama.Llama) (r : Request.t)
    (before : list Message.t) (m : Message.t) (after : list Message.t)
    (header : string) (e : exn) :
  Request.messages r = (before ++ m :: after)%list ->
  Forall (fun m => In (Message.role m) recognised_roles
                   /\ exists t, _format_message_content m = ok t) before ->
  In (Message.role m) recognised_roles ->
  _format_message_content m = raise e ->
  _format_tools (Request.messages r) (Request.functions r) (Request.tools r)
  = ok header ->
  _format_messages (Request.messages r) = raise e
  /\ compile r = raise e
  /\ llama2_functary_chat_completion_handler llm r = (raise e, llm)
  /\ ((exists fc, printed_call m = Some fc
                  /\ json.loads (FunctionCall.arguments fc) = raise e)
      \/ (e = IndexError /\ Message.tool_calls m = Some [])).
Proof.
  intros Hm Hb Hr He Hh.
  assert (H : _format_messages (Request.messages r) = raise e).
  { rewrite Hm. unfold _format_messages. rewrite turns_app.
    destruct (turns_recognised before Hb ([], _reset_state)) as [acc' ->].
    rewrite rbind_ok. cbn [turns]. unfold turn.
    apply slot_of_role_recognised in Hr.
    destruct (slot_of_role (Message.role m)) as [s |]; [| congruence].
    destruct (_push_state (Some s) acc') as [lines st]. now rewrite He. }
  assert (Hc : compile r = raise e).
  { unfold compile. now rewrite Hh, H. }
  split; [exact H | split; [exact Hc | split]].
  - unfold llama2_functary_chat_completion_handler. now rewrite Hc.
  - now apply format_message_content_raises.
Qed.

Lemma bad_turn_aborts_witness :
  llama2_functary_chat_completion_handler (stub "hello")
    (Request.defaults [plain "user" "hi"; calling "weather" "{location: Tokyo}";
                       plain "user" "and tomorrow?"] None)
  = (raise JSONDecodeError, stub "hello")
  /\ llama2_functary_chat_completion_handler (stub "hello")
       (Request.defaults [plain "user" "hi"; calling "weather" (ones 4301)] None)
     = (raise (json.int_too_long 4301), stub "hello").
Proof.
  split.
  - refine (proj1 (proj2 (proj2
              (bad_turn_aborts (stub "hello")
                 (Request.defaults [plain "user" "hi";
                                    calling "weather" "{location: Tokyo}";
                                    plain "user" "and tomorrow?"] None)
                 [plain "user" "hi"] (calling "weather" "{location: Tokyo}")
                 [plain "user" "and tomorrow?"] "" JSONDecodeError
                 eq_refl _ _ eq_refl eq_refl)))).
    + constructor; [| constructor].
      split; [simpl; auto | now exists (Some "hi")].
    + simpl; auto.
  - refine (proj1 (proj2 (proj2
              (bad_turn_aborts (stub "hello")
                 (Request.defaults [plain "user" "hi";
                                    calling "weather" (ones 4301)] None)
                 [plain "user" "hi"] (calling "weather" (ones 4301))
                 [] "" (json.int_too_long 4301)
                 eq_refl _ _ _ eq_refl)))).
    + constructor; [| constructor].
      split; [simpl; auto | now exists (Some "hi")].
    + simpl; auto.
    + vm_compute. reflexivity.
Defined.

(** ** Arguments the handler does not read *)

(** X11. The handler reads none of [functions], [function_call],
    [tool_choice] and [response_format]: whatever they are, the result and
    the calls recorded are the same. In particular functions offered
    through [functions] alone give no header: without tools the prompt is
    the compiled turns. *)
Theorem legacy_arguments_ignored (llm : llama.Llama) (r : Request.t) :
  (forall functions function_call tool_choice response_format,
      llama2_functary_chat_completion_handler llm
        (with_legacy functions function_call tool_choice response_format r)
      = llama2_functary_chat_completion_handler llm r)
  /\ (forall functions function_call tool_choice response_format,
        Request.tools r = None ->
        compile (with_legacy functions function_call tool_choice response_format r)
        = _format_messages (Request.messages r)).
Proof.
  split.
  - reflexivity.
  - intros functions function_call tool_choice response_format Ht.
    unfold compile. cbn [with_legacy Request.messages Request.functions Request.tools].
    rewrite Ht. cbn [_format_tools]. rewrite rbind_ok.
    destruct (_format_messages (Request.messages r)); reflexivity.
Qed.

Lemma legacy_arguments_ignored_witness :
  compile (with_legacy (Some [Tool.function (tool_of weather)])
             (Some (PyStr "auto")) None None
             (Request.defaults [plain "user" "hi"] None))
  = ok "[INST] hi [/INST]".
Proof.
  apply (proj2 (legacy_arguments_ignored (stub "hello")
                  (Request.defaults [plain "user" "hi"] None))
           (Some [Tool.function (tool_of weather)]) (Some (PyStr "auto"))
           None None eq_refl).
Defined.

(** ** Round trips through [json] *)

Module json_roundtrip.
Import json.

Local Open Scope Z_scope.

(** *** Integers *)

Lemma digits_uint (d : Decimal.uint) (rest : string) :
  ends_number rest ->
  digits (NilEmpty.string_of_uint d ++ rest) = (NilEmpty.string_of_uint d, rest).
Proof.
  intros Hr. induction d; simpl; try (rewrite IHd; reflexivity).
  destruct rest as [| c rest]; [reflexivity |].
  simpl. destruct Hr as (-> & _). reflexivity.
Qed.

Lemma int_of_digits_uint (d : Decimal.uint) (acc : Z) :
  int_of_digits acc (NilEmpty.string_of_uint d) = uint_value d acc.
Proof.
  revert acc; induction d; intros acc; simpl; try apply IHd. reflexivity.
Qed.

Lemma uint_value_acc (d : Decimal.uint) (acc : positive) :
  uint_value d (Zpos acc) = Zpos (Pos.of_uint_acc d acc).
Proof.
  revert acc; induction d; intros acc; cbn [uint_value Pos.of_uint_acc];
    try reflexivity; rewrite <- IHd; f_equal; lia.
Qed.

Lemma uint_value_0 (d : Decimal.uint) :
  uint_value d 0 = Z.of_N (Pos.of_uint d).
Proof.
  induction d; cbn [uint_value Pos.of_uint]; try reflexivity;
    try exact IHd; apply uint_value_acc.
Qed.

(** The decimal digits of a positive number start with a digit that is
    not zero. *)
Lemma to_uint_head (p : positive) :
  exists c s, NilEmpty.string_of_uint (Pos.to_uint p) = String c s
              /\ is_digit (byte_of c) = true /\ byte_of c <> 48.
Proof.
  assert (Hn : Decimal.unorm (Pos.to_uint p) = Pos.to_uint p).
  { rewrite <- (DecimalPos.Unsigned.to_of (Pos.to_uint p)).
    now rewrite DecimalPos.Unsigned.of_to. }
  assert (Hz : forall d', Pos.to_uint p <> Decimal.D0 d').
  { intros d' E. rewrite <- Hn in E. unfold Decimal.unorm in E.
    destruct (Decimal.nzhead (Pos.to_uint p)) eqn:Eh;
      try discriminate E.
    - injection E as <-. apply (DecimalPos.Unsigned.to_uint_nonzero p).
      rewrite <- Hn. unfold Decimal.unorm. now rewrite Eh.
    - now apply DecimalFacts.nzhead_nonzero in Eh. }
  pose proof (DecimalPos.Unsigned.to_uint_nonnil p) as Hnil.
  destruct (Pos.to_uint p) as [| d | d | d | d | d | d | d | d | d | d];
    try congruence; try (now elim (Hz d));
    simpl; eexists _, _; (split; [reflexivity |]); split;
      try reflexivity; vm_compute; discriminate.
Qed.

Lemma repr_int_pos (p : positive) :
  repr_int (Zpos p) = NilEmpty.string_of_uint (Pos.to_uint p).
Proof.
  unfold repr_int; simpl. unfold NilZero.string_of_uint.
  pose proof (DecimalPos.Unsigned.to_uint_nonnil p).
  destruct (Pos.to_uint p); congruence.
Qed.

Lemma repr_int_neg (p : positive) :
  repr_int (Zneg p) = String "-" (NilEmpty.string_of_uint (Pos.to_uint p)).
Proof.
  unfold repr_int; simpl. unfold NilZero.string_of_uint.
  pose proof (DecimalPos.Unsigned.to_uint_nonnil p).
  destruct (Pos.to_uint p); congruence.
Qed.

Lemma int_of_digits_pos (p : positive) :
  int_of_digits 0 (NilEmpty.string_of_uint (Pos.to_uint p)) = Zpos p.
Proof.
  now rewrite int_of_digits_uint, uint_value_0, DecimalPos.Unsigned.of_to.
Qed.

Lemma optional_frac (rest : string) :
  ends_number rest -> optional match_frac rest = ("", rest).
Proof.
  unfold optional, match_frac. destruct rest as [| c rest]; [reflexivity |].
  intros (_ & H & _). apply Z.eqb_neq in H. now rewrite H.
Qed.

Lemma optional_exp (rest : string) :
  ends_number rest -> optional match_exp rest = ("", rest).
Proof.
  unfold optional, match_exp. destruct rest as [| c rest]; [reflexivity |].
  intros (_ & _ & H1 & H2). apply Z.eqb_neq in H1, H2. now rewrite H1, H2.
Qed.

(** The digits of a printed integer are those of its absolute value. *)
Lemma digits_of_repr (n : Z) : digits_of (repr_int n) = repr_int (Z.abs n).
Proof.
  destruct n as [| p | p].
  - reflexivity.
  - cbn [Z.abs]. rewrite repr_int_pos.
    destruct (to_uint_head p) as (c & s & -> & Hd & _).
    unfold digits_of.
    assert ((byte_of c =? 45) = false) as ->; [| reflexivity].
    apply Z.eqb_neq. intros H. rewrite H in Hd. discriminate.
  - cbn [Z.abs]. now rewrite repr_int_neg, repr_int_pos.
Qed.

(** A printed integer within the limit is matched as that integer. *)
Lemma match_number_repr (n : Z) (rest : string) :
  ends_number rest ->
  int_within_limit n = true ->
  match_number (repr_int n ++ rest) = Some (ok (PyInt n), rest).
Proof.
  intros Hr Hlim. unfold match_number.
  assert (Hi : match_integer (repr_int n ++ rest) = Some (repr_int n, rest)
               /\ int_of (repr_int n) = n).
  { destruct n as [| p | p].
    - split; [| reflexivity]. reflexivity.
    - rewrite repr_int_pos.
      destruct (to_uint_head p) as (c & s & E & Hd & Hz).
      split.
      + unfold match_integer. rewrite E. simpl.
        assert ((byte_of c =? 45) = false) as ->.
        { apply Z.eqb_neq. intros H. rewrite H in Hd. discriminate. }
        simpl. apply Z.eqb_neq in Hz. rewrite Hz, Hd.
        assert (Hdig : digits (s ++ rest) = (s, rest)).
        { pose proof (digits_uint (Pos.to_uint p) rest Hr) as D.
          rewrite E in D. simpl in D. rewrite Hd in D.
          destruct (digits (s ++ rest)) as [d r]. now injection D as -> ->. }
        now rewrite Hdig.
      + unfold int_of. pose proof (int_of_digits_pos p) as V.
        rewrite E in V |- *.
        assert ((byte_of c =? 45) = false) as ->; [| exact V].
        apply Z.eqb_neq. intros H. rewrite H in Hd. discriminate.
    - rewrite repr_int_neg.
      destruct (to_uint_head p) as (c & s & E & Hd & Hz).
      split.
      + unfold match_integer. simpl. rewrite E. simpl.
        apply Z.eqb_neq in Hz. rewrite Hz, Hd.
        assert (Hdig : digits (s ++ rest) = (s, rest)).
        { pose proof (digits_uint (Pos.to_uint p) rest Hr) as D.
          rewrite E in D. simpl in D. rewrite Hd in D.
          destruct (digits (s ++ rest)) as [d r]. now injection D as -> ->. }
        now rewrite Hdig.
      + unfold int_of. simpl. now rewrite int_of_digits_pos. }
  destruct Hi as [-> Hv].
  rewrite (optional_frac rest Hr), (optional_exp rest Hr).
  unfold parse_int. rewrite digits_of_repr, Hv.
  unfold int_within_limit in Hlim. apply Nat.leb_le in Hlim.
  destruct (Nat.ltb_spec int_max_str_digits (String.length (repr_int (Z.abs n))))
    as [L | L]; [lia | reflexivity].
Qed.

(** *** Strings *)

Lemma byte_of_chr (n : Z) : 0 <= n < 256 -> byte_of (chr n) = n.
Proof.
  intros H. unfold byte_of, chr.
  rewrite nat_ascii_embedding by lia. lia.
Qed.

Lemma concat_cons (x : string) (xs : list string) :
  String.concat "" (x :: xs) = (x ++ String.concat "" xs)%string.
Proof.
  destruct xs as [| y ys]; simpl; [now rewrite append_nil_r | reflexivity].
Qed.

Lemma scalar_bounds (u : Z) :
  scalar u = true -> 0 <= u < 1114112 /\ (u < 55296 \/ 57343 < u).
Proof. unfold scalar. lia. Qed.

Lemma hex_digit_char (d : Z) :
  0 <= d < 16 ->
  exists c, hex_digit d = String c "" /\ hex_value (byte_of c) = Some d.
Proof.
  intros H.
  assert (E : d = 0 \/ d = 1 \/ d = 2 \/ d = 3 \/ d = 4 \/ d = 5 \/ d = 6
              \/ d = 7 \/ d = 8 \/ d = 9 \/ d = 10 \/ d = 11 \/ d = 12
              \/ d = 13 \/ d = 14 \/ d = 15) by lia.
  repeat (destruct E as [-> | E]); try subst d;
    eexists; split; reflexivity.
Qed.

(** The escape of a code point of the basic plane: a backslash, [u] and
    four digits that decode to it. *)
Lemma u_escape_shape (u : Z) :
  0 <= u < 65536 ->
  exists c1 c2 c3 c4,
    u_escape u
    = String (chr 92) (String "u" (String c1 (String c2 (String c3 (String c4 "")))))
    /\ decode_uXXXX c1 c2 c3 c4 = Some u.
Proof.
  intros H. unfold u_escape.
  destruct (hex_digit_char ((u / 4096) mod 16)) as (c1 & -> & H1);
    [Z.div_mod_to_equations; lia |].
  destruct (hex_digit_char ((u / 256) mod 16)) as (c2 & -> & H2);
    [Z.div_mod_to_equations; lia |].
  destruct (hex_digit_char ((u / 16) mod 16)) as (c3 & -> & H3);
    [Z.div_mod_to_equations; lia |].
  destruct (hex_digit_char (u mod 16)) as (c4 & -> & H4);
    [Z.div_mod_to_equations; lia |].
  exists c1, c2, c3, c4. split; [reflexivity |].
  unfold decode_uXXXX. rewrite H1, H2, H3, H4. f_equal.
  Z.div_mod_to_equations; lia.
Qed.

Lemma emit_some (chunk : string) (o : option (string * string))
    (content rest : string) :
  o = Some (content, rest) ->
  emit chunk o = Some ((chunk ++ content)%string, rest).
Proof. intros ->. reflexivity. Qed.

(** One escaped code point in front of input that scans. *)
Lemma scanstring_escape (u : Z) (tail content rest : string) :
  scalar u = true ->
  scanstring tail = Some (content, rest) ->
  scanstring (escape u ++ tail) = Some ((utf8 u ++ content)%string, rest).
Proof.
  intros Hs Ht. apply scalar_bounds in Hs. unfold escape.
  destruct (Z.eqb_spec u 34) as [-> | N34]; [now rewrite <- (emit_some _ _ _ _ Ht) |].
  destruct (Z.eqb_spec u 92) as [-> | N92]; [now rewrite <- (emit_some _ _ _ _ Ht) |].
  destruct (Z.eqb_spec u 10) as [-> | N10]; [now rewrite <- (emit_some _ _ _ _ Ht) |].
  destruct (Z.eqb_spec u 13) as [-> | N13]; [now rewrite <- (emit_some _ _ _ _ Ht) |].
  destruct (Z.eqb_spec u 9) as [-> | N9]; [now rewrite <- (emit_some _ _ _ _ Ht) |].
  destruct (Z.eqb_spec u 12) as [-> | N12]; [now rewrite <- (emit_some _ _ _ _ Ht) |].
  destruct (Z.eqb_spec u 8) as [-> | N8]; [now rewrite <- (emit_some _ _ _ _ Ht) |].
  destruct ((32 <=? u) && (u <=? 126)) eqn:Ep.
  { assert (Hb : byte_of (chr u) = u) by (apply byte_of_chr; lia).
    unfold str1. cbn [append scanstring]. rewrite Hb.
    replace (u =? 34) with false by lia.
    replace (u <? 32) with false by lia.
    replace (u =? 92) with false by lia. cbn [negb].
    rewrite (emit_some _ _ _ _ Ht). unfold utf8, str1.
    replace (u <? 128) with true by lia. reflexivity. }
  destruct (Z.ltb_spec u 65536) as [Lt | Ge].
  - destruct (u_escape_shape u) as (c1 & c2 & c3 & c4 & -> & Hd); [lia |].
    cbn [append scanstring]. rewrite Hd.
    change (byte_of (chr 92) =? 34) with false.
    change (byte_of (chr 92) <? 32) with false.
    change (negb (byte_of (chr 92) =? 92)) with false.
    change (negb (byte_of "u" =? 117)) with false. cbv iota.
    assert (Hh : is_high_surrogate u = false) by (unfold is_high_surrogate; lia).
    rewrite Hh. cbn [andb].
    rewrite (emit_some _ _ _ _ Ht).
    destruct tail as [| b1 [| b2 s8]]; reflexivity.
  - set (v := u - 65536).
    destruct (u_escape_shape (55296 + (v / 1024) mod 1024))
      as (c1 & c2 & c3 & c4 & -> & Hd1);
      [unfold v; Z.div_mod_to_equations; lia |].
    destruct (u_escape_shape (56320 + v mod 1024))
      as (l1 & l2 & l3 & l4 & -> & Hd2);
      [unfold v; Z.div_mod_to_equations; lia |].
    cbn [append scanstring]. rewrite Hd1.
    change (byte_of (chr 92) =? 34) with false.
    change (byte_of (chr 92) <? 32) with false.
    change (negb (byte_of (chr 92) =? 92)) with false.
    change (negb (byte_of "u" =? 117)) with false.
    change (byte_of (chr 92) =? 92) with true.
    change (byte_of "u" =? 117) with true. cbv iota.
    assert (Hh : is_high_surrogate (55296 + (v / 1024) mod 1024) = true)
      by (unfold is_high_surrogate, v; Z.div_mod_to_equations; lia).
    rewrite Hh. cbn [andb]. rewrite Hd2.
    assert (Hl : is_low_surrogate (56320 + v mod 1024) = true)
      by (unfold is_low_surrogate, v; Z.div_mod_to_equations; lia).
    rewrite Hl.
    replace (65536 + (55296 + (v / 1024) mod 1024 - 55296) * 1024
             + (56320 + v mod 1024 - 56320)) with u
      by (unfold v; Z.div_mod_to_equations; lia).
    now rewrite (emit_some _ _ _ _ Ht).
Qed.

(** A printed string is scanned back. *)
Lemma scanstring_escaped (cps : list Z) (rest : string) :
  forallb scalar cps = true ->
  scanstring (String.concat "" (map escape cps) ++ str1 34 ++ rest)
  = Some (String.concat "" (map utf8 cps), rest).
Proof.
  induction cps as [| u cps IH]; intros H.
  - reflexivity.
  - simpl in H. apply andb_prop in H. destruct H as [Hu Hc].
    cbn [map]. rewrite !concat_cons, append_assoc.
    apply scanstring_escape; [exact Hu | now apply IH].
Qed.

Lemma scanstring_encoded (s rest : string) :
  text_ok s = true ->
  exists tail,
    (encode_basestring_ascii s ++ rest)%string = String (chr 34) tail
    /\ scanstring tail = Some (s, rest).
Proof.
  unfold text_ok. intros H. apply andb_prop in H. destruct H as [He Hs].
  apply String.eqb_eq in He.
  exists (String.concat "" (map escape (code_points s)) ++ str1 34 ++ rest)%string.
  split.
  - unfold encode_basestring_ascii. now rewrite !append_assoc.
  - rewrite scanstring_escaped by exact Hs. now rewrite He.
Qed.

(** *** More budget changes nothing *)

Lemma scan_stable (n : nat) :
  (forall s m, (n <= m)%nat -> scan_once n s <> Exhausted ->
               scan_once m s = scan_once n s)
  /\ (forall s m, (n <= m)%nat -> array_items n s <> Exhausted ->
                  array_items m s = array_items n s)
  /\ (forall s m, (n <= m)%nat -> object_items n s <> Exhausted ->
                  object_items m s = object_items n s).
Proof.
  induction n as [| n (IHv & IHa & IHo)].
  { repeat split; intros s m _ H; now elim H. }
  split; [| split]; intros s m Hm; (destruct m as [| m]; [lia |]);
    assert (Hm' : (n <= m)%nat) by lia.
  - destruct s as [| c s1]; [reflexivity |]. cbn [scan_once].
    destruct (byte_of c =? 34); [reflexivity |].
    destruct (byte_of c =? 123).
    { destruct (skip_ws s1) as [| c1 r1]; [reflexivity |].
      destruct (byte_of c1 =? 125); [reflexivity |].
      destruct (byte_of c1 =? 34); [| reflexivity].
      intros H. rewrite (IHo r1 m Hm'); [reflexivity |].
      intros E. rewrite E in H. now elim H. }
    destruct (byte_of c =? 91); [| reflexivity].
    destruct (skip_ws s1) as [| c1 r1]; [reflexivity |].
    destruct (byte_of c1 =? 93); [reflexivity |].
    intros H. rewrite (IHa (String c1 r1) m Hm'); [reflexivity |].
    intros E. rewrite E in H. now elim H.
  - cbn [array_items]. intros H.
    rewrite (IHv s m Hm'); [| intros E; rewrite E in H; now elim H].
    destruct (scan_once n s) as [v r0 | | |]; try reflexivity.
    destruct (skip_ws r0) as [| c r1]; [reflexivity |].
    destruct (byte_of c =? 93); [reflexivity |].
    destruct (byte_of c =? 44); [| reflexivity].
    rewrite (IHa (skip_ws r1) m Hm'); [reflexivity |].
    intros E. rewrite E in H. now elim H.
  - cbn [object_items]. intros H.
    destruct (scanstring s) as [[key r0] |]; [| reflexivity].
    destruct (skip_ws r0) as [| c r1]; [reflexivity |].
    destruct (negb (byte_of c =? 58)); [reflexivity |].
    rewrite (IHv (skip_ws r1) m Hm'); [| intros E; rewrite E in H; now elim H].
    destruct (scan_once n (skip_ws r1)) as [v r2 | | |]; try reflexivity.
    destruct (skip_ws r2) as [| c2 r3]; [reflexivity |].
    destruct (byte_of c2 =? 125); [reflexivity |].
    destruct (byte_of c2 =? 44); [| reflexivity].
    destruct (skip_ws r3) as [| c3 r4]; [reflexivity |].
    destruct (byte_of c3 =? 34); [| reflexivity].
    rewrite (IHo r4 m Hm'); [reflexivity |].
    intros E. rewrite E in H. now elim H.
Qed.

(** What some budget scans, [loads] scans. *)
Lemma loads_scanned (s : string) (n : nat) (v : value) :
  scan_once n s = Scanned v "" ->
  skip_ws s = s ->
  loads s = ok v.
Proof.
  intros H Hw. unfold loads. rewrite Hw.
  pose proof (json_facts.loads_budget s) as B. rewrite Hw in B.
  assert (E : scan_once (Nat.max n (budget s)) s = Scanned v "").
  { rewrite (proj1 (scan_stable n) s _ (Nat.le_max_l _ _)); [exact H |].
    rewrite H. discriminate. }
  rewrite (proj1 (scan_stable (budget s)) s _ (Nat.le_max_r _ _) B) in E.
  now rewrite E.
Qed.

(** *** Whitespace and the shape of printed values *)

Lemma skip_ws_blank (w s : string) :
  blank w = true -> skip_ws (w ++ s) = skip_ws s.
Proof.
  induction w as [| c w IH]; simpl; [reflexivity |].
  intros H. apply andb_prop in H. destruct H as [-> H]. now apply IH.
Qed.

Lemma blank_spaces (n : nat) : blank (spaces n) = true.
Proof. induction n; simpl; [reflexivity | exact IHn]. Qed.

Lemma blank_newline_indent (indent : option nat) (level : nat) :
  blank (newline_indent indent level) = true.
Proof.
  unfold newline_indent. destruct indent; [| reflexivity].
  simpl. apply blank_spaces.
Qed.

(** The separator of items: a comma and whitespace. *)
Lemma separator_shape (indent : option nat) (level : nat) :
  exists w, separator indent level = String "," w /\ blank w = true.
Proof.
  unfold separator. destruct indent.
  - eexists. split; [reflexivity | apply blank_newline_indent].
  - eexists. split; reflexivity.
Qed.

Lemma skip_ws_starts (s : string) (P : Z -> Prop) :
  starts s P -> skip_ws s = s.
Proof. intros (c & t & -> & H & _). simpl. now rewrite H. Qed.

Lemma starts_app (s t : string) (P : Z -> Prop) :
  starts s P -> starts (s ++ t) P.
Proof.
  intros (c & u & -> & H). exists c, (u ++ t)%string. split; [reflexivity | exact H].
Qed.

(** Whitespace, then a closing bracket or a comma: a number ends there. *)
Lemma ends_number_blank (w : string) (c : ascii) (t : string) :
  blank w = true ->
  is_digit (byte_of c) = false -> byte_of c <> 46 ->
  byte_of c <> 101 -> byte_of c <> 69 ->
  ends_number (w ++ String c t).
Proof.
  intros Hw H1 H2 H3 H4. destruct w as [| b w]; simpl; [now repeat split |].
  simpl in Hw. apply andb_prop in Hw. destruct Hw as [Hb _].
  unfold is_ws in Hb. unfold is_digit. lia.
Qed.

Lemma repr_int_head (n : Z) :
  exists c t, repr_int n = String c t
              /\ (is_digit (byte_of c) = true \/ byte_of c = 45).
Proof.
  destruct n as [| p | p].
  - eexists _, _. split; [reflexivity | now left].
  - rewrite repr_int_pos. destruct (to_uint_head p) as (c & s & -> & Hd & _).
    eexists _, _. split; [reflexivity | now left].
  - rewrite repr_int_neg. eexists _, _. split; [reflexivity | now right].
Qed.

(** A printed value starts with a character that is neither whitespace nor
    a closing bracket. *)
Lemma iterencode_starts (indent : option nat) (level : nat) (v : value) :
  json_safe v = true ->
  starts (iterencode indent level v) (fun b => b <> 93 /\ b <> 125).
Proof.
  intros H. unfold starts.
  destruct v as [| [|] | n | l | s | [| x l] | [| kv d]]; try discriminate H;
    try (eexists _, _; split; [reflexivity |]; split;
         [reflexivity | split; discriminate]).
  destruct (repr_int_head n) as (c & t & E & Hc).
  exists c, t. cbn [iterencode]. split; [exact E |].
  unfold is_ws, is_digit in *. lia.
Qed.

(** *** Dicts *)

Lemma existsb_eqb_false (k : string) (keys : list string) :
  existsb (String.eqb k) keys = false -> ~ In k keys.
Proof.
  induction keys as [| k' keys IH]; simpl; [tauto |].
  intros H. apply orb_false_elim in H. destruct H as [H1 H2].
  apply String.eqb_neq in H1. intros [E | E]; [congruence | now apply IH].
Qed.

Lemma dict_set_fresh (k : string) (v : value) (d : list (string * value)) :
  ~ In k (map fst d) -> dict_set k v d = (d ++ [(k, v)])%list.
Proof.
  induction d as [| [k' v'] d IH]; simpl; [reflexivity |].
  intros H. destruct (String.eqb_spec k k') as [-> | N]; [tauto |].
  rewrite IH; tauto.
Qed.

Lemma dict_fold (pairs acc : list (string * value)) :
  distinct (map fst pairs) = true ->
  (forall k, In k (map fst pairs) -> ~ In k (map fst acc)) ->
  fold_left (fun d kv => dict_set (fst kv) (snd kv) d) pairs acc
  = (acc ++ pairs)%list.
Proof.
  revert acc; induction pairs as [| [k v] pairs IH]; intros acc Hd Hf.
  - now rewrite List.app_nil_r.
  - simpl in Hd. apply andb_prop in Hd. destruct Hd as [Hk Hd].
    apply negb_true_iff, existsb_eqb_false in Hk.
    cbn [fold_left fst snd].
    rewrite dict_set_fresh by (apply Hf; now left).
    rewrite IH; [now rewrite <- List.app_assoc | exact Hd |].
    intros k' Hin. rewrite map_app, in_app_iff. simpl.
    intros [H | [<- | []]]; [| tauto].
    revert H. apply Hf. now right.
Qed.

Lemma dict_distinct (pairs : list (string * value)) :
  distinct (map fst pairs) = true -> dict pairs = pairs.
Proof.
  intros H. unfold dict. rewrite dict_fold; [reflexivity | exact H |].
  intros k _ [].
Qed.

(** *** Printed values are scanned back *)

Lemma value_nested_ind (P : value -> Prop) :
  P PyNone -> (forall b, P (PyBool b)) -> (forall n, P (PyInt n)) ->
  (forall l, P (PyFloat l)) -> (forall s, P (PyStr s)) ->
  (forall l, Forall P l -> P (PyList l)) ->
  (forall d, Forall (fun kv => P (snd kv)) d -> P (PyDict d)) ->
  forall v, P v.
Proof.
  intros HN HB HI HF HS HL HD.
  refine (fix IH (v : value) : P v :=
            match v with
            | PyNone => HN
            | PyBool b => HB b
            | PyInt n => HI n
            | PyFloat l => HF l
            | PyStr s => HS s
            | PyList l =>
                HL l ((fix all (l : list value) : Forall P l :=
                         match l with
                         | [] => Forall_nil P
                         | x :: l' => Forall_cons x (IH x) (all l')
                         end) l)
            | PyDict d =>
                HD d ((fix all (d : list (string * value))
                        : Forall (fun kv => P (snd kv)) d :=
                         match d with
                         | [] => Forall_nil _
                         | kv :: d' => Forall_cons kv (IH (snd kv)) (all d')
                         end) d)
            end).
Qed.

Lemma strip_prefix_mismatch (a : ascii) (p : string) (c : ascii) (s : string) :
  byte_of a <> byte_of c -> strip_prefix (String a p) (String c s) = None.
Proof.
  intros H. simpl. destruct (Ascii.eqb_spec a c) as [-> | N]; [now elim H | reflexivity].
Qed.

Lemma scans_back_int (n : Z) : int_within_limit n = true -> scans_back (PyInt n).
Proof.
  intros Hlim indent level rest k Hr Hk. cbn [iterencode].
  destruct k as [| k]; [simpl in Hk; lia |].
  pose proof (match_number_repr n rest Hr Hlim) as M.
  destruct (repr_int_head n) as (c & t & E & Hc). rewrite E in M |- *.
  cbn [append scan_once].
  assert (Hb : (byte_of c =? 34) = false /\ (byte_of c =? 123) = false
               /\ (byte_of c =? 91) = false)
    by (unfold is_digit in Hc; lia).
  destruct Hb as (-> & -> & ->).
  unfold scan_literal.
  rewrite !strip_prefix_mismatch
    by (unfold is_digit in Hc; change (byte_of "n") with 110;
        change (byte_of "t") with 116; change (byte_of "f") with 102; lia).
  cbn [append] in M. now rewrite M.
Qed.

Lemma scans_back_str (s : string) : text_ok s = true -> scans_back (PyStr s).
Proof.
  intros H indent level rest k Hr Hk. cbn [iterencode].
  destruct k as [| k]; [simpl in Hk; lia |].
  destruct (scanstring_encoded s rest H) as (tail & -> & Ht).
  cbn [scan_once]. change (byte_of (chr 34) =? 34) with true.
  cbv iota. now rewrite Ht.
Qed.

Lemma ends_number_close (w : string) (c : ascii) (t : string) :
  blank w = true -> In (byte_of c) [93; 125; 44] ->
  ends_number (w ++ String c t).
Proof.
  intros Hw Hc. apply ends_number_blank; try exact Hw;
    simpl in Hc; unfold is_digit; lia.
Qed.

(** The items of a list, from the first item to the closing bracket. *)
Lemma array_items_join (indent : option nat) (lv : nat) (sepw closew : string)
    (items : list value) :
  Forall scans_back items ->
  forallb json_safe items = true ->
  items <> [] ->
  blank sepw = true -> blank closew = true ->
  forall rest n,
    (length items + list_sum (map fuel_of items) <= n)%nat ->
    array_items n (join (String "," sepw) (map (iterencode indent lv) items)
                     ++ closew ++ String "]" rest)
    = Scanned items rest.
Proof.
  intros Hall Hsafe Hne Hs Hc.
  induction Hall as [| x items Hx Hall IH]; [congruence |].
  intros rest n Hn. cbn [forallb] in Hsafe.
  apply andb_prop in Hsafe. destruct Hsafe as [Sx Sl].
  cbn [length map list_sum fold_right] in Hn.
  destruct n as [| g]; [lia |].
  destruct items as [| y items].
  - cbn [map join array_items].
    rewrite (Hx indent lv (closew ++ String "]" rest)%string g);
      [| apply ends_number_close; [exact Hc | simpl; auto] | lia].
    rewrite (skip_ws_blank closew _ Hc). reflexivity.
  - change (join (String "," sepw) (map (iterencode indent lv) (x :: y :: items)))
      with (iterencode indent lv x
              ++ String "," sepw
              ++ join (String "," sepw) (map (iterencode indent lv) (y :: items)))%string.
    rewrite !append_assoc. cbn [array_items].
    rewrite (Hx indent lv _ g);
      [| apply (ends_number_close "" ","); [reflexivity | simpl; auto] | lia].
    cbn [append skip_ws]. change (is_ws (byte_of ",")) with false. cbv iota.
    change (byte_of "," =? 93) with false. change (byte_of "," =? 44) with true.
    cbv iota. rewrite (skip_ws_blank sepw _ Hs).
    assert (Hst : starts (join (String "," sepw)
                            (map (iterencode indent lv) (y :: items))
                          ++ closew ++ String "]" rest)
                    (fun b => b <> 93 /\ b <> 125)).
    { apply starts_app. cbn [forallb] in Sl. apply andb_prop in Sl.
      destruct items; cbn [map join];
        [| apply starts_app]; apply iterencode_starts, Sl. }
    rewrite (skip_ws_starts _ _ Hst).
    rewrite IH; [reflexivity | exact Sl | discriminate |].
    cbn [length map list_sum fold_right] in Hn |- *. lia.
Qed.

(** The items of a dict, from after the opening quote of the first key to
    the closing bracket. *)
Lemma object_items_join (indent : option nat) (lv : nat) (sepw closew : string)
    (d : list (string * value)) :
  Forall (fun kv => scans_back (snd kv)) d ->
  forallb (fun kv => text_ok (fst kv) && json_safe (snd kv)) d = true ->
  d <> [] ->
  blank sepw = true -> blank closew = true ->
  forall rest n,
    (length d + list_sum (map (fun kv => fuel_of (snd kv)) d) <= n)%nat ->
    exists tail,
      (join (String "," sepw)
         (map (fun kv => encode_basestring_ascii (fst kv) ++ ": "
                           ++ iterencode indent lv (snd kv)) d)
         ++ closew ++ String "}" rest)%string
      = String (chr 34) tail
      /\ object_items n tail = Scanned d rest.
Proof.
  intros Hall Hsafe Hne Hs Hc.
  induction Hall as [| [k x] d Hx Hall IH]; [congruence |].
  intros rest n Hn. cbn [forallb fst snd] in Hsafe.
  apply andb_prop in Hsafe. destruct Hsafe as [Sx Sl].
  apply andb_prop in Sx. destruct Sx as [Sk Sx].
  cbn [length map list_sum fold_right fst snd] in Hn. cbn [snd] in Hx.
  destruct n as [| g]; [lia |].
  assert (Colon : forall R g',
             (fuel_of x <= g')%nat -> ends_number R ->
             scan_once g' (skip_ws (String " " (iterencode indent lv x ++ R)))
             = Scanned x R).
  { intros R g' Hg HR. cbn [skip_ws]. change (is_ws (byte_of " ")) with true.
    cbv iota.
    rewrite (skip_ws_starts _ _ (starts_app _ R _ (iterencode_starts indent lv x Sx))).
    now apply Hx. }
  destruct d as [| kv2 d].
  - cbn [map join fst snd]. rewrite !append_assoc.
    destruct (scanstring_encoded k
                (": " ++ iterencode indent lv x ++ closew ++ String "}" rest) Sk)
      as (tail & E & Ht).
    exists tail. split; [exact E |].
    cbn [object_items]. rewrite Ht. cbn [append skip_ws].
    change (is_ws (byte_of ":")) with false. cbv iota.
    change (negb (byte_of ":" =? 58)) with false. cbv iota.
    rewrite Colon; [| lia | apply ends_number_close; [exact Hc | simpl; auto]].
    rewrite (skip_ws_blank closew _ Hc). reflexivity.
  - destruct (IH Sl ltac:(discriminate) rest g) as (tail' & E' & Ho).
    { cbn [length map list_sum fold_right fst snd] in Hn |- *. lia. }
    change (join (String "," sepw)
              (map (fun kv => encode_basestring_ascii (fst kv) ++ ": "
                                ++ iterencode indent lv (snd kv))
                 ((k, x) :: kv2 :: d)))
      with ((encode_basestring_ascii k ++ ": " ++ iterencode indent lv x)
              ++ String "," sepw
              ++ join (String "," sepw)
                   (map (fun kv => encode_basestring_ascii (fst kv) ++ ": "
                                     ++ iterencode indent lv (snd kv))
                      (kv2 :: d)))%string.
    rewrite !append_assoc. rewrite E'.
    destruct (scanstring_encoded k
                (": " ++ iterencode indent lv x
                   ++ String "," (sepw ++ String (chr 34) tail')) Sk)
      as (tail & E & Ht).
    exists tail. split; [exact E |].
    cbn [object_items]. rewrite Ht. cbn [append skip_ws].
    change (is_ws (byte_of ":")) with false. cbv iota.
    change (negb (byte_of ":" =? 58)) with false. cbv iota.
    rewrite Colon;
      [| lia | apply (ends_number_close "" ","); [reflexivity | simpl; auto]].
    cbn [skip_ws]. change (is_ws (byte_of ",")) with false. cbv iota.
    change (byte_of "," =? 125) with false. change (byte_of "," =? 44) with true.
    cbv iota. rewrite (skip_ws_blank sepw _ Hs). cbn [skip_ws].
    change (is_ws (byte_of (chr 34))) with false. cbv iota.
    change (byte_of (chr 34) =? 34) with true. cbv iota.
    now rewrite Ho.
Qed.

Lemma forallb_Forall_scans_back (l : list value) :
  Forall (fun v => json_safe v = true -> ints_within_limit v = true ->
                   scans_back v) l ->
  forallb json_safe l = true -> forallb ints_within_limit l = true ->
  Forall scans_back l.
Proof.
  induction 1 as [| x l Hx _ IH]; intros H L; constructor;
    cbn [forallb] in H, L; apply andb_prop in H; destruct H as [H1 H2];
    apply andb_prop in L; destruct L as [L1 L2]; auto.
Qed.

Lemma forallb_Forall_scans_back_items (d : list (string * value)) :
  Forall (fun kv => json_safe (snd kv) = true ->
                    ints_within_limit (snd kv) = true -> scans_back (snd kv)) d ->
  forallb (fun kv => text_ok (fst kv) && json_safe (snd kv)) d = true ->
  forallb (fun kv => ints_within_limit (snd kv)) d = true ->
  Forall (fun kv => scans_back (snd kv)) d.
Proof.
  induction 1 as [| x l Hx _ IH]; intros H L; constructor;
    cbn [forallb] in H, L; apply andb_prop in H; destruct H as [H1 H2];
    apply andb_prop in L; destruct L as [L1 L2];
    apply andb_prop in H1; destruct H1 as [_ H1]; auto.
Qed.

(** Every safe value whose ints are within the limit is scanned back from
    its printed form, whatever the indent. *)
Lemma scans_back_safe (v : value) :
  json_safe v = true -> ints_within_limit v = true -> scans_back v.
Proof.
  induction v as [| b | n | l | s | l IH | d IH] using value_nested_ind;
    intros Hs Hlim.
  - intros indent level rest n _ Hn. destruct n; [simpl in Hn; lia | reflexivity].
  - intros indent level rest n _ Hn.
    destruct n; [simpl in Hn; lia |]. destruct b; reflexivity.
  - now apply scans_back_int.
  - discriminate.
  - now apply scans_back_str.
  - cbn [json_safe] in Hs. cbn [ints_within_limit] in Hlim.
    pose proof (forallb_Forall_scans_back l IH Hs Hlim) as Hall.
    intros indent level rest n Hr Hn. cbn [fuel_of] in Hn.
    destruct n as [| g]; [lia |].
    destruct l as [| x l]; [reflexivity |].
    destruct (separator_shape indent (S level)) as (sepw & Esep & Bsep).
    change (iterencode indent level (PyList (x :: l)))
      with ("[" ++ newline_indent indent (S level)
              ++ join (separator indent (S level))
                   (map (iterencode indent (S level)) (x :: l))
              ++ newline_indent indent level ++ "]")%string.
    rewrite Esep, !append_assoc. cbn [append scan_once].
    change (byte_of "[" =? 34) with false. change (byte_of "[" =? 123) with false.
    change (byte_of "[" =? 91) with true. cbv iota.
    rewrite (skip_ws_blank _ _ (blank_newline_indent indent (S level))).
    assert (Hst : starts (join (String "," sepw)
                            (map (iterencode indent (S level)) (x :: l))
                          ++ newline_indent indent level ++ String "]" rest)
                    (fun b => b <> 93 /\ b <> 125)).
    { apply starts_app. cbn [forallb] in Hs. apply andb_prop in Hs.
      destruct l; cbn [map join];
        [| apply starts_app]; apply iterencode_starts, Hs. }
    rewrite (skip_ws_starts _ _ Hst).
    pose proof (array_items_join indent (S level) sepw
                  (newline_indent indent level) (x :: l) Hall Hs
                  ltac:(discriminate) Bsep (blank_newline_indent indent level)
                  rest g ltac:(lia)) as A.
    destruct Hst as (c & t & E & _ & N93 & _). rewrite E in A |- *.
    apply Z.eqb_neq in N93. rewrite N93. now rewrite A.
  - cbn [json_safe] in Hs. apply andb_prop in Hs. destruct Hs as [Hd Hs].
    cbn [ints_within_limit] in Hlim.
    pose proof (forallb_Forall_scans_back_items d IH Hs Hlim) as Hall.
    intros indent level rest n Hr Hn. cbn [fuel_of] in Hn.
    destruct n as [| g]; [lia |].
    destruct d as [| kv d]; [reflexivity |].
    destruct (separator_shape indent (S level)) as (sepw & Esep & Bsep).
    change (iterencode indent level (PyDict (kv :: d)))
      with ("{" ++ newline_indent indent (S level)
              ++ join (separator indent (S level))
                   (map (fun kv => encode_basestring_ascii (fst kv) ++ ": "
                                     ++ iterencode indent (S level) (snd kv))
                      (kv :: d))
              ++ newline_indent indent level ++ "}")%string.
    rewrite Esep, !append_assoc. cbn [append scan_once].
    change (byte_of "{" =? 34) with false. change (byte_of "{" =? 123) with true.
    cbv iota.
    rewrite (skip_ws_blank _ _ (blank_newline_indent indent (S level))).
    destruct (object_items_join indent (S level) sepw
                (newline_indent indent level) (kv :: d) Hall Hs
                ltac:(discriminate) Bsep (blank_newline_indent indent level)
                rest g ltac:(lia)) as (tail & E & Ho).
    cbn [append] in E. rewrite E.
    cbn [skip_ws]. change (is_ws (byte_of (chr 34))) with false.
    cbv iota. change (byte_of (chr 34) =? 125) with false.
    change (byte_of (chr 34) =? 34) with true. cbv iota.
    rewrite Ho. now rewrite (dict_distinct _ Hd).
Qed.

(** [json.loads(json.dumps(v, indent=indent))] is [v] for a safe value
    whose ints are within the limit. *)
Lemma loads_dumps (v : value) (indent : option nat) :
  json_safe v = true -> ints_within_limit v = true ->
  loads (dumps v indent) = ok v.
Proof.
  intros Hs Hlim. unfold dumps.
  apply (loads_scanned _ (fuel_of v)).
  - pose proof (scans_back_safe v Hs Hlim indent 0%nat "" (fuel_of v) I (le_n _))
      as H.
    now rewrite append_nil_r in H.
  - apply (skip_ws_starts _ _ (iterencode_starts indent 0 v Hs)).
Qed.

(** *** Decoded ints are within the limit *)

Lemma digit_string (c : ascii) (d : Decimal.uint) :
  is_digit (byte_of c) = true ->
  exists d', String c (NilEmpty.string_of_uint d) = NilEmpty.string_of_uint d'.
Proof.
  intros H.
  destruct c as [[] [] [] [] [] [] [] []]; vm_compute in H; try discriminate H;
    first [ now exists (Decimal.D0 d) | now exists (Decimal.D1 d)
          | now exists (Decimal.D2 d) | now exists (Decimal.D3 d)
          | now exists (Decimal.D4 d) | now exists (Decimal.D5 d)
          | now exists (Decimal.D6 d) | now exists (Decimal.D7 d)
          | now exists (Decimal.D8 d) | now exists (Decimal.D9 d) ].
Qed.

Lemma digits_string (s ds r : string) :
  digits s = (ds, r) -> exists d, ds = NilEmpty.string_of_uint d.
Proof.
  revert ds r; induction s as [| c s IH]; intros ds r; simpl.
  - intros [= <- _]. now exists Decimal.Nil.
  - destruct (is_digit (byte_of c)) eqn:Hc.
    + destruct (digits s) as [d' r'] eqn:E. intros [= <- _].
      destruct (IH d' r' eq_refl) as (d0 & ->).
      destruct (digit_string c d0 Hc) as (d1 & ->). now exists d1.
    + intros [= <- _]. now exists Decimal.Nil.
Qed.

Lemma length_string_of_uint (d : Decimal.uint) :
  String.length (NilEmpty.string_of_uint d) = Decimal.nb_digits d.
Proof. induction d; simpl; congruence. Qed.

Lemma repr_int_N (m : N) :
  repr_int (Z.of_N m) = NilEmpty.string_of_uint (N.to_uint m).
Proof. destruct m; [reflexivity | apply repr_int_pos]. Qed.

(** The value of a digit string prints with no more digits than the
    string has. *)
Lemma int_of_digits_within (d : Decimal.uint) :
  d <> Decimal.Nil ->
  0 <= int_of_digits 0 (NilEmpty.string_of_uint d)
  /\ (String.length (repr_int (int_of_digits 0 (NilEmpty.string_of_uint d)))
      <= String.length (NilEmpty.string_of_uint d))%nat.
Proof.
  intros Hd. rewrite int_of_digits_uint, uint_value_0. split; [lia |].
  rewrite repr_int_N, DecimalPos.Unsigned.to_of, !length_string_of_uint.
  now apply DecimalFacts.nb_digits_unorm.
Qed.

Lemma match_integer_digits (s i r : string) :
  match_integer s = Some (i, r) ->
  exists d, d <> Decimal.Nil
            /\ digits_of i = NilEmpty.string_of_uint d
            /\ Z.abs (int_of i) = int_of_digits 0 (NilEmpty.string_of_uint d).
Proof.
  unfold match_integer.
  assert (X : forall c s2 x,
             (if byte_of c =? 48 then Some ("0"%string, s2)
              else if is_digit (byte_of c)
                   then let (d, r) := digits s2 in Some (String c d, r)
                   else None) = Some (x, r) ->
             exists d, d <> Decimal.Nil /\ x = NilEmpty.string_of_uint d
                       /\ exists c' t, x = String c' t
                                       /\ is_digit (byte_of c') = true).
  { intros c s2 x. destruct (byte_of c =? 48).
    - intros [= <- _]. exists (Decimal.D0 Decimal.Nil).
      split; [discriminate | split; [reflexivity |]].
      eexists _, _. split; reflexivity.
    - destruct (is_digit (byte_of c)) eqn:Hc; [| discriminate].
      destruct (digits s2) as [d' r'] eqn:E. intros [= <- _].
      destruct (digits_string _ _ _ E) as (d0 & ->).
      destruct (digit_string c d0 Hc) as (d1 & E1).
      exists d1. split; [| split; [exact E1 |]].
      + intros ->. discriminate E1.
      + eexists _, _. split; [reflexivity | exact Hc]. }
  unfold sign_of. destruct s as [| c0 s0]; [discriminate |].
  cbn [andb orb]. rewrite Bool.orb_false_r.
  destruct (byte_of c0 =? 45) eqn:E0.
  - destruct s0 as [| c s2]; [discriminate |].
    intros H.
    assert (H' : exists x, i = String c0 x
                           /\ (if byte_of c =? 48 then Some ("0"%string, s2)
                               else if is_digit (byte_of c)
                                    then let (d, r) := digits s2 in
                                         Some (String c d, r)
                                    else None) = Some (x, r)).
    { destruct (byte_of c =? 48); [injection H as <- <-; eexists; split; reflexivity |].
      destruct (is_digit (byte_of c)); [| discriminate].
      destruct (digits s2) as [d' r'].
      injection H as <- <-; eexists; split; reflexivity. }
    destruct H' as (x & -> & Hx).
    destruct (X c s2 x Hx) as (d & Hd & -> & _).
    exists d. split; [exact Hd |]. unfold digits_of, int_of. rewrite E0.
    split; [reflexivity |].
    destruct (int_of_digits_within d Hd) as [Hp _]. lia.
  - intros H. destruct (X c0 s0 i H) as (d & Hd & -> & c' & t & Ec & Hc').
    exists d. split; [exact Hd |]. unfold digits_of, int_of. rewrite Ec.
    assert ((byte_of c' =? 45) = false) as ->.
    { apply Z.eqb_neq. intros E. rewrite E in Hc'. discriminate. }
    split; [reflexivity |].
    rewrite <- Ec. destruct (int_of_digits_within d Hd) as [Hp _]. lia.
Qed.

Lemma match_number_within (s : string) (v : value) (r : string) :
  match_number s = Some (ok v, r) -> ints_within_limit v = true.
Proof.
  unfold match_number.
  destruct (match_integer s) as [[i r1] |] eqn:Ei; [| discriminate].
  destruct (optional match_frac r1) as [frac r2].
  destruct (optional match_exp r2) as [exp r3].
  destruct frac, exp; try (intros [= <- _]; reflexivity).
  unfold parse_int.
  destruct (Nat.ltb_spec int_max_str_digits (String.length (digits_of i)))
    as [L | L]; [discriminate |].
  intros [= <- _]. cbn [ints_within_limit]. unfold int_within_limit.
  apply Nat.leb_le.
  destruct (match_integer_digits _ _ _ Ei) as (d & Hd & Ed & Ev).
  rewrite Ev. rewrite Ed in L.
  destruct (int_of_digits_within d Hd) as [_ Hl]. lia.
Qed.

Lemma scan_literal_within (s : string) (v : value) (r : string) :
  scan_literal s = Scanned v r -> ints_within_limit v = true.
Proof.
  unfold scan_literal.
  repeat match goal with
         | |- context [strip_prefix ?p s] =>
             destruct (strip_prefix p s); [intros [= <- _]; reflexivity |]
         | |- context [match_number s] =>
             let E := fresh "E" in
             destruct (match_number s) as [[[? | ?] ?] |] eqn:E;
             [discriminate
             | intros [= <- _]; now apply match_number_within in E |]
         end.
  discriminate.
Qed.

Lemma dict_set_within (k : string) (v : value) (d : list (string * value)) :
  ints_within_limit v = true ->
  forallb (fun kv => ints_within_limit (snd kv)) d = true ->
  forallb (fun kv => ints_within_limit (snd kv)) (dict_set k v d) = true.
Proof.
  intros Hv. induction d as [| [k' v'] d IH]; cbn [dict_set forallb snd].
  - intros _. now rewrite Hv.
  - intros H. apply andb_prop in H. destruct H as [H1 H2].
    destruct (String.eqb k k'); cbn [forallb snd].
    + now rewrite Hv, H2.
    + now rewrite H1, IH.
Qed.

Lemma dict_within (pairs : list (string * value)) :
  forallb (fun kv => ints_within_limit (snd kv)) pairs = true ->
  forallb (fun kv => ints_within_limit (snd kv)) (dict pairs) = true.
Proof.
  unfold dict.
  assert (G : forall acc,
             forallb (fun kv => ints_within_limit (snd kv)) acc = true ->
             forallb (fun kv => ints_within_limit (snd kv)) pairs = true ->
             forallb (fun kv => ints_within_limit (snd kv))
               (fold_left (fun d kv => dict_set (fst kv) (snd kv) d) pairs acc)
             = true).
  { induction pairs as [| [k v] pairs IH]; intros acc Ha Hp; cbn [fold_left].
    - exact Ha.
    - cbn [forallb snd fst] in Hp |- *. apply andb_prop in Hp.
      destruct Hp as [Hv Hp]. apply IH; [| exact Hp].
      now apply dict_set_within. }
  now apply G.
Qed.

(** Whatever is scanned has its ints within the limit. *)
Lemma scan_within (n : nat) :
  (forall s v r, scan_once n s = Scanned v r -> ints_within_limit v = true)
  /\ (forall s vs r, array_items n s = Scanned vs r ->
                     forallb ints_within_limit vs = true)
  /\ (forall s ps r, object_items n s = Scanned ps r ->
                     forallb (fun kv => ints_within_limit (snd kv)) ps = true).
Proof.
  induction n as [| n (IHv & IHa & IHo)].
  { repeat split; intros; discriminate. }
  split; [| split].
  - intros s v r. destruct s as [| c s1]; [discriminate |]. simpl.
    destruct (byte_of c =? 34).
    { destruct (scanstring s1) as [[str r'] |]; [| discriminate].
      intros [= <- _]. reflexivity. }
    destruct (byte_of c =? 123).
    { destruct (skip_ws s1) as [| c1 r1]; [discriminate |].
      destruct (byte_of c1 =? 125); [intros [= <- _]; reflexivity |].
      destruct (byte_of c1 =? 34); [| discriminate].
      destruct (object_items n r1) as [ps r' | | e' |] eqn:Eo; try discriminate.
      intros [= <- _]. cbn [ints_within_limit].
      apply dict_within. now apply IHo in Eo. }
    destruct (byte_of c =? 91).
    { destruct (skip_ws s1) as [| c1 r1]; [discriminate |].
      destruct (byte_of c1 =? 93); [intros [= <- _]; reflexivity |].
      destruct (array_items n (String c1 r1)) as [vs r' | | e' |] eqn:Ea;
        try discriminate.
      intros [= <- _]. cbn [ints_within_limit]. now apply IHa in Ea. }
    apply scan_literal_within.
  - intros s vs r. simpl.
    destruct (scan_once n s) as [v r0 | | e' |] eqn:Ev; try discriminate.
    apply IHv in Ev.
    destruct (skip_ws r0) as [| c r1]; [discriminate |].
    destruct (byte_of c =? 93);
      [intros [= <- _]; cbn [forallb]; now rewrite Ev |].
    destruct (byte_of c =? 44); [| discriminate].
    destruct (array_items n (skip_ws r1)) as [vs' r2 | | e' |] eqn:Ea;
      try discriminate.
    apply IHa in Ea. intros [= <- _]. cbn [forallb]. now rewrite Ev, Ea.
  - intros s ps r. simpl.
    destruct (scanstring s) as [[key r0] |]; [| discriminate].
    destruct (skip_ws r0) as [| c r1]; [discriminate |].
    destruct (negb (byte_of c =? 58)); [discriminate |].
    destruct (scan_once n (skip_ws r1)) as [v r2 | | e' |] eqn:Ev;
      try discriminate.
    apply IHv in Ev.
    destruct (skip_ws r2) as [| c2 r3]; [discriminate |].
    destruct (byte_of c2 =? 125);
      [intros [= <- _]; cbn [forallb snd]; now rewrite Ev |].
    destruct (byte_of c2 =? 44); [| discriminate].
    destruct (skip_ws r3) as [| c3 r4]; [discriminate |].
    destruct (byte_of c3 =? 34); [| discriminate].
    destruct (object_items n r4) as [ps' r5 | | e' |] eqn:Eo; try discriminate.
    apply IHo in Eo. intros [= <- _]. cbn [forallb snd]. now rewrite Ev, Eo.
Qed.

(** What [json.loads] returns has its ints within the limit. *)
Lemma loads_within (s : string) (v : value) :
  loads s = ok v -> ints_within_limit v = true.
Proof.
  unfold loads.
  destruct (scan_once (budget s) (skip_ws s)) as [obj rest | | e' |] eqn:E;
    try discriminate.
  destruct (skip_ws rest); [| discriminate].
  intros [= <-]. now apply (proj1 (scan_within _)) in E.
Qed.

Lemma dict_get_within (k : string) (d : list (string * value)) (v : value) :
  forallb (fun kv => ints_within_limit (snd kv)) d = true ->
  dict_get k d = Some v -> ints_within_limit v = true.
Proof.
  induction d as [| [k' v'] d IH]; cbn [dict_get forallb snd]; [discriminate |].
  intros H. apply andb_prop in H. destruct H as [H1 H2].
  destruct (String.eqb k k'); [now intros [= <-] | now apply IH].
Qed.

End json_roundtrip.

(** ** Function calls through the compiler and the parser *)

Lemma call_dict_safe (name : string) (args : value) :
  text_ok name = true -> json_safe args = true ->
  json_safe (call_dict name args) = true.
Proof.
  intros Hn Ha. unfold call_dict. cbn [json_safe map fst snd forallb].
  rewrite Hn, Ha. reflexivity.
Qed.

(** The tool call of a decoded dict that has both keys. *)
Lemma parse_function_call (completion : Completion.t)
    (choice : CompletionChoice.t) (rest : list CompletionChoice.t)
    (d : list (string * value)) (f a : value) :
  Completion.choices completion = choice :: rest ->
  json.loads (CompletionChoice.text choice) = ok (PyDict d) ->
  dict_get "function" d = Some f ->
  dict_get "arguments" d = Some a ->
  _parse_tool_calls completion
  = ok (Some [ {| ResponseToolCall.id := f;
                  ResponseToolCall.type := "function";
                  ResponseToolCall.function :=
                    {| ResponseFunction.name := f;
                       ResponseFunction.arguments :=
                         json.dumps a (Some 2%nat) |} |} ]).
Proof.
  intros Hc Hl Hf Ha. unfold _parse_tool_calls. rewrite Hc. cbn [first].
  rewrite rbind_ok, Hl, rbind_ok. unfold getitem. now rewrite Hf, Ha.
Qed.

(** X12. The text the compiler stores for an assistant function call is
    read by the completion parser as that same call. For every function
    name of scalar values and every safe arguments value whose ints the
    interpreter converts to text (at most 4300 digits each), whatever
    indent the arguments text was printed with: the function call formats
    to the compact JSON of [{"function": name, "arguments": arguments}],
    and a completion whose first choice holds that text parses to the one
    tool call with that name and those arguments. *)
Theorem function_call_text_parses (name : string) (args : value)
    (indent : option nat) :
  text_ok name = true ->
  json_safe args = true ->
  ints_within_limit args = true ->
  _format_function_call
    {| FunctionCall.name := name;
       FunctionCall.arguments := json.dumps args indent |}
  = ok (json.dumps (call_dict name args) None)
  /\ (forall completion choice rest,
        Completion.choices completion = choice :: rest ->
        CompletionChoice.text choice = json.dumps (call_dict name args) None ->
        _parse_tool_calls completion = ok (Some [tool_call_of name args])).
Proof.
  intros Hn Ha Hlim. split.
  - unfold _format_function_call. cbn [FunctionCall.arguments FunctionCall.name].
    now rewrite (json_roundtrip.loads_dumps args indent Ha Hlim).
  - intros completion choice rest Hc Ht.
    apply (parse_function_call completion choice rest
             [("function", PyStr name); ("arguments", args)]);
      try reflexivity; try exact Hc.
    rewrite Ht.
    apply (json_roundtrip.loads_dumps _ None (call_dict_safe name args Hn Ha)).
    unfold call_dict. cbn [ints_within_limit forallb snd]. now rewrite Hlim.
Qed.

Lemma function_call_text_parses_witness :
  _parse_tool_calls
    (completion_with (json.dumps (call_dict "weather"
                                    (PyDict [("location", PyStr "Tokyo")])) None))
  = ok (Some [tool_call_of "weather" (PyDict [("location", PyStr "Tokyo")])]).
Proof.
  eapply (proj2 (function_call_text_parses "weather"
                   (PyDict [("location", PyStr "Tokyo")]) None
                   eq_refl eq_refl eq_refl));
    reflexivity.
Defined.

(** X13. The function call of a response can be sent back as it is. When
    the text of the completion decodes to a dict whose ["function"] is the
    string [name] and whose ["arguments"] is a safe value, the response
    carries a function call with that name, and an assistant turn that
    echoes the name and the arguments text of the response formats to the
    compact JSON of [{"function": name, "arguments": arguments}]: the
    arguments printed with an indent of two are decoded to the same
    value. *)
Theorem function_call_echo (completion : Completion.t)
    (choice : CompletionChoice.t) (rest : list CompletionChoice.t)
    (decoded : list (string * value)) (name : string) (args : value) :
  Completion.choices completion = choice :: rest ->
  json.loads (CompletionChoice.text choice) = ok (PyDict decoded) ->
  dict_get "function" decoded = Some (PyStr name) ->
  dict_get "arguments" decoded = Some args ->
  json_safe args = true ->
  exists message fn,
    assistant_message completion = ok message
    /\ ResponseMessage.function_call message = Some fn
    /\ ResponseFunction.name fn = PyStr name
    /\ _format_message_content (calling name (ResponseFunction.arguments fn))
       = ok (Some (json.dumps (call_dict name args) None)).
Proof.
  intros Hc Hl Hf Ha Hs.
  pose proof (parse_function_call completion choice rest decoded
                (PyStr name) args Hc Hl Hf Ha) as P.
  eexists _, _. split; [| split; [| split]].
  - unfold assistant_message. rewrite P, rbind_ok. cbn [first].
    rewrite rbind_ok. reflexivity.
  - reflexivity.
  - reflexivity.
  - cbn [ResponseToolCall.function ResponseFunction.arguments].
    unfold _format_message_content, calling.
    cbn [Message.role Message.tool_calls Message.function_call].
    change (String.eqb "assistant" "assistant") with true. cbv iota.
    unfold _format_function_call.
    cbn [FunctionCall.arguments FunctionCall.name].
    assert (Hlim : ints_within_limit args = true).
    { apply json_roundtrip.loads_within in Hl.
      exact (json_roundtrip.dict_get_within "arguments" decoded args Hl Ha). }
    now rewrite (json_roundtrip.loads_dumps args (Some 2%nat) Hs Hlim).
Qed.

Lemma function_call_echo_witness :
  exists message fn,
    assistant_message (completion_with weather_call) = ok message
    /\ ResponseMessage.function_call message = Some fn
    /\ ResponseFunction.name fn = PyStr "weather"
    /\ _format_message_content (calling "weather" (ResponseFunction.arguments fn))
       = ok (Some ("{" ++ q "function" ++ ": " ++ q "weather" ++ ", "
                     ++ q "arguments" ++ ": {" ++ q "location" ++ ": "
                     ++ q "Tokyo" ++ "}}")).
Proof.
  eapply (function_call_echo (completion_with weather_call) _ []
            [("function", PyStr "weather");
             ("arguments", PyDict [("location", PyStr "Tokyo")])]
            "weather" (PyDict [("location", PyStr "Tokyo")]));
    reflexivity.
Defined.

(** ** Turns without content *)

Lemma contentless_turn (m : Message.t) (acc : list string * state) :
  contentless m = true ->
  exists r, turn m acc = ok (_push_state (Some r) acc).
Proof.
  destruct m as [role content name tool_calls function_call].
  unfold contentless, turn, _format_message_content, slot_of_role.
  cbn [Message.role Message.content Message.tool_calls Message.function_call].
  destruct content as [text |]; [discriminate |]. cbn [is_None andb].
  assert (P : forall r, (let (lines, st) := _push_state (Some r) acc in
                         ok (A := list string * state) (lines, state_set st r None))
                        = ok (_push_state (Some r) acc)).
  { intros r. destruct acc as [lines [u s a]]. unfold _push_state.
    destruct r; cbn [state_get st_user st_system st_assistant];
      destruct u, s, a; reflexivity. }
  destruct (String.eqb role "user") eqn:Eu.
  - intros _. exists user. cbn [orb].
    apply String.eqb_eq in Eu. subst role. cbn. apply (P user).
  - destruct (String.eqb role "system") eqn:Es.
    + intros _. exists system. apply String.eqb_eq in Es. subst role.
      cbn. apply (P system).
    + cbn [orb]. destruct (String.eqb role "assistant") eqn:Ea; [| discriminate].
      destruct tool_calls; [discriminate |].
      destruct function_call; [discriminate |]. intros _.
      exists assistant. apply String.eqb_eq in Ea. subst role.
      cbn. apply (P assistant).
Qed.

Lemma push_then_final (r : slot) (acc : list string * state) :
  fst (_push_state None (_push_state (Some r) acc)) = fst (_push_state None acc).
Proof.
  destruct acc as [lines [u s a]]. unfold _push_state.
  destruct r; cbn [state_get st_user st_system st_assistant];
    destruct u, s, a; cbn; rewrite ?List.app_nil_r; reflexivity.
Qed.

Lemma push_at_start (r : slot) :
  _push_state (Some r) ([], _reset_state) = ([], _reset_state).
Proof. destruct r; reflexivity. Qed.

Lemma turns_contentless_start (ms : list Message.t) :
  forallb contentless ms = true ->
  turns ms ([], _reset_state) = ok ([], _reset_state).
Proof.
  induction ms as [| m ms IH]; [reflexivity |].
  cbn [forallb]. intros H. apply andb_prop in H. destruct H as [Hm Hms].
  cbn [turns]. destruct (contentless_turn m ([], _reset_state) Hm) as (r & ->).
  rewrite rbind_ok, push_at_start. now apply IH.
Qed.

Lemma turns_contentless_final (ms : list Message.t) (acc : list string * state) :
  forallb contentless ms = true ->
  exists acc', turns ms acc = ok acc'
               /\ fst (_push_state None acc') = fst (_push_state None acc).
Proof.
  revert acc. induction ms as [| m ms IH]; intros acc.
  - intros _. exists acc. split; reflexivity.
  - cbn [forallb]. intros H. apply andb_prop in H. destruct H as [Hm Hms].
    cbn [turns]. destruct (contentless_turn m acc Hm) as (r & ->).
    rewrite rbind_ok. destruct (IH (_push_state (Some r) acc) Hms) as (acc' & -> & E).
    exists acc'. split; [reflexivity |]. now rewrite E, push_then_final.
Qed.

Lemma format_messages_final (messages : list Message.t) :
  _format_messages messages
  = (acc <- turns messages ([], _reset_state) ;;
     ok (join LF (fst (_push_state None acc)))).
Proof.
  unfold _format_messages.
  destruct (turns messages ([], _reset_state)) as [e | acc]; [reflexivity |].
  rewrite !rbind_ok. now destruct (_push_state None acc).
Qed.

(** X16. Turns without content leave no trace at the ends of a
    conversation: in front of the other turns and after them they change
    neither the compiled turns nor the exception the other turns raise, and
    a conversation of such turns only compiles to the empty string. Between
    two turns a turn without content still flushes its slot, so that a user
    turn, a user turn without content and an assistant turn compile to two
    blocks instead of one. *)
Theorem contentless_turns :
  (forall before messages after,
      forallb contentless before = true ->
      forallb contentless after = true ->
      _format_messages (before ++ messages ++ after)%list
      = _format_messages messages)
  /\ (forall messages,
        forallb contentless messages = true -> _format_messages messages = ok "")
  /\ (forall u a,
        _format_messages [plain "user" u; bare "user"; plain "assistant" a]
        = ok (user_block u ++ LF ++ "<s> " ++ a ++ "</s>")
        /\ _format_messages [plain "user" u; plain "assistant" a]
           = ok (exchange_block u a)).
Proof.
  assert (H : forall before messages after,
             forallb contentless before = true ->
             forallb contentless after = true ->
             _format_messages (before ++ messages ++ after)%list
             = _format_messages messages).
  { intros before messages after Hb Ha.
    rewrite !format_messages_final, turns_app.
    rewrite (turns_contentless_start before Hb), rbind_ok, turns_app.
    destruct (turns messages ([], _reset_state)) as [e | acc]; [reflexivity |].
    rewrite !rbind_ok.
    destruct (turns_contentless_final after acc Ha) as (acc' & -> & E).
    now rewrite rbind_ok, E. }
  split; [exact H | split].
  - intros messages Hm.
    rewrite <- (List.app_nil_r messages).
    change (messages ++ [])%list with (messages ++ [] ++ [])%list.
    now rewrite (H messages [] [] Hm eq_refl).
  - intros u a. split.
    + reflexivity.
    + unfold exchange_block. cbn.
      repeat (rewrite ?append_assoc; cbn). reflexivity.
Qed.

Lemma contentless_turns_witness :
  _format_messages ([bare "system"; bare "user"]
                      ++ [plain "user" "hi"; plain "assistant" "hello"]
                      ++ [bare "assistant"; bare "user"])%list
  = _format_messages [plain "user" "hi"; plain "assistant" "hello"].
Proof.
  apply (proj1 contentless_turns [bare "system"; bare "user"]
           [plain "user" "hi"; plain "assistant" "hello"]
           [bare "assistant"; bare "user"]);
    reflexivity.
Defined.

(** ** The failures of the handler *)

Lemma response_raises (completion : Completion.t) (e : exn) :
  response completion = raise e ->
  (Completion.choices completion = [] /\ e = IndexError)
  \/ exists choice rest,
       Completion.choices completion = choice :: rest
       /\ ((json.loads (CompletionChoice.text choice) = raise e
            /\ e <> JSONDecodeError)
           \/ exists v,
                json.loads (CompletionChoice.text choice) = ok v
                /\ (((forall d, v <> PyDict d) /\ e = TypeError)
                    \/ exists d, v = PyDict d
                         /\ ((dict_get "function" d = None
                              /\ e = KeyError "function")
                             \/ (dict_get "function" d <> None
                                 /\ dict_get "arguments" d = None
                                 /\ e = KeyError "arguments")))).
Proof.
  unfold response, assistant_message, _parse_tool_calls.
  destruct (Completion.choices completion) as [| choice rest].
  - cbn. intros [= <-]. left. split; reflexivity.
  - cbn [first]. rewrite !rbind_ok. intros H. right. exists choice, rest.
    split; [reflexivity |].
    destruct (json.loads (CompletionChoice.text choice)) as [err | v] eqn:El.
    + left. destruct err; cbn in H; try discriminate H;
        injection H as <-; (split; [reflexivity | discriminate]).
    + right. exists v. split; [reflexivity |].
      rewrite rbind_ok in H. unfold getitem in H.
      destruct v as [| b | n | l | t | l | d];
        try (cbn in H; injection H as <-; left; split;
             [discriminate | reflexivity]).
      right. exists d. split; [reflexivity |].
      destruct (dict_get "function" d) as [f |] eqn:Ef.
      * rewrite !rbind_ok in H.
        destruct (dict_get "arguments" d) as [args |] eqn:Eargs.
        -- cbn in H. discriminate.
        -- cbn in H. injection H as <-. right.
           split; [discriminate | split; reflexivity].
      * cbn in H. injection H as <-. left. split; reflexivity.
Qed.

(** X17. Every failure of the handler is one of these. Before any call to
    the collaborator: the exception the compilation of the prompt raises,
    or the [AssertionError] of a streaming request. After exactly one
    call: the exception the collaborator raises, or, for the completion it
    returns, [IndexError] when it has no choice; the exception
    [json.loads] raises on the text of the first choice when that
    exception is not a [JSONDecodeError] (so the [ValueError] of an integer
    of more digits than the limit); [TypeError] when the text decodes to a
    value that is not a dict; [KeyError] when it decodes to a dict without
    ["function"] or without ["arguments"]. A [JSONDecodeError] of
    [json.loads] never makes the handler fail. *)
Theorem handler_failures (llm llm' : llama.Llama) (r : Request.t) (e : exn) :
  llama2_functary_chat_completion_handler llm r = (raise e, llm') ->
  (compile r = raise e /\ llm' = llm)
  \/ (exists prompt,
        compile r = ok prompt /\ Request.stream r = true
        /\ e = AssertionError "streaming is not supported yet" /\ llm' = llm)
  \/ (exists prompt,
        compile r = ok prompt /\ Request.stream r = false
        /\ llm' = llama.called llm (completion_kwargs prompt r)
        /\ (llama.completion_of llm (completion_kwargs prompt r) = raise e
            \/ exists completion,
                 llama.completion_of llm (completion_kwargs prompt r) = ok completion
                 /\ ((Completion.choices completion = [] /\ e = IndexError)
                     \/ exists choice rest,
                          Completion.choices completion = choice :: rest
                          /\ ((json.loads (CompletionChoice.text choice) = raise e
                               /\ e <> JSONDecodeError)
                              \/ exists v,
                                   json.loads (CompletionChoice.text choice) = ok v
                                   /\ (((forall d, v <> PyDict d) /\ e = TypeError)
                                       \/ exists d, v = PyDict d
                                            /\ ((dict_get "function" d = None
                                                 /\ e = KeyError "function")
                                                \/ (dict_get "function" d <> None
                                                    /\ dict_get "arguments" d = None
                                                    /\ e = KeyError "arguments"))))))).
Proof.
  unfold llama2_functary_chat_completion_handler.
  destruct (compile r) as [e0 | prompt] eqn:Ec.
  - intros [= <- <-]. left. split; reflexivity.
  - destruct (Request.stream r) eqn:Es.
    + intros [= <- <-]. right; left. exists prompt. repeat split; reflexivity.
    + unfold llama.create_completion.
      destruct (llama.completion_of llm (completion_kwargs prompt r))
        as [e0 | completion] eqn:Ek.
      * intros [= <- <-]. right; right. exists prompt.
        split; [reflexivity | split; [reflexivity | split; [reflexivity |]]].
        left. exact Ek.
      * intros H. injection H as Hr <-. right; right. exists prompt.
        split; [reflexivity | split; [reflexivity | split; [reflexivity |]]].
        right. exists completion. split; [exact Ek |].
        now apply response_raises.
Qed.

Lemma handler_failures_witness :
  llama2_functary_chat_completion_handler (stub (ones 4301))
    (Request.defaults [plain "user" "hi"] None)
  = (raise (json.int_too_long 4301),
     llama.called (stub (ones 4301))
       (completion_kwargs "[INST] hi [/INST]"
          (Request.defaults [plain "user" "hi"] None)))
  /\ json.loads (ones 4301) = raise (json.int_too_long 4301).
Proof.
  assert (H0 : llama2_functary_chat_completion_handler (stub (ones 4301))
                 (Request.defaults [plain "user" "hi"] None)
               = (raise (json.int_too_long 4301),
                  llama.called (stub (ones 4301))
                    (completion_kwargs "[INST] hi [/INST]"
                       (Request.defaults [plain "user" "hi"] None))))
    by (vm_compute; reflexivity).
  split; [exact H0 |].
  destruct (handler_failures _ _ _ _ H0)
    as [[H _] | [(prompt & _ & H & _) | (prompt & _ & _ & _ & [H | H])]].
  - discriminate H.
  - discriminate H.
  - discriminate H.
  - destruct H as (completion & Hc & [[Hn _] | (choice & rest & Hch & Hl)]).
    + injection Hc as <-. discriminate Hn.
    + injection Hc as <-. injection Hch as <- <-.
      destruct Hl as [[Hl _] | (v & Hl & _)]; [exact Hl |].
      vm_compute in Hl. discriminate Hl.
Defined.

(** * Properties of the API server *)

(** ** What the endpoint hands over *)

Lemma restore_content_dump (m : api_server.ChatCompletionsRequestMessage.t) :
  exists d,
    api_server.restore_content (api_server.ChatCompletionsRequestMessage.model_dump m)
    = ok d
    /\ handed_over m d.
Proof.
  destruct m as [content role name function_call].
  assert (K : forall k, k <> "content" -> k <> "role" -> k <> "name" ->
                        k <> "function_call" ->
                        forall items,
                          (forall k' v, In (k', v) items ->
                             In k' ["content"; "role"; "name"; "function_call"]) ->
                          dict_get k items = None).
  { intros k H1 H2 H3 H4 items. induction items as [| [k' v] items IH]; intros Hin.
    - reflexivity.
    - simpl. destruct (String.eqb_spec k k') as [-> | _].
      + exfalso. specialize (Hin k' v (or_introl eq_refl)). simpl in Hin.
        destruct Hin as [<- | [<- | [<- | [<- | []]]]]; congruence.
      + apply IH. intros k'' v' H. apply (Hin k'' v'). now right. }
  assert (L : forall items,
             (forall k' v, In (k', v) items ->
                In k' ["content"; "role"; "name"; "function_call"]) ->
             forall k, dict_get k items <> None ->
                       In k ["content"; "role"; "name"; "function_call"]).
  { intros items Hin k Hk.
    destruct (string_dec k "content") as [-> | H1]; [simpl; tauto |].
    destruct (string_dec k "role") as [-> | H2]; [simpl; tauto |].
    destruct (string_dec k "name") as [-> | H3]; [simpl; tauto |].
    destruct (string_dec k "function_call") as [-> | H4]; [simpl; tauto |].
    exfalso. apply Hk. now apply K. }
  destruct content as [text |], name as [n |], function_call as [fc |];
    (eexists; split; [reflexivity |]);
    (eexists; split; [reflexivity |]);
    (split; [reflexivity |]); (split; [reflexivity |]);
    (split; [reflexivity |]); (split; [reflexivity |]);
    apply L; intros k' v Hin; simpl in Hin; simpl;
    repeat (destruct Hin as [Hin | Hin]; [injection Hin as <- _; tauto |]);
    contradiction.
Qed.

Lemma restore_contents_dump (ms : list api_server.ChatCompletionsRequestMessage.t) :
  exists ds,
    comprehension api_server.restore_content
      (map api_server.ChatCompletionsRequestMessage.model_dump ms) = ok ds
    /\ Forall2 handed_over ms ds.
Proof.
  induction ms as [| m ms (ds & Hds & Hall)].
  - exists []. split; [reflexivity | constructor].
  - destruct (restore_content_dump m) as (d & Hd & Hm).
    exists (d :: ds). split.
    + cbn [map comprehension]. rewrite Hd, rbind_ok, Hds. reflexivity.
    + now constructor.
Qed.

(** X14. The endpoint never fails on its own and calls
    [create_chat_completion] exactly once, returning what the call returns
    or raises. The [messages] of the call are one dict per request message,
    in order, in which [role] and [content] can always be read ([content]
    is [None] when the request gave none), [name] and [function_call] are
    keys only when the request gave them, and there is no other key; the
    [tools] are [None] when the request gave none and the dumped tools
    otherwise, an empty list staying an empty list; the [model] of the
    request is not handed over. *)
Theorem endpoint_hands_over (llm : api_server.Llama)
    (request : api_server.ChatCompletionsRequest.t) :
  exists ds,
    Forall2 handed_over (api_server.ChatCompletionsRequest.messages request) ds
    /\ api_server.completions_endpoint llm request
       = api_server.create_chat_completion llm
           {| api_server.CreateChatCompletion.messages := PyList ds;
              api_server.CreateChatCompletion.tools :=
                tools_handed_over (api_server.ChatCompletionsRequest.tools request) |}.
Proof.
  destruct request as [ms model tools].
  destruct (restore_contents_dump ms) as (ds & Hds & Hall).
  exists ds. split; [exact Hall |].
  unfold api_server.completions_endpoint,
    api_server.ChatCompletionsRequest.model_dump.
  cbn [api_server.ChatCompletionsRequest.messages
       api_server.ChatCompletionsRequest.model
       api_server.ChatCompletionsRequest.tools].
  unfold getitem at 1. cbn [app dict_get String.eqb Ascii.eqb Bool.eqb].
  rewrite rbind_ok.
  unfold api_server.restore_contents. cbn [api_server.iter]. rewrite rbind_ok.
  rewrite Hds, rbind_ok.
  destruct tools as [ts |]; reflexivity.
Qed.

(** ** The tools of a request in the handler *)

Lemma trelis_tool_received (tool : api_server.ChatCompletionsRequestTool.t) :
  trelis_tool (received_tool tool)
  = if described tool then ok (request_projection tool)
    else raise (KeyError "description").
Proof.
  destruct tool as [type [name description [ptype title required properties]]].
  unfold described, trelis_tool, request_projection, received_tool.
  cbn [api_server.ChatCompletionsRequestTool.function
       api_server.ChatCompletionsRequestTool.type
       api_server.ChatCompletionsRequestToolFunction.name
       api_server.ChatCompletionsRequestToolFunction.description
       api_server.ChatCompletionsRequestToolFunction.parameters
       api_server.ChatCompletionsRequestToolFunctionParameters.type
       api_server.ChatCompletionsRequestToolFunctionParameters.title
       api_server.ChatCompletionsRequestToolFunctionParameters.required
       api_server.ChatCompletionsRequestToolFunctionParameters.properties
       Tool.function Function.name Function.description Function.parameters].
  destruct description as [description |]; [| reflexivity].
  cbn [is_None negb]. rewrite rbind_ok.
  unfold getitem at 1. cbn [dict_get String.eqb Ascii.eqb Bool.eqb].
  rewrite rbind_ok. cbn [items]. rewrite rbind_ok.
  rewrite (comprehension_map trelis_argument _
             (fun item =>
                PyDict [("name", PyStr (fst item));
                        ("type",
                         PyStr (api_server.ChatCompletionsRequestToolFunctionParametersProperty.type
                                  (snd item)))])).
  - reflexivity.
  - intros [k [ptitle ty]]. reflexivity.
Qed.

Lemma comprehension_received (tools : list api_server.ChatCompletionsRequestTool.t) :
  comprehension trelis_tool (map received_tool tools)
  = if forallb described tools then ok (map request_projection tools)
    else raise (KeyError "description").
Proof.
  induction tools as [| tool tools IH].
  - reflexivity.
  - cbn [map comprehension forallb]. rewrite trelis_tool_received.
    destruct (described tool); [| reflexivity].
    rewrite rbind_ok, IH. destruct (forallb described tools); reflexivity.
Qed.

(** X15. The tools the endpoint hands over are, for the handler, tools
    with [type], [name] and [parameters] and with a [description] only
    when the request gave one. When every tool of a request carries a
    description, the header is ["<FUNCTIONS>"], the array of name,
    description and the name and type of each declared property, printed
    with an indent of four spaces, and ["</FUNCTIONS>"] with two newlines:
    a tool the request model accepts never fails on its parameters. When a
    tool carries no description, although the request model accepts it,
    the header, the prompt and the handler raise [KeyError] on
    ["description"] and the collaborator receives no call. *)
Theorem request_tools_in_handler (messages : list Message.t)
    (functions : option (list Function.t)) :
  (forall tool,
      tool_dict (received_tool tool)
      = api_server.ChatCompletionsRequestTool.model_dump tool)
  /\ (forall tool tools,
        _format_tools messages functions (Some (map received_tool (tool :: tools)))
        = if forallb described (tool :: tools)
          then ok (request_header (tool :: tools))
          else raise (KeyError "description"))
  /\ (forall (llm : llama.Llama) (r : Request.t) tools,
        Request.tools r = Some (map received_tool tools) ->
        forallb described tools = false ->
        compile r = raise (KeyError "description")
        /\ llama2_functary_chat_completion_handler llm r
           = (raise (KeyError "description"), llm)).
Proof.
  assert (H : forall ms fs tool tools,
             _format_tools ms fs (Some (map received_tool (tool :: tools)))
             = if forallb described (tool :: tools)
               then ok (request_header (tool :: tools))
               else raise (KeyError "description")).
  { intros ms fs tool tools. unfold _format_tools, request_header.
    change (map received_tool (tool :: tools))
      with (received_tool tool :: map received_tool tools).
    cbv iota beta.
    change (received_tool tool :: map received_tool tools)
      with (map received_tool (tool :: tools)).
    rewrite comprehension_received.
    destruct (forallb described (tool :: tools)); reflexivity. }
  split; [| split].
  - intros [type [name [description |] [ptype title required properties]]];
      reflexivity.
  - intros tool tools. apply H.
  - intros llm r tools Ht Hd.
    assert (Hc : compile r = raise (KeyError "description")).
    { unfold compile. rewrite Ht.
      destruct tools as [| tool tools]; [discriminate |].
      now rewrite H, Hd. }
    split; [exact Hc |].
    unfold llama2_functary_chat_completion_handler. now rewrite Hc.
Qed.

Lemma request_tools_in_handler_witness :
  compile (Request.defaults [plain "user" "hi"]
             (Some (map received_tool
                      [request_tool "weather" (Some "Get the weather");
                       request_tool "traffic" None])))
  = raise (KeyError "description")
  /\ llama2_functary_chat_completion_handler (stub "hello")
       (Request.defaults [plain "user" "hi"]
          (Some (map received_tool
                   [request_tool "weather" (Some "Get the weather");
                    request_tool "traffic" None])))
     = (raise (KeyError "description"), stub "hello").
Proof.
  apply (proj2 (proj2 (request_tools_in_handler [] None)) (stub "hello")
           (Request.defaults [plain "user" "hi"]
              (Some (map received_tool
                       [request_tool "weather" (Some "Get the weather");
                        request_tool "traffic" None])))
           [request_tool "weather" (Some "Get the weather");
            request_tool "traffic" None]);
    reflexivity.
Defined.
